(** * xmlbuilder2: the namespace-aware XML pre-serializer

    A shallow embedding of [src/writers/BaseWriter.ts] (the tree walker that
    resolves qualified names and drives the output sink) and of
    [createProcessingInstruction] and [createElementNS] from
    [src/dom/Document.ts], followed by the
    properties of the natural-language specification that were checked
    against them and by further properties of the code.

    Conventions of the embedding:
    - a JavaScript string is the list of its UTF-16 code units;
    - [string | null] is [option jsstring];
    - the writer object ([level], [currentNode]) and the objects that the
      algorithm passes by reference (namespace prefix maps, the prefix index)
      live in an explicit store; functions that have side effects or may
      throw are computations in the monad [M];
    - the calls received by the output sink are recorded as a list of
      events, in call order. *)

From Stdlib Require Import ZArith NArith List String Ascii Lia.
From Stdlib Require Import DecimalString DecimalN.
From stdpp Require Import base option list gmap.
Import ListNotations.

Set Warnings "-register-all".
Local Open Scope Z_scope.

(** ** JavaScript strings *)

(** A string is a sequence of 16-bit code units. *)
Abbreviation jsstring := (list N).

(** The code units of an ASCII literal. *)
Definition lit (s : string) : jsstring :=
  List.map N_of_ascii (list_ascii_of_string s).
Arguments lit : simpl never.

(** [s.startsWith(p)]. *)
Fixpoint startsWith (s p : jsstring) {struct p} : bool :=
  match p, s with
  | [], _ => true
  | _ :: _, [] => false
  | x :: p', c :: s' => N.eqb c x && startsWith s' p'
  end.

(** [s.indexOf(needle)] searching from position [i] of the original string,
    of which [s] is the remainder. *)
Fixpoint indexOf_from (s needle : jsstring) (i : Z) : Z :=
  if startsWith s needle then i
  else match s with
       | [] => -1
       | _ :: s' => indexOf_from s' needle (i + 1)
       end.

Definition indexOf (s needle : jsstring) : Z := indexOf_from s needle 0.

(** [s.includes(needle)], that is [s.indexOf(needle) !== -1]. *)
Definition includes (s needle : jsstring) : bool :=
  negb (indexOf s needle =? -1).

(** [s.endsWith(suffix)]. *)
Definition endsWith (s suffix : jsstring) : bool :=
  startsWith (rev s) (rev suffix).

(** [n.toString()] for a number holding a non-negative integer. *)
Definition number_toString (n : N) : jsstring :=
  lit (NilEmpty.string_of_uint (N.to_uint n)).
Arguments number_toString : simpl never.

(** ** Plain objects used as maps

    [localPrefixesMap] and the fast path's [localNameSet] are object literals
    [{}]; their keys are looked up with the [in] operator, which also sees
    the properties inherited from [Object.prototype]. *)

Definition Object_prototype_keys : list jsstring :=
  List.map lit
    ["constructor"; "hasOwnProperty"; "isPrototypeOf"; "propertyIsEnumerable";
     "toLocaleString"; "toString"; "valueOf"; "__proto__";
     "__defineGetter__"; "__defineSetter__"; "__lookupGetter__";
     "__lookupSetter__"]%string.

Section JSObject.
Context {V : Type} `{EqDecision V}.

(** [k in o]. *)
Definition obj_in (k : jsstring) (o : gmap jsstring V) : bool :=
  bool_decide (is_Some (o !! k)) || bool_decide (k ∈ Object_prototype_keys).

(** [o[k] = v] for a primitive [v]: assigning a primitive to [__proto__]
    is ignored, every other key becomes an own property. *)
Definition obj_set (k : jsstring) (v : V) (o : gmap jsstring V)
  : gmap jsstring V :=
  if decide (k = lit "__proto__") then o else <[k := v]> o.

(** [o[k] !== v] for a primitive [v]: an absent key reads [undefined] and
    an inherited one reads a function or an object, never [v]. *)
Definition obj_differs (k : jsstring) (v : V) (o : gmap jsstring V) : bool :=
  negb (bool_decide (o !! k = Some v)).
End JSObject.

(** ** Constants of [@oozcitak/infra] *)

Module infraNamespace.
Definition HTML : jsstring := lit "http://www.w3.org/1999/xhtml".
Definition XML : jsstring := lit "http://www.w3.org/XML/1998/namespace".
Definition XMLNS : jsstring := lit "http://www.w3.org/2000/xmlns/".
End infraNamespace.

(** ** The grammar validators

    [xml_isName], [xml_isLegalChar] and [xml_isPubidChar] belong to the DOM
    library and [XMLSpec10.Name] to the DOM layer; the serializer only
    consumes them as predicates, so they are the methods of an interface. *)

Class XmlGrammar := {
  xml_isName : jsstring -> bool;
  xml_isLegalChar : jsstring -> bool;
  xml_isPubidChar : jsstring -> bool;
  (** [s.match(XMLSpec10.Name)] is not [null] *)
  XMLSpec10_Name_matches : jsstring -> bool
}.

(** ** The tree *)

Record Attr := mkAttr {
  attr_namespaceURI : option jsstring;
  attr_prefix : option jsstring;
  attr_localName : jsstring;
  attr_value : jsstring
}.

(** The node kinds of the DOM that the serializer has no case for. *)
Inductive OtherKind := AttributeNode | EntityReferenceNode | EntityNode | NotationNode.

Inductive Node :=
| Element (localName : jsstring) (prefix namespaceURI : option jsstring)
          (attributes : list Attr) (childNodes : list Node)
| Document (childNodes : list Node)
| DocumentFragment (childNodes : list Node)
| DocumentType (name publicId systemId : jsstring)
| Text (data : jsstring)
| Comment (data : jsstring)
| CDATASection (data : jsstring)
| ProcessingInstruction (target data : jsstring)
| OtherNode (kind : OtherKind).

(** [node.nodeType], with the values of the DOM's [NodeType] enumeration. *)
Definition nodeType (node : Node) : N :=
  match node with
  | Element _ _ _ _ _ => 1
  | OtherNode AttributeNode => 2
  | Text _ => 3
  | CDATASection _ => 4
  | OtherNode EntityReferenceNode => 5
  | OtherNode EntityNode => 6
  | ProcessingInstruction _ _ => 7
  | Comment _ => 8
  | Document _ => 9
  | DocumentType _ _ _ => 10
  | DocumentFragment _ => 11
  | OtherNode NotationNode => 12
  end%N.

Definition isElement (node : Node) : bool :=
  match node with Element _ _ _ _ _ => true | _ => false end.

(** [document.documentElement]: the first element child, or [null]. *)
Definition documentElement (childNodes : list Node) : option Node :=
  List.find isElement childNodes.

(** ** The output sink *)

(** An entry of the array handed to [attributes]:
    [[namespaceURI, prefix, localName, value]]. *)
Definition AttrTuple : Type :=
  option jsstring * option jsstring * jsstring * jsstring.

(** One constructor per callback of the sink. *)
Inductive Event :=
| E_docType (name publicId systemId : jsstring)
| E_comment (data : jsstring)
| E_text (data : jsstring)
| E_instruction (target data : jsstring)
| E_cdata (data : jsstring)
| E_openTagBegin (name : jsstring)
| E_openTagEnd (name : jsstring) (selfClosing voidElement : bool)
| E_closeTag (name : jsstring)
| E_attributes (attrs : list AttrTuple)
| E_beginElement (name : jsstring)
| E_endElement (name : jsstring).

(** ** Exceptions *)

Inductive Exn :=
| Error (message : jsstring)
| InvalidStateError (message : jsstring).

Definition message (e : Exn) : jsstring :=
  match e with Error m | InvalidStateError m => m end.

(** ** The namespace prefix map *)

Module PrefixMap.

(** Modelled from the spec: the class [NamespacePrefixMap] of the DOM library
    is not part of this repository.  It is a mapping from prefix to namespace
    URI ([None] is the null namespace); [set] overwrites, [get] prefers the
    given prefix when it already maps to the URI and otherwise returns the
    first prefix found that does, [has] is exact pair membership, [hasPrefix]
    asks whether the prefix is mapped at all. *)
Abbreviation t := (gmap jsstring (option jsstring)).

Definition empty : t := ∅.

Definition set (prefix : jsstring) (ns : option jsstring) (m : t) : t :=
  <[prefix := ns]> m.

Definition has (prefix : jsstring) (ns : option jsstring) (m : t) : bool :=
  bool_decide (m !! prefix = Some ns).

Definition hasPrefix (prefix : jsstring) (m : t) : bool :=
  bool_decide (is_Some (m !! prefix)).

(** The first prefix found that maps to [ns], in the map's enumeration
    order. *)
Definition firstFor (ns : option jsstring) (m : t) : option jsstring :=
  fst <$> List.find (fun e => bool_decide (e.2 = ns)) (map_to_list m).

Definition get (preferredPrefix : option jsstring) (ns : option jsstring)
  (m : t) : option jsstring :=
  match preferredPrefix with
  | Some p => if has p ns m then Some p else firstFor ns m
  | None => firstFor ns m
  end.

End PrefixMap.

(** ** The local name set *)

Module LocalNameSet.

(** Modelled from the spec: the class [LocalNameSet] of the DOM library is
    not part of this repository.  It holds pairs of a namespace URI (or none)
    and a local name and supports [has] and [set]. *)
Definition t : Type := gset (option jsstring * jsstring).

Definition empty : t := ∅.

Definition has (ns : option jsstring) (localName : jsstring) (s : t) : bool :=
  bool_decide ((ns, localName) ∈ s).

Definition set (ns : option jsstring) (localName : jsstring) (s : t) : t :=
  {[ (ns, localName) ]} ∪ s.

End LocalNameSet.

(** ** Writer state and store *)

(** A reference to an object of the store. *)
Definition ref := nat.

(** One call of [_generatePrefix]: the value of the prefix index when it was
    called, the prefix it returned and the namespace it was called for. *)
Record Generated := mkGenerated {
  gen_index : N;
  gen_prefix : jsstring;
  gen_namespace : option jsstring
}.

Record State := mkState {
  (** [this.level] *)
  level : Z;
  (** [this.currentNode] *)
  currentNode : option Node;
  (** the calls received by the sink so far, oldest first *)
  events : list Event;
  (** the [NamespacePrefixMap] objects allocated so far *)
  prefixMaps : list PrefixMap.t;
  (** the [PrefixIndex] objects [{ value }] allocated so far *)
  prefixIndexes : list N;
  (** history variable, read by no function: the calls of [_generatePrefix]
      so far, oldest first *)
  generated : list Generated
}.

Definition initialState : State :=
  {| level := 0; currentNode := None; events := []; prefixMaps := [];
     prefixIndexes := []; generated := [] |}.

(** ** The monad of computations: state, and exceptions that keep the state *)

Inductive Outcome (A : Type) :=
| Normal (a : A)
| Throw (e : Exn).
Arguments Normal {A} a.
Arguments Throw {A} e.

Definition M (A : Type) : Type := State -> Outcome A * State.

Definition ret {A} (a : A) : M A := fun s => (Normal a, s).

Definition bind {A B} (m : M A) (k : A -> M B) : M B :=
  fun s =>
    match m s with
    | (Normal a, s') => k a s'
    | (Throw e, s') => (Throw e, s')
    end.

Definition throw {A} (e : Exn) : M A := fun s => (Throw e, s).

(** [try { m } catch (e) { h(e) }] *)
Definition try_catch {A} (m : M A) (h : Exn -> M A) : M A :=
  fun s =>
    match m s with
    | (Normal a, s') => (Normal a, s')
    | (Throw e, s') => h e s'
    end.

Definition gets {A} (f : State -> A) : M A := fun s => (Normal (f s), s).

Definition modify (f : State -> State) : M unit := fun s => (Normal tt, f s).

Declare Scope js_scope.
Delimit Scope js_scope with js.
Notation "x <- c1 ;; c2" := (bind c1 (fun x => c2))
  (at level 100, c1 at next level, right associativity) : js_scope.
Notation "c1 ;; c2" := (bind c1 (fun _ => c2))
  (at level 100, right associativity) : js_scope.
Local Open Scope js_scope.

(** [if (c) throw new Error(msg)] *)
Definition throw_if (c : bool) (msg : string) : M unit :=
  if c then throw (Error (lit msg)) else ret tt.

(** [for (const x of l) { f(x) }] *)
Definition forEach {A} (f : A -> M unit) : list A -> M unit :=
  fix loop (l : list A) : M unit :=
    match l with
    | [] => ret tt
    | x :: l' => f x ;; loop l'
    end.

(** A [for ... of] loop whose body updates local variables [acc]. *)
Definition forEachAcc {A B} (f : A -> B -> M B) : list A -> B -> M B :=
  fix loop (l : list A) (acc : B) : M B :=
    match l with
    | [] => ret acc
    | x :: l' => acc' <- f x acc ;; loop l' acc'
    end.

(** ** Objects of the store *)

Definition with_prefixMaps (f : list PrefixMap.t -> list PrefixMap.t)
  (s : State) : State :=
  {| level := level s; currentNode := currentNode s; events := events s;
     prefixMaps := f (prefixMaps s); prefixIndexes := prefixIndexes s;
     generated := generated s |}.

Definition with_prefixIndexes (f : list N -> list N) (s : State) : State :=
  {| level := level s; currentNode := currentNode s; events := events s;
     prefixMaps := prefixMaps s; prefixIndexes := f (prefixIndexes s);
     generated := generated s |}.

Definition with_level (f : Z -> Z) (s : State) : State :=
  {| level := f (level s); currentNode := currentNode s; events := events s;
     prefixMaps := prefixMaps s; prefixIndexes := prefixIndexes s;
     generated := generated s |}.

Definition with_currentNode (n : Node) (s : State) : State :=
  {| level := level s; currentNode := Some n; events := events s;
     prefixMaps := prefixMaps s; prefixIndexes := prefixIndexes s;
     generated := generated s |}.

Definition with_event (e : Event) (s : State) : State :=
  {| level := level s; currentNode := currentNode s;
     events := events s ++ [e];
     prefixMaps := prefixMaps s; prefixIndexes := prefixIndexes s;
     generated := generated s |}.

Definition with_generated (g : Generated) (s : State) : State :=
  {| level := level s; currentNode := currentNode s; events := events s;
     prefixMaps := prefixMaps s; prefixIndexes := prefixIndexes s;
     generated := generated s ++ [g] |}.

(** The contents of the prefix map that [r] refers to. *)
Definition prefixMapAt (r : ref) (s : State) : PrefixMap.t :=
  default PrefixMap.empty (prefixMaps s !! r).

(** The [value] field of the prefix index that [r] refers to. *)
Definition prefixIndexAt (r : ref) (s : State) : N :=
  default 0%N (prefixIndexes s !! r).

(** Allocation of a prefix map object with the given contents. *)
Definition NamespacePrefixMap_alloc (m : PrefixMap.t) : M ref :=
  fun s => (Normal (length (prefixMaps s)),
            with_prefixMaps (fun h => h ++ [m]) s).

(** [new NamespacePrefixMap()] *)
Definition NamespacePrefixMap_new : M ref :=
  NamespacePrefixMap_alloc PrefixMap.empty.

(** [prefixMap.copy()]: a new object seeded with the current entries. *)
Definition NamespacePrefixMap_copy (prefixMap : ref) : M ref :=
  m <- gets (prefixMapAt prefixMap) ;;
  NamespacePrefixMap_alloc m.

(** [map.set(prefix, ns)] *)
Definition NamespacePrefixMap_set (map : ref) (prefix : jsstring)
  (ns : option jsstring) : M unit :=
  modify (fun s =>
    with_prefixMaps (fun h => <[map := PrefixMap.set prefix ns (prefixMapAt map s)]> h) s).

(** [map.get(preferredPrefix, ns)] *)
Definition NamespacePrefixMap_get (map : ref)
  (preferredPrefix ns : option jsstring) : M (option jsstring) :=
  gets (fun s => PrefixMap.get preferredPrefix ns (prefixMapAt map s)).

(** [map.has(prefix, ns)] *)
Definition NamespacePrefixMap_has (map : ref) (prefix : jsstring)
  (ns : option jsstring) : M bool :=
  gets (fun s => PrefixMap.has prefix ns (prefixMapAt map s)).

(** [map.hasPrefix(prefix)] *)
Definition NamespacePrefixMap_hasPrefix (map : ref) (prefix : jsstring)
  : M bool :=
  gets (fun s => PrefixMap.hasPrefix prefix (prefixMapAt map s)).

(** [{ value: v }] *)
Definition PrefixIndex_new (v : N) : M ref :=
  fun s => (Normal (length (prefixIndexes s)),
            with_prefixIndexes (fun h => h ++ [v]) s).

(** ** The callbacks of the sink, as recorded calls *)

Definition emit (e : Event) : M unit := modify (with_event e).

Definition docType (name publicId systemId : jsstring) : M unit :=
  emit (E_docType name publicId systemId).
Definition comment (data : jsstring) : M unit := emit (E_comment data).
Definition text (data : jsstring) : M unit := emit (E_text data).
Definition instruction (target data : jsstring) : M unit :=
  emit (E_instruction target data).
Definition cdata (data : jsstring) : M unit := emit (E_cdata data).
Definition openTagBegin (name : jsstring) : M unit :=
  emit (E_openTagBegin name).
Definition openTagEnd (name : jsstring) (selfClosing voidElement : bool)
  : M unit :=
  emit (E_openTagEnd name selfClosing voidElement).
Definition closeTag (name : jsstring) : M unit := emit (E_closeTag name).
Definition attributes (attrs : list AttrTuple) : M unit :=
  emit (E_attributes attrs).
Definition beginElement (name : jsstring) : M unit :=
  emit (E_beginElement name).
Definition endElement (name : jsstring) : M unit := emit (E_endElement name).

(** ** Character escaping *)

(** The code units the escaping routines look for. *)
Definition TAB : N := 9.
Definition LF : N := 10.
Definition CR : N := 13.
Definition QUOT : N := 34.
Definition AMP : N := 38.
Definition SEMICOLON : N := 59.
Definition LT : N := 60.
Definition GT : N := 62.

(** The class [\s] of JavaScript regular expressions, on code units. *)
Definition isWhiteSpace (c : N) : bool :=
  bool_decide (c ∈ [9; 10; 11; 12; 13; 32; 160; 5760; 8232; 8233; 8239; 8287;
                     12288; 65279]%N)
  || ((8192 <=? c)%N && (c <=? 8202)%N).

(** Whether [\S+;] matches at the start of [l]; [seen] tells that [\S+] has
    already consumed a code unit. *)
Fixpoint nonSpaceThenSemicolon (seen : bool) (l : jsstring) : bool :=
  match l with
  | [] => false
  | c :: l' =>
      if isWhiteSpace c then false
      else (seen && N.eqb c SEMICOLON) || nonSpaceThenSemicolon true l'
  end.

(** [s.replace(/(?!&\S+;)&/g, '&amp;')]: every ampersand at which the
    lookahead [&\S+;] does not match is replaced. *)
Fixpoint replaceBareAmpersands (s : jsstring) : jsstring :=
  match s with
  | [] => []
  | c :: s' =>
      if N.eqb c AMP && negb (nonSpaceThenSemicolon false s')
      then lit "&amp;" ++ replaceBareAmpersands s'
      else c :: replaceBareAmpersands s'
  end.

(** [s.replace(/c/g, by)] for a single literal character [c]. *)
Fixpoint replaceAll (c : N) (by_ : string) (s : jsstring) : jsstring :=
  match s with
  | [] => []
  | x :: s' =>
      if N.eqb x c then lit by_ ++ replaceAll c by_ s'
      else x :: replaceAll c by_ s'
  end.

(** The body of the per-character loop of [_serializeAttributeValue]. *)
Definition escapeAttributeChar (c : N) : jsstring :=
  if N.eqb c QUOT then lit "&quot;"
  else if N.eqb c AMP then lit "&amp;"
  else if N.eqb c LT then lit "&lt;"
  else if N.eqb c GT then lit "&gt;"
  else [c].

(** The body of the per-character loop of [_serializeText]. *)
Definition escapeTextChar (c : N) : jsstring :=
  if N.eqb c AMP then lit "&amp;"
  else if N.eqb c LT then lit "&lt;"
  else if N.eqb c GT then lit "&gt;"
  else [c].

(** [for (i = 0; i < s.length; i++) result += f(s[i])] starting from the
    empty string. *)
Definition appendEach (f : N -> jsstring) (s : jsstring) : jsstring :=
  fold_left (fun result c => result ++ f c) s [].

(** ** The serializer ([BaseWriter]) *)

Section BaseWriter.
Context `{XmlGrammar}.

(** [BaseWriter._VoidElementNames] *)
Definition _VoidElementNames : list jsstring :=
  List.map lit
    ["area"; "base"; "basefont"; "bgsound"; "br"; "col"; "embed"; "frame";
     "hr"; "img"; "input"; "keygen"; "link"; "menuitem"; "meta"; "param";
     "source"; "track"; "wbr"]%string.

(** [_generatePrefix(newNamespace, prefixMap, prefixIndex)].  The index is a
    JavaScript number that counts the calls from 1; numbers are exact
    integers up to [2^53], far beyond the number of elements and attributes
    of a tree, so the index is a natural number here. *)
Definition _generatePrefix (newNamespace : option jsstring)
  (prefixMap prefixIndex : ref) : M jsstring :=
  value <- gets (prefixIndexAt prefixIndex) ;;
  let generatedPrefix := lit "ns" ++ number_toString value in
  modify (with_prefixIndexes (fun h => <[prefixIndex := (value + 1)%N]> h)) ;;
  NamespacePrefixMap_set prefixMap generatedPrefix newNamespace ;;
  modify (with_generated (mkGenerated value generatedPrefix newNamespace)) ;;
  ret generatedPrefix.

(** Step 3 of [_serializeAttributeValue]: the value with its characters
    replaced. *)
Definition attributeValueMarkup (value : jsstring) (noDoubleEncoding : bool)
  : jsstring :=
  if noDoubleEncoding then
    let r := replaceBareAmpersands value in
    let r := replaceAll LT "&lt;" r in
    let r := replaceAll QUOT "&quot;" r in
    let r := replaceAll TAB "&#x9;" r in
    let r := replaceAll LF "&#xA;" r in
    let r := replaceAll CR "&#xD;" r in
    r
  else appendEach escapeAttributeChar value.

(** [_serializeAttributeValue(value, requireWellFormed, noDoubleEncoding)] *)
Definition _serializeAttributeValue (value : option jsstring)
  (requireWellFormed noDoubleEncoding : bool) : M jsstring :=
  throw_if (requireWellFormed &&
            match value with
            | Some v => negb (xml_isLegalChar v)
            | None => false
            end)
    "Invalid characters in attribute value." ;;
  match value with
  | None => ret []
  | Some value => ret (attributeValueMarkup value noDoubleEncoding)
  end.

(** One iteration of the loop of [_recordNamespaceInformation]; the local
    variables are [defaultNamespaceAttrValue] and the contents of
    [localPrefixesMap]. *)
Definition _recordNamespaceInformation_attr (map : ref) (attr : Attr)
  (acc : option jsstring * gmap jsstring jsstring)
  : M (option jsstring * gmap jsstring jsstring) :=
  let attributeNamespace := attr_namespaceURI attr in
  let attributePrefix := attr_prefix attr in
  if decide (attributeNamespace = Some infraNamespace.XMLNS) then
    match attributePrefix with
    | None => ret (Some (attr_value attr), acc.2)
    | Some _ =>
        let prefixDefinition := attr_localName attr in
        if decide (attr_value attr = infraNamespace.XML) then ret acc
        else
          let namespaceDefinition :=
            if decide (attr_value attr = []) then None
            else Some (attr_value attr) in
          found <- NamespacePrefixMap_has map prefixDefinition namespaceDefinition ;;
          if found : bool then ret acc
          else
            NamespacePrefixMap_set map prefixDefinition namespaceDefinition ;;
            ret (acc.1,
                 obj_set prefixDefinition (default [] namespaceDefinition) acc.2)
    end
  else ret acc.

(** [_recordNamespaceInformation(node, map, localPrefixesMap)]: returns the
    default namespace attribute value together with the final contents of
    [localPrefixesMap]. *)
Definition _recordNamespaceInformation (attributes : list Attr) (map : ref)
  (localPrefixesMap : gmap jsstring jsstring)
  : M (option jsstring * gmap jsstring jsstring) :=
  forEachAcc (_recordNamespaceInformation_attr map) attributes
    (None, localPrefixesMap).

(** [x || null] for a string [x]. *)
Definition orNull (x : jsstring) : option jsstring :=
  if decide (x = []) then None else Some x.

(** Steps 3.5.1 to 3.5.3 of the loop of [_serializeAttributesNS] for an
    attribute in namespace [attributeNamespace]: [None] is [continue],
    otherwise the candidate prefix and [result]. *)
Definition _serializeAttributesNS_namespaced (attr : Attr)
  (attributeNamespace : jsstring) (result : list AttrTuple)
  (map prefixIndex : ref) (localPrefixesMap : gmap jsstring jsstring)
  (ignoreNamespaceDefinitionAttribute requireWellFormed noDoubleEncoding : bool)
  : M (option (option jsstring * list AttrTuple)) :=
  candidatePrefix <- NamespacePrefixMap_get map (attr_prefix attr)
                       (Some attributeNamespace) ;;
  if decide (attributeNamespace = infraNamespace.XMLNS) then
    declared <- NamespacePrefixMap_has map (attr_localName attr)
                  (Some (attr_value attr)) ;;
    if bool_decide (attr_value attr = infraNamespace.XML)
       || (bool_decide (attr_prefix attr = None)
           && ignoreNamespaceDefinitionAttribute)
       || (bool_decide (attr_prefix attr <> None)
           && (negb (obj_in (attr_localName attr) localPrefixesMap)
               || obj_differs (attr_localName attr) (attr_value attr)
                    localPrefixesMap)
           && declared)
    then ret None
    else
      throw_if (requireWellFormed
                && bool_decide (attr_value attr = infraNamespace.XMLNS))
        "XMLNS namespace is reserved (well-formed required)." ;;
      throw_if (requireWellFormed && bool_decide (attr_value attr = []))
        "Namespace prefix declarations cannot be used to undeclare a namespace (well-formed required)." ;;
      ret (Some (if decide (attr_prefix attr = Some (lit "xmlns"))
                 then Some (lit "xmlns") else candidatePrefix,
                 result))
  else
    match candidatePrefix with
    | Some _ => ret (Some (candidatePrefix, result))
    | None =>
        candidatePrefix <-
          match attr_prefix attr with
          | Some p =>
              mapped <- NamespacePrefixMap_hasPrefix map p ;;
              bound <- NamespacePrefixMap_has map p (Some attributeNamespace) ;;
              if negb mapped || bound then ret p
              else _generatePrefix (Some attributeNamespace) map prefixIndex
          | None => _generatePrefix (Some attributeNamespace) map prefixIndex
          end ;;
        v <- _serializeAttributeValue (Some attributeNamespace)
               requireWellFormed noDoubleEncoding ;;
        ret (Some (Some candidatePrefix,
                   result ++ [(None, Some (lit "xmlns"), candidatePrefix, v)]))
    end.

(** One iteration of the loop of [_serializeAttributesNS]; the local
    variables are [result] and the contents of [localNameSet]
    ([None] when it is [undefined]). *)
Definition _serializeAttributesNS_attr (map prefixIndex : ref)
  (localPrefixesMap : gmap jsstring jsstring)
  (ignoreNamespaceDefinitionAttribute requireWellFormed noDoubleEncoding : bool)
  (attr : Attr) (acc : list AttrTuple * option LocalNameSet.t)
  : M (list AttrTuple * option LocalNameSet.t) :=
  let result := acc.1 in
  let localNameSet := acc.2 in
  if negb requireWellFormed && negb ignoreNamespaceDefinitionAttribute
     && bool_decide (attr_namespaceURI attr = None)
  then
    v <- _serializeAttributeValue (Some (attr_value attr))
           requireWellFormed noDoubleEncoding ;;
    ret (result ++ [(None, None, attr_localName attr, v)], localNameSet)
  else
    throw_if (requireWellFormed &&
              match localNameSet with
              | Some lns =>
                  LocalNameSet.has (attr_namespaceURI attr) (attr_localName attr) lns
              | None => false
              end)
      "Element contains duplicate attributes (well-formed required)." ;;
    let localNameSet :=
      if requireWellFormed
      then LocalNameSet.set (attr_namespaceURI attr) (attr_localName attr)
             <$> localNameSet
      else localNameSet in
    let attributeNamespace := attr_namespaceURI attr in
    step <-
      match attributeNamespace with
      | Some attributeNamespace =>
          _serializeAttributesNS_namespaced attr attributeNamespace result
            map prefixIndex localPrefixesMap
            ignoreNamespaceDefinitionAttribute requireWellFormed
            noDoubleEncoding
      | None => ret (Some (None, result))
      end ;;
    match step with
    | None => ret (result, localNameSet)
    | Some (candidatePrefix, result) =>
        throw_if (requireWellFormed
                  && (includes (attr_localName attr) (lit ":")
                      || negb (xml_isName (attr_localName attr))
                      || (bool_decide (attr_localName attr = lit "xmlns")
                          && bool_decide (attributeNamespace = None))))
          "Attribute local name contains invalid characters (well-formed required)." ;;
        v <- _serializeAttributeValue (Some (attr_value attr))
               requireWellFormed noDoubleEncoding ;;
        ret (result ++ [(attributeNamespace, candidatePrefix,
                         attr_localName attr, v)],
             localNameSet)
    end.

(** [_serializeAttributesNS(node, map, prefixIndex, localPrefixesMap,
    ignoreNamespaceDefinitionAttribute, requireWellFormed, noDoubleEncoding)] *)
Definition _serializeAttributesNS (attributes : list Attr)
  (map prefixIndex : ref) (localPrefixesMap : gmap jsstring jsstring)
  (ignoreNamespaceDefinitionAttribute requireWellFormed noDoubleEncoding : bool)
  : M (list AttrTuple) :=
  let localNameSet :=
    if requireWellFormed then Some LocalNameSet.empty else None in
  acc <- forEachAcc
           (_serializeAttributesNS_attr map prefixIndex localPrefixesMap
              ignoreNamespaceDefinitionAttribute requireWellFormed
              noDoubleEncoding)
           attributes ([], localNameSet) ;;
  ret acc.1.

(** One iteration of the loop of [_serializeAttributes]; the local variables
    are [result] and the contents of the object [localNameSet]. *)
Definition _serializeAttributes_attr
  (requireWellFormed noDoubleEncoding : bool) (attr : Attr)
  (acc : list AttrTuple * option (gmap jsstring bool))
  : M (list AttrTuple * option (gmap jsstring bool)) :=
  let result := acc.1 in
  let localNameSet := acc.2 in
  if negb requireWellFormed then
    v <- _serializeAttributeValue (Some (attr_value attr))
           requireWellFormed noDoubleEncoding ;;
    ret (result ++ [(None, None, attr_localName attr, v)], localNameSet)
  else
    throw_if (requireWellFormed &&
              match localNameSet with
              | Some o => obj_in (attr_localName attr) o
              | None => false
              end)
      "Element contains duplicate attributes (well-formed required)." ;;
    let localNameSet :=
      if requireWellFormed
      then obj_set (attr_localName attr) true <$> localNameSet
      else localNameSet in
    throw_if (requireWellFormed
              && (includes (attr_localName attr) (lit ":")
                  || negb (xml_isName (attr_localName attr))))
      "Attribute local name contains invalid characters (well-formed required)." ;;
    v <- _serializeAttributeValue (Some (attr_value attr))
           requireWellFormed noDoubleEncoding ;;
    ret (result ++ [(None, None, attr_localName attr, v)], localNameSet).

(** [_serializeAttributes(node, requireWellFormed, noDoubleEncoding)] *)
Definition _serializeAttributes (attributes : list Attr)
  (requireWellFormed noDoubleEncoding : bool) : M (list AttrTuple) :=
  let localNameSet : option (gmap jsstring bool) :=
    if requireWellFormed then Some ∅ else None in
  acc <- forEachAcc (_serializeAttributes_attr requireWellFormed noDoubleEncoding)
           attributes ([], localNameSet) ;;
  ret acc.1.

(** [_serializeComment(node, requireWellFormed, noDoubleEncoding)] *)
Definition _serializeComment (data : jsstring)
  (requireWellFormed noDoubleEncoding : bool) : M unit :=
  throw_if (requireWellFormed
            && (negb (xml_isLegalChar data)
                || negb (indexOf data (lit "--") =? -1)
                || endsWith data (lit "-")))
    "Comment data contains invalid characters (well-formed required)." ;;
  comment data.

(** [_serializeText(node, requireWellFormed, noDoubleEncoding)] *)
Definition _serializeText (data : jsstring)
  (requireWellFormed noDoubleEncoding : bool) : M unit :=
  throw_if (requireWellFormed && negb (xml_isLegalChar data))
    "Text data contains invalid characters (well-formed required)." ;;
  let markup :=
    if noDoubleEncoding then
      let r := replaceBareAmpersands data in
      let r := replaceAll LT "&lt;" r in
      let r := replaceAll GT "&gt;" r in
      let r := replaceAll CR "&#xD;" r in
      r
    else appendEach escapeTextChar data in
  text markup.

(** [_serializeDocumentType(node, requireWellFormed, noDoubleEncoding)] *)
Definition _serializeDocumentType (name publicId systemId : jsstring)
  (requireWellFormed noDoubleEncoding : bool) : M unit :=
  throw_if (requireWellFormed && negb (xml_isPubidChar publicId))
    "DocType public identifier does not match PubidChar construct (well-formed required)." ;;
  throw_if (requireWellFormed
            && (negb (xml_isLegalChar systemId)
                || (negb (indexOf systemId [QUOT] =? -1)
                    && negb (indexOf systemId (lit "'") =? -1))))
    "DocType system identifier contains invalid characters (well-formed required)." ;;
  docType name publicId systemId.

(** ASCII upper case to lower case, for the [i] flag of [/^xml$/i]. *)
Definition asciiLower (c : N) : N :=
  if (65 <=? c)%N && (c <=? 90)%N then (c + 32)%N else c.

(** [(/^xml$/i).test(s)] *)
Definition isXmlIgnoreCase (s : jsstring) : bool :=
  bool_decide (List.map asciiLower s = lit "xml").

(** [_serializeProcessingInstruction(node, requireWellFormed,
    noDoubleEncoding)] *)
Definition _serializeProcessingInstruction (target data : jsstring)
  (requireWellFormed noDoubleEncoding : bool) : M unit :=
  throw_if (requireWellFormed
            && (negb (indexOf target (lit ":") =? -1)
                || isXmlIgnoreCase target))
    "Processing instruction target contains invalid characters (well-formed required)." ;;
  throw_if (requireWellFormed
            && (negb (xml_isLegalChar data)
                || negb (indexOf data (lit "?>") =? -1)))
    "Processing instruction data contains invalid characters (well-formed required)." ;;
  instruction target data.

(** [_serializeCData(node, requireWellFormed, noDoubleEncoding)] *)
Definition _serializeCData (data : jsstring)
  (requireWellFormed noDoubleEncoding : bool) : M unit :=
  throw_if (requireWellFormed && negb (indexOf data (lit "]]>") =? -1))
    "CDATA contains invalid characters (well-formed required)." ;;
  cdata data.

(** What steps 11 and 12 of [_serializeElementNS] leave in the local
    variables. *)
Record Resolved := mkResolved {
  r_qualifiedName : jsstring;
  r_inheritedNS : option jsstring;
  r_ignoreNamespaceDefinitionAttribute : bool;
  r_attributes : list AttrTuple
}.

(** Steps 11 and 12 of [_serializeElementNS]: the qualified name is chosen,
    [beginElement] and [openTagBegin] are called, and a namespace declaration
    is pushed on [attributes] where one is needed. *)
Definition _serializeElementNS_name (localName : jsstring)
  (prefix ns : option jsstring) (inheritedNS localDefaultNamespace : option jsstring)
  (localPrefixesMap : gmap jsstring jsstring) (map prefixIndex : ref)
  (requireWellFormed noDoubleEncoding : bool) : M Resolved :=
  if decide (inheritedNS = ns) then
    let ignoreNamespaceDefinitionAttribute :=
      bool_decide (localDefaultNamespace <> None) in
    let qualifiedName :=
      if decide (ns = Some infraNamespace.XML) then lit "xml:" ++ localName
      else localName in
    beginElement qualifiedName ;;
    openTagBegin qualifiedName ;;
    ret (mkResolved qualifiedName inheritedNS
           ignoreNamespaceDefinitionAttribute [])
  else
    candidatePrefix <-
      (if bool_decide (prefix <> None)
          || bool_decide (ns <> localDefaultNamespace)
       then NamespacePrefixMap_get map prefix ns
       else ret None) ;;
    candidatePrefix <-
      (if decide (prefix = Some (lit "xmlns")) then
         throw_if requireWellFormed
           "An element cannot have the 'xmlns' prefix (well-formed required)." ;;
         ret prefix
       else ret candidatePrefix) ;;
    match candidatePrefix, prefix with
    | Some candidatePrefix, _ =>
        let qualifiedName := candidatePrefix ++ lit ":" ++ localName in
        let inheritedNS :=
          match localDefaultNamespace with
          | Some ldn =>
              if decide (ldn <> infraNamespace.XML) then orNull ldn
              else inheritedNS
          | None => inheritedNS
          end in
        beginElement qualifiedName ;;
        openTagBegin qualifiedName ;;
        ret (mkResolved qualifiedName inheritedNS false [])
    | None, Some prefix =>
        prefix <-
          (if obj_in prefix localPrefixesMap
           then _generatePrefix ns map prefixIndex
           else ret prefix) ;;
        NamespacePrefixMap_set map prefix ns ;;
        let qualifiedName := prefix ++ lit ":" ++ localName in
        beginElement qualifiedName ;;
        openTagBegin qualifiedName ;;
        v <- _serializeAttributeValue ns requireWellFormed noDoubleEncoding ;;
        let inheritedNS :=
          match localDefaultNamespace with
          | Some ldn => orNull ldn
          | None => inheritedNS
          end in
        ret (mkResolved qualifiedName inheritedNS false
               [(None, Some (lit "xmlns"), prefix, v)])
    | None, None =>
        if bool_decide (localDefaultNamespace = None)
           || (bool_decide (localDefaultNamespace <> None)
               && bool_decide (localDefaultNamespace <> ns))
        then
          let qualifiedName := localName in
          beginElement qualifiedName ;;
          openTagBegin qualifiedName ;;
          v <- _serializeAttributeValue ns requireWellFormed noDoubleEncoding ;;
          ret (mkResolved qualifiedName ns true
                 [(None, None, lit "xmlns", v)])
        else
          let qualifiedName := localName in
          beginElement qualifiedName ;;
          openTagBegin qualifiedName ;;
          ret (mkResolved qualifiedName ns false [])
    end.

(** [_serializeElementNS(node, namespace, prefixMap, prefixIndex,
    requireWellFormed, noDoubleEncoding)]; the first argument stands for the
    method [_serializeNodeNS] that the loop over the children calls. *)
Definition _serializeElementNS
  (_serializeNodeNS : Node -> option jsstring -> ref -> ref -> bool -> bool -> M unit)
  (localName : jsstring) (prefix namespaceURI : option jsstring)
  (attrs : list Attr) (childNodes : list Node)
  (namespace : option jsstring) (prefixMap prefixIndex : ref)
  (requireWellFormed noDoubleEncoding : bool) : M unit :=
  throw_if (requireWellFormed
            && (negb (indexOf localName (lit ":") =? -1)
                || negb (xml_isName localName)))
    "Node local name contains invalid characters (well-formed required)." ;;
  map <- NamespacePrefixMap_copy prefixMap ;;
  recorded <- _recordNamespaceInformation attrs map ∅ ;;
  let localDefaultNamespace := recorded.1 in
  let localPrefixesMap := recorded.2 in
  let inheritedNS := namespace in
  let ns := namespaceURI in
  resolved <- _serializeElementNS_name localName prefix ns inheritedNS
                localDefaultNamespace localPrefixesMap map prefixIndex
                requireWellFormed noDoubleEncoding ;;
  let qualifiedName := r_qualifiedName resolved in
  let inheritedNS := r_inheritedNS resolved in
  more <- _serializeAttributesNS attrs map prefixIndex localPrefixesMap
            (r_ignoreNamespaceDefinitionAttribute resolved)
            requireWellFormed noDoubleEncoding ;;
  attributes (r_attributes resolved ++ more) ;;
  let isHTML := bool_decide (ns = Some infraNamespace.HTML) in
  if isHTML && (Nat.eqb (length childNodes) 0)
     && bool_decide (localName ∈ _VoidElementNames)
  then
    openTagEnd qualifiedName true true ;;
    endElement qualifiedName
  else if negb isHTML && (Nat.eqb (length childNodes) 0)
  then
    openTagEnd qualifiedName true false ;;
    endElement qualifiedName
  else
    openTagEnd qualifiedName false false ;;
    (if isHTML && bool_decide (localName = lit "template")
     then ret tt
     else
       forEach (fun childNode =>
                  modify (with_level Z.succ) ;;
                  _serializeNodeNS childNode inheritedNS map prefixIndex
                    requireWellFormed noDoubleEncoding ;;
                  modify (with_level Z.pred))
         childNodes) ;;
    closeTag qualifiedName ;;
    endElement qualifiedName.

(** [_serializeDocumentNS(node, namespace, prefixMap, prefixIndex,
    requireWellFormed, noDoubleEncoding)] *)
Definition _serializeDocumentNS
  (_serializeNodeNS : Node -> option jsstring -> ref -> ref -> bool -> bool -> M unit)
  (childNodes : list Node)
  (namespace : option jsstring) (prefixMap prefixIndex : ref)
  (requireWellFormed noDoubleEncoding : bool) : M unit :=
  throw_if (requireWellFormed
            && bool_decide (documentElement childNodes = None))
    "Missing document element (well-formed required)." ;;
  forEach (fun childNode =>
             _serializeNodeNS childNode namespace prefixMap prefixIndex
               requireWellFormed noDoubleEncoding)
    childNodes.

(** [_serializeDocumentFragmentNS(node, namespace, prefixMap, prefixIndex,
    requireWellFormed, noDoubleEncoding)] *)
Definition _serializeDocumentFragmentNS
  (_serializeNodeNS : Node -> option jsstring -> ref -> ref -> bool -> bool -> M unit)
  (childNodes : list Node)
  (namespace : option jsstring) (prefixMap prefixIndex : ref)
  (requireWellFormed noDoubleEncoding : bool) : M unit :=
  forEach (fun childNode =>
             _serializeNodeNS childNode namespace prefixMap prefixIndex
               requireWellFormed noDoubleEncoding)
    childNodes.

(** [`Unknown node type: ${node.nodeType}`] *)
Definition unknownNodeType (node : Node) : jsstring :=
  lit "Unknown node type: " ++ number_toString (nodeType node).

(** [_serializeNodeNS(node, namespace, prefixMap, prefixIndex,
    requireWellFormed, noDoubleEncoding)] *)
Fixpoint _serializeNodeNS (node : Node) (namespace : option jsstring)
  (prefixMap prefixIndex : ref) (requireWellFormed noDoubleEncoding : bool)
  {struct node} : M unit :=
  modify (with_currentNode node) ;;
  match node with
  | Element localName prefix namespaceURI attrs childNodes =>
      _serializeElementNS _serializeNodeNS localName prefix namespaceURI
        attrs childNodes namespace prefixMap prefixIndex
        requireWellFormed noDoubleEncoding
  | Document childNodes =>
      _serializeDocumentNS _serializeNodeNS childNodes namespace prefixMap
        prefixIndex requireWellFormed noDoubleEncoding
  | Comment data => _serializeComment data requireWellFormed noDoubleEncoding
  | Text data => _serializeText data requireWellFormed noDoubleEncoding
  | DocumentFragment childNodes =>
      _serializeDocumentFragmentNS _serializeNodeNS childNodes namespace
        prefixMap prefixIndex requireWellFormed noDoubleEncoding
  | DocumentType name publicId systemId =>
      _serializeDocumentType name publicId systemId
        requireWellFormed noDoubleEncoding
  | ProcessingInstruction target data =>
      _serializeProcessingInstruction target data
        requireWellFormed noDoubleEncoding
  | CDATASection data => _serializeCData data requireWellFormed noDoubleEncoding
  | OtherNode _ => throw (Error (unknownNodeType node))
  end.

(** [_serializeElement(node, requireWellFormed, noDoubleEncoding)]; the first
    argument stands for the method [_serializeNode]. *)
Definition _serializeElement
  (_serializeNode : Node -> bool -> bool -> M unit)
  (localName : jsstring) (attrs : list Attr) (childNodes : list Node)
  (requireWellFormed noDoubleEncoding : bool) : M unit :=
  throw_if (requireWellFormed
            && (negb (indexOf localName (lit ":") =? -1)
                || negb (xml_isName localName)))
    "Node local name contains invalid characters (well-formed required)." ;;
  let qualifiedName := localName in
  beginElement qualifiedName ;;
  openTagBegin qualifiedName ;;
  attributes_ <- _serializeAttributes attrs requireWellFormed noDoubleEncoding ;;
  attributes attributes_ ;;
  if Nat.eqb (length childNodes) 0 then
    openTagEnd qualifiedName true false ;;
    endElement qualifiedName
  else
    openTagEnd qualifiedName false false ;;
    forEach (fun childNode =>
               modify (with_level Z.succ) ;;
               _serializeNode childNode requireWellFormed noDoubleEncoding ;;
               modify (with_level Z.pred))
      childNodes ;;
    closeTag qualifiedName ;;
    endElement qualifiedName.

(** [_serializeDocument(node, requireWellFormed, noDoubleEncoding)] *)
Definition _serializeDocument
  (_serializeNode : Node -> bool -> bool -> M unit)
  (childNodes : list Node) (requireWellFormed noDoubleEncoding : bool)
  : M unit :=
  throw_if (requireWellFormed
            && bool_decide (documentElement childNodes = None))
    "Missing document element (well-formed required)." ;;
  forEach (fun childNode =>
             _serializeNode childNode requireWellFormed noDoubleEncoding)
    childNodes.

(** [_serializeDocumentFragment(node, requireWellFormed, noDoubleEncoding)] *)
Definition _serializeDocumentFragment
  (_serializeNode : Node -> bool -> bool -> M unit)
  (childNodes : list Node) (requireWellFormed noDoubleEncoding : bool)
  : M unit :=
  forEach (fun childNode =>
             _serializeNode childNode requireWellFormed noDoubleEncoding)
    childNodes.

(** [_serializeNode(node, requireWellFormed, noDoubleEncoding)] *)
Fixpoint _serializeNode (node : Node)
  (requireWellFormed noDoubleEncoding : bool) {struct node} : M unit :=
  modify (with_currentNode node) ;;
  match node with
  | Element localName _ _ attrs childNodes =>
      _serializeElement _serializeNode localName attrs childNodes
        requireWellFormed noDoubleEncoding
  | Document childNodes =>
      _serializeDocument _serializeNode childNodes
        requireWellFormed noDoubleEncoding
  | Comment data => _serializeComment data requireWellFormed noDoubleEncoding
  | Text data => _serializeText data requireWellFormed noDoubleEncoding
  | DocumentFragment childNodes =>
      _serializeDocumentFragment _serializeNode childNodes
        requireWellFormed noDoubleEncoding
  | DocumentType name publicId systemId =>
      _serializeDocumentType name publicId systemId
        requireWellFormed noDoubleEncoding
  | ProcessingInstruction target data =>
      _serializeProcessingInstruction target data
        requireWellFormed noDoubleEncoding
  | CDATASection data => _serializeCData data requireWellFormed noDoubleEncoding
  | OtherNode _ => throw (Error (unknownNodeType node))
  end.

(** [serializeNode(node, requireWellFormed, noDoubleEncoding)].  The tree
    carries no pointer to its document, so the flag [_hasNamespaces] of the
    owner document, which the method reads first, is an argument. *)
Definition serializeNode (hasNamespaces : bool) (node : Node)
  (requireWellFormed noDoubleEncoding : bool) : M unit :=
  modify (with_level (fun _ => 0)) ;;
  modify (with_currentNode node) ;;
  if hasNamespaces then
    let namespace : option jsstring := None in
    prefixMap <- NamespacePrefixMap_new ;;
    NamespacePrefixMap_set prefixMap (lit "xml") (Some infraNamespace.XML) ;;
    prefixIndex <- PrefixIndex_new 1 ;;
    try_catch
      (_serializeNodeNS node namespace prefixMap prefixIndex
         requireWellFormed noDoubleEncoding)
      (fun e => throw (InvalidStateError (message e)))
  else
    try_catch
      (_serializeNode node requireWellFormed noDoubleEncoding)
      (fun e => throw (InvalidStateError (message e))).

End BaseWriter.

(** ** [Document.createProcessingInstruction] of the DOM layer *)

Module Dom.

Inductive DOMError := InvalidCharacterError.

(** The node built by [new ProcessingInstruction(this, target, data)]. *)
Record ProcessingInstructionNode := mkProcessingInstruction {
  pi_target : jsstring;
  pi_data : jsstring
}.

(** [createProcessingInstruction(target, data)]: [inl] is a thrown error. *)
Definition createProcessingInstruction `{XmlGrammar} (target data : jsstring)
  : DOMError + ProcessingInstructionNode :=
  if negb (XMLSpec10_Name_matches target) then inl InvalidCharacterError
  else if negb (includes data (lit "?>")) then inl InvalidCharacterError
  else inr (mkProcessingInstruction target data).

End Dom.

(** ** A reference grammar *)

Module XML10.

Definition inRange (lo hi c : N) : bool := ((lo <=? c) && (c <=? hi))%N.

Definition isHighSurrogate (c : N) : bool := inRange 55296 56319 c.
Definition isLowSurrogate (c : N) : bool := inRange 56320 57343 c.

(** Modelled from the spec: the production [Char] of XML 1.0 (the legal XML
    character ranges), read on UTF-16 code units: a code point above
    [#xFFFF] is a high surrogate followed by a low one. *)
Fixpoint isLegalChar (s : jsstring) : bool :=
  match s with
  | [] => true
  | c :: s' =>
      if N.eqb c 9 || N.eqb c 10 || N.eqb c 13 || inRange 32 55295 c
         || inRange 57344 65533 c
      then isLegalChar s'
      else if isHighSurrogate c then
        match s' with
        | d :: s'' => isLowSurrogate d && isLegalChar s''
        | [] => false
        end
      else false
  end.

(** Modelled from the spec: the production [NameStartChar] of XML 1.0 on the
    basic multilingual plane. *)
Definition isNameStartChar (c : N) : bool :=
  N.eqb c 58 || inRange 65 90 c || N.eqb c 95 || inRange 97 122 c
  || inRange 192 214 c || inRange 216 246 c || inRange 248 767 c
  || inRange 880 893 c || inRange 895 8191 c || inRange 8204 8205 c
  || inRange 8304 8591 c || inRange 11264 12271 c || inRange 12289 55295 c
  || inRange 63744 64975 c || inRange 65008 65533 c.

(** Modelled from the spec: the production [NameChar] of XML 1.0 on the
    basic multilingual plane. *)
Definition isNameChar (c : N) : bool :=
  isNameStartChar c || N.eqb c 45 || N.eqb c 46 || inRange 48 57 c
  || N.eqb c 183 || inRange 768 879 c || inRange 8255 8256 c.

(** A surrogate pair encodes a code point of [#x10000-#xEFFFF], which is a
    name character, when the high surrogate is at most [#xDB7F]. *)
Fixpoint isNameChars (s : jsstring) : bool :=
  match s with
  | [] => true
  | c :: s' =>
      if isNameChar c then isNameChars s'
      else if inRange 55296 56191 c then
        match s' with
        | d :: s'' => isLowSurrogate d && isNameChars s''
        | [] => false
        end
      else false
  end.

(** Modelled from the spec: the production [Name] of XML 1.0. *)
Definition isName (s : jsstring) : bool :=
  match s with
  | [] => false
  | c :: s' =>
      if isNameStartChar c then isNameChars s'
      else if inRange 55296 56191 c then
        match s' with
        | d :: s'' => isLowSurrogate d && isNameChars s''
        | [] => false
        end
      else false
  end.

(** Modelled from the spec: the production [PubidChar] of XML 1.0, for every
    character of the string. *)
Definition isPubidChar (s : jsstring) : bool :=
  forallb (fun c =>
    N.eqb c 32 || N.eqb c 13 || N.eqb c 10 || inRange 97 122 c
    || inRange 65 90 c || inRange 48 57 c
    || bool_decide (c ∈ lit "-'()+,./:=?;!*#@$_%")) s.

Definition grammar : XmlGrammar :=
  {| xml_isName := isName; xml_isLegalChar := isLegalChar;
     xml_isPubidChar := isPubidChar; XMLSpec10_Name_matches := isName |}.

End XML10.

(** ** [Document.createElementNS] of the DOM layer *)

Module DomDocument.

(** The values of [DOMError] that [createElementNS] throws. *)
Inductive DOMError := InvalidCharacterError | NamespaceError.

(** What [createElementNS] reads, besides [XMLSpec10.Name], from the modules
    [XMLSpec10] and [Namespace] of the DOM layer: whether a string matches
    the regular expression [QName], and the two reserved namespace URIs. *)
Class DomLayer := {
  (** [s.match(XMLSpec10.QName)] is not [null] *)
  XMLSpec10_QName_matches : jsstring -> bool;
  Namespace_XML : jsstring;
  Namespace_XMLNS : jsstring
}.

(** The arguments of [new Element(this, namespace, prefix, localName)]. *)
Record ElementNode := mkElement {
  e_namespace : option jsstring;
  e_prefix : jsstring;
  e_localName : jsstring
}.

Definition COLON : N := 58.

(** [s.split(':')] *)
Fixpoint split (s : jsstring) : list jsstring :=
  match s with
  | [] => [[]]
  | c :: s' =>
      if N.eqb c COLON then [] :: split s'
      else match split s' with
           | part :: parts => (c :: part) :: parts
           | [] => [[c]]
           end
  end.

(** The truth value of [x] for [x : string | null]. *)
Definition truthy (x : option jsstring) : bool :=
  match x with
  | Some (_ :: _) => true
  | _ => false
  end.

(** [createElementNS(namespace, qualifiedName)]: [inl] is a thrown error. *)
Definition createElementNS `{XmlGrammar} `{DomLayer}
  (namespace : option jsstring) (qualifiedName : jsstring)
  : DOMError + ElementNode :=
  if negb (XMLSpec10_Name_matches qualifiedName) then inl InvalidCharacterError
  else if negb (XMLSpec10_QName_matches qualifiedName) then inl NamespaceError
  else
    let parts := split qualifiedName in
    let prefix :=
      if Nat.eqb (length parts) 2 then parts !! 0%nat else None in
    let localName :=
      if Nat.eqb (length parts) 2 then default [] (parts !! 1%nat)
      else qualifiedName in
    if truthy prefix && negb (truthy namespace) then inl NamespaceError
    else if bool_decide (prefix = Some (lit "xml"))
            && negb (bool_decide (namespace = Some Namespace_XML))
    then inl NamespaceError
    else if bool_decide (namespace = Some Namespace_XMLNS)
            && (negb (bool_decide (prefix = Some (lit "xmlns")))
                || negb (bool_decide (qualifiedName = lit "xmlns")))
    then inl NamespaceError
    else inr (mkElement namespace
                (if truthy prefix then default [] prefix else [])
                localName).

(** Modelled from the spec: the production [QName] of the XML grammar, a
    [Name] without colon or two of them joined by one colon; with the two
    reserved namespace URIs it is the reference instance of the
    interface. *)
Definition isQName (s : jsstring) : bool :=
  match split s with
  | [name] => XML10.isName name
  | [pre; name] => XML10.isName pre && XML10.isName name
  | _ => false
  end.

Definition reference : DomLayer :=
  {| XMLSpec10_QName_matches := isQName;
     Namespace_XML := infraNamespace.XML;
     Namespace_XMLNS := infraNamespace.XMLNS |}.

End DomDocument.


(** * Properties *)

(** ** Strings *)

Lemma startsWith_spec (s p : jsstring) :
  startsWith s p = true <-> exists t, s = p ++ t.
Proof.
  revert s. induction p as [|x p IH]; intros s; simpl.
  - split; [intros _; by exists s | done].
  - destruct s as [|c s].
    + split; [done | intros [t Ht]; discriminate].
    + rewrite andb_true_iff, N.eqb_eq, IH. split.
      * intros [-> [t ->]]. by exists t.
      * intros [t Ht]. injection Ht as -> ->. split; [done | by exists t].
Qed.

Lemma indexOf_from_ge (s needle : jsstring) (i : Z) :
  0 <= i -> indexOf_from s needle i = -1 \/ i <= indexOf_from s needle i.
Proof.
  revert i. induction s as [|c s IH]; intros i Hi; simpl.
  - destruct (startsWith [] needle); [right; lia | by left].
  - destruct (startsWith (c :: s) needle); [right; lia |].
    destruct (IH (i + 1)) as [->|]; [lia | by left | right; lia].
Qed.

Lemma indexOf_from_found (s needle : jsstring) (i : Z) :
  0 <= i ->
  indexOf_from s needle i <> -1 <-> exists a b, s = a ++ needle ++ b.
Proof.
  revert i. induction s as [|c s IH]; intros i Hi; simpl.
  - destruct (startsWith [] needle) eqn:E.
    + apply startsWith_spec in E as [t Ht].
      split; [intros _; by exists [], t | lia].
    + split; [done |]. intros (a & b & Hab).
      destruct a; [|discriminate]. simpl in Hab.
      assert (startsWith [] needle = true) as E'
        by (apply startsWith_spec; by exists b).
      congruence.
  - destruct (startsWith (c :: s) needle) eqn:E.
    + apply startsWith_spec in E as [t Ht].
      split; [intros _; by exists [], t | lia].
    + rewrite (IH (i + 1)) by lia. split.
      * intros (a & b & ->). by exists (c :: a), b.
      * intros (a & b & Hab). destruct a as [|x a].
        -- simpl in Hab.
           assert (startsWith (c :: s) needle = true) as E'
             by (apply startsWith_spec; by exists b).
           congruence.
        -- injection Hab as -> ->. by exists a, b.
Qed.

(** [indexOf] finds the needle exactly when the string contains it. *)
Lemma indexOf_found (s needle : jsstring) :
  (indexOf s needle =? -1) = false <-> exists a b, s = a ++ needle ++ b.
Proof.
  unfold indexOf. rewrite Z.eqb_neq. by apply indexOf_from_found.
Qed.

Lemma includes_spec (s needle : jsstring) :
  includes s needle = true <-> exists a b, s = a ++ needle ++ b.
Proof.
  unfold includes. rewrite negb_true_iff. apply indexOf_found.
Qed.

Lemma endsWith_spec (s x : jsstring) :
  endsWith s x = true <-> exists a, s = a ++ x.
Proof.
  unfold endsWith. rewrite startsWith_spec. split.
  - intros [t Ht]. exists (rev t).
    apply (f_equal (@rev N)) in Ht.
    by rewrite rev_involutive, rev_app_distr, rev_involutive in Ht.
  - intros [a ->]. exists (rev a). by rewrite rev_app_distr.
Qed.

Lemma lit_inj (a b : string) : lit a = lit b -> a = b.
Proof.
  unfold lit. intros Hab.
  rewrite <- (string_of_list_ascii_of_string a).
  rewrite <- (string_of_list_ascii_of_string b). f_equal.
  revert Hab. generalize (list_ascii_of_string a) (list_ascii_of_string b).
  intros l. induction l as [|x l IH]; intros [|y l'] Hl; simpl in *;
    try done.
  injection Hl as Hxy Hl. f_equal; [|by apply IH].
  rewrite <- (ascii_N_embedding x), <- (ascii_N_embedding y). by f_equal.
Qed.

(** The decimal rendering of the prefix index determines it. *)
Lemma number_toString_inj (m n : N) :
  number_toString m = number_toString n -> m = n.
Proof.
  unfold number_toString. intros Hmn. apply lit_inj in Hmn.
  assert (Some (N.to_uint m) = Some (N.to_uint n)) as Hu.
  { rewrite <- !NilEmpty.usu. by f_equal. }
  injection Hu as Hu.
  rewrite <- (DecimalN.Unsigned.of_to m), <- (DecimalN.Unsigned.of_to n).
  by f_equal.
Qed.

(** ** Induction on trees *)

Lemma Node_ind_children (P : Node -> Prop) :
  (forall localName prefix namespaceURI attrs childNodes,
      Forall P childNodes ->
      P (Element localName prefix namespaceURI attrs childNodes)) ->
  (forall childNodes, Forall P childNodes -> P (Document childNodes)) ->
  (forall childNodes, Forall P childNodes -> P (DocumentFragment childNodes)) ->
  (forall name publicId systemId, P (DocumentType name publicId systemId)) ->
  (forall data, P (Text data)) ->
  (forall data, P (Comment data)) ->
  (forall data, P (CDATASection data)) ->
  (forall target data, P (ProcessingInstruction target data)) ->
  (forall kind, P (OtherNode kind)) ->
  forall node, P node.
Proof.
  intros HE HD HF HT Htx Hc Hcd Hpi Ho.
  fix IH 1. intros [ln p ns attrs cs|cs|cs| | | | | |].
  - apply HE. induction cs as [|c cs IHcs]; constructor; [apply IH | apply IHcs].
  - apply HD. induction cs as [|c cs IHcs]; constructor; [apply IH | apply IHcs].
  - apply HF. induction cs as [|c cs IHcs]; constructor; [apply IH | apply IHcs].
  - apply HT.
  - apply Htx.
  - apply Hc.
  - apply Hcd.
  - apply Hpi.
  - apply Ho.
Qed.

(** ** Relational invariants of computations

    [keeps P R m Q]: started in a state that satisfies [P], the computation
    [m] ends, normally or by an exception, in a state related to the initial
    one by [R]; a normal result satisfies [Q]. *)

Class Invariant (P : State -> Prop) (R : State -> State -> Prop) : Prop := {
  inv_refl : forall s, P s -> R s s;
  inv_trans : forall s1 s2 s3, P s1 -> R s1 s2 -> R s2 s3 -> R s1 s3;
  inv_pre : forall s s', P s -> R s s' -> P s'
}.

Definition keeps (P : State -> Prop) (R : State -> State -> Prop) {A}
  (m : M A) (Q : A -> Prop) : Prop :=
  forall s, P s -> R s (m s).2 /\ forall a, (m s).1 = Normal a -> Q a.

Section Keeps.
Context {P : State -> Prop} {R : State -> State -> Prop} `{!Invariant P R}.

Lemma keeps_ret {A} (a : A) (Q : A -> Prop) : Q a -> keeps P R (ret a) Q.
Proof.
  intros Ha s Hs. split; [by apply inv_refl |]. simpl. by intros ? [= <-].
Qed.

Lemma keeps_throw {A} (e : Exn) (Q : A -> Prop) : keeps P R (throw e) Q.
Proof. intros s Hs. split; [by apply inv_refl | done]. Qed.

Lemma keeps_throw_if (c : bool) (msg : string) (Q : unit -> Prop) :
  Q tt -> keeps P R (throw_if c msg) Q.
Proof.
  intros. unfold throw_if. destruct c; [apply keeps_throw | by apply keeps_ret].
Qed.

Lemma keeps_bind {A B} (m : M A) (k : A -> M B) (Q1 : A -> Prop)
  (Q2 : B -> Prop) :
  keeps P R m Q1 -> (forall a, Q1 a -> keeps P R (k a) Q2) ->
  keeps P R (bind m k) Q2.
Proof.
  intros Hm Hk s Hs. destruct (Hm s Hs) as [HR HQ]. unfold bind.
  destruct (m s) as [[a|e] s1]; simpl in *; [|done].
  destruct (Hk a (HQ a eq_refl) s1 (inv_pre _ _ Hs HR)) as [HR' HQ'].
  split; [by eapply inv_trans | done].
Qed.

Lemma keeps_weaken {A} (m : M A) (Q Q' : A -> Prop) :
  keeps P R m Q -> (forall a, Q a -> Q' a) -> keeps P R m Q'.
Proof. intros Hm HQ s Hs. destruct (Hm s Hs). naive_solver. Qed.

Lemma keeps_gets {A} (f : State -> A) : keeps P R (gets f) (fun _ => True).
Proof. intros s Hs. split; [by apply inv_refl | done]. Qed.

Lemma keeps_modify (f : State -> State) :
  (forall s, P s -> R s (f s)) -> keeps P R (modify f) (fun _ => True).
Proof. intros Hf s Hs. split; [by apply Hf | done]. Qed.

Lemma keeps_try_catch {A} (m : M A) (h : Exn -> M A) (Q : A -> Prop) :
  keeps P R m Q -> (forall e, keeps P R (h e) Q) ->
  keeps P R (try_catch m h) Q.
Proof.
  intros Hm Hh s Hs. destruct (Hm s Hs) as [HR HQ]. unfold try_catch.
  destruct (m s) as [[a|e] s1]; simpl in *; [done |].
  destruct (Hh e s1 (inv_pre _ _ Hs HR)) as [HR' HQ'].
  split; [by eapply inv_trans | done].
Qed.

Lemma keeps_forEach {A} (f : A -> M unit) (l : list A) :
  Forall (fun x => keeps P R (f x) (fun _ => True)) l ->
  keeps P R (forEach f l) (fun _ => True).
Proof.
  induction 1 as [|x l Hx Hl IH]; simpl; [by apply keeps_ret |].
  eapply keeps_bind; [exact Hx | intros _ _; exact IH].
Qed.

Lemma keeps_forEachAcc {A B} (f : A -> B -> M B) (l : list A) (acc : B) :
  (forall x acc, keeps P R (f x acc) (fun _ => True)) ->
  keeps P R (forEachAcc f l acc) (fun _ => True).
Proof.
  intros Hf. revert acc.
  induction l as [|x l IH]; intros acc; simpl; [by apply keeps_ret |].
  eapply keeps_bind; [apply Hf | intros acc' _; apply IH].
Qed.

End Keeps.

(** One step of a proof of [keeps] along the structure of the computation;
    [leaf] closes the primitive operations. *)
Ltac keeps_step leaf :=
  lazymatch goal with
  | |- keeps _ _ (bind _ _) _ => eapply keeps_bind; [ | intros ? ? ]
  | |- keeps _ _ (ret _) _ =>
      first [ apply (keeps_ret _ (fun _ => True) I) | by apply keeps_ret ]
  | |- keeps _ _ (throw _) _ => apply keeps_throw
  | |- keeps _ _ (throw_if _ _) _ =>
      first [ apply (keeps_throw_if _ _ (fun _ => True) I)
            | by apply keeps_throw_if ]
  | |- keeps _ _ (gets _) _ => apply keeps_gets
  | |- keeps _ _ (forEachAcc _ _ _) _ => apply keeps_forEachAcc; intros ? ?
  | |- keeps _ _ (if ?c then _ else _) _ => destruct c
  | |- keeps _ _ (match ?x with _ => _ end) _ => destruct x
  | |- _ => leaf
  end.

Ltac keeps_auto leaf := repeat (keeps_step leaf).

(** ** What the helpers leave untouched: the sink *)

Definition sameEvents (s s' : State) : Prop := events s' = events s.

#[local] Instance sameEvents_invariant : Invariant (fun _ => True) sameEvents.
Proof. split; unfold sameEvents; intros; [done | congruence | done]. Qed.

(** A computation that calls no callback of the sink. *)
Abbreviation silent m := (keeps (fun _ => True) sameEvents m (fun _ => True)).

Create HintDb silent_db.

Ltac silent_leaf :=
  first [ apply keeps_modify; intros; reflexivity
        | solve [eauto with silent_db]
        | (intros ? _; split; [reflexivity | done]) ].

Section Silent.
Context `{XmlGrammar}.

Lemma NamespacePrefixMap_alloc_silent m : silent (NamespacePrefixMap_alloc m).
Proof. intros s _. split; [reflexivity | done]. Qed.

Lemma NamespacePrefixMap_copy_silent pm : silent (NamespacePrefixMap_copy pm).
Proof.
  unfold NamespacePrefixMap_copy.
  eapply keeps_bind; [apply keeps_gets | intros; apply NamespacePrefixMap_alloc_silent].
Qed.

Lemma NamespacePrefixMap_set_silent map p ns :
  silent (NamespacePrefixMap_set map p ns).
Proof. apply keeps_modify. intros; reflexivity. Qed.

Lemma NamespacePrefixMap_get_silent map p ns :
  silent (NamespacePrefixMap_get map p ns).
Proof. apply keeps_gets. Qed.

Lemma NamespacePrefixMap_has_silent map p ns :
  silent (NamespacePrefixMap_has map p ns).
Proof. apply keeps_gets. Qed.

Lemma NamespacePrefixMap_hasPrefix_silent map p :
  silent (NamespacePrefixMap_hasPrefix map p).
Proof. apply keeps_gets. Qed.

Hint Resolve NamespacePrefixMap_copy_silent NamespacePrefixMap_set_silent
  NamespacePrefixMap_get_silent NamespacePrefixMap_has_silent
  NamespacePrefixMap_hasPrefix_silent : silent_db.

Lemma _generatePrefix_silent ns map pi : silent (_generatePrefix ns map pi).
Proof. unfold _generatePrefix. cbv zeta. keeps_auto silent_leaf. Qed.

Lemma _serializeAttributeValue_silent v rwf nde :
  silent (_serializeAttributeValue v rwf nde).
Proof. unfold _serializeAttributeValue. cbv zeta. keeps_auto silent_leaf. Qed.

Hint Resolve _generatePrefix_silent _serializeAttributeValue_silent : silent_db.

Lemma _recordNamespaceInformation_silent attrs map lpm :
  silent (_recordNamespaceInformation attrs map lpm).
Proof.
  unfold _recordNamespaceInformation, _recordNamespaceInformation_attr.
  cbv zeta. keeps_auto silent_leaf.
Qed.

Lemma _serializeAttributesNS_silent attrs map pi lpm ign rwf nde :
  silent (_serializeAttributesNS attrs map pi lpm ign rwf nde).
Proof.
  unfold _serializeAttributesNS, _serializeAttributesNS_attr,
    _serializeAttributesNS_namespaced.
  cbv zeta. keeps_auto silent_leaf.
Qed.

Lemma _serializeAttributes_silent attrs rwf nde :
  silent (_serializeAttributes attrs rwf nde).
Proof.
  unfold _serializeAttributes, _serializeAttributes_attr.
  cbv zeta. keeps_auto silent_leaf.
Qed.

End Silent.

(** ** Running computations step by step *)

(** Case analysis on an innermost scrutinee of the goal. *)
Ltac case_inner :=
  match goal with
  | |- context [match ?x with _ => _ end] =>
      lazymatch x with
      | context [match _ with _ => _ end] => fail
      | _ => destruct x eqn:?
      end
  end.

Lemma bind_run {A B} (m : M A) (k : A -> M B) (s : State) :
  bind m k s =
  match m s with
  | (Normal a, s') => k a s'
  | (Throw e, s') => (Throw e, s')
  end.
Proof. reflexivity. Qed.

(** Runs the first computation of a sequence that is known to be silent. *)
Tactic Notation "run_silent" constr(lem) "as" ident(a) ident(s1) ident(Hev) :=
  rewrite bind_run;
  lazymatch type of lem with
  | keeps _ _ ?m _ =>
      lazymatch goal with
      | |- context [m ?s] =>
          let e := fresh "e" in
          destruct (lem s I) as [Hev _];
          destruct (m s) as [[a|e] s1]; unfold sameEvents in Hev;
          cbn [fst snd] in Hev |- *
      end
  end.

(** ** The open tag of an element *)

Section OpenTag.
Context `{XmlGrammar}.

(** The calls that start an element with qualified name [q]. *)
Definition openTag (q : jsstring) : list Event :=
  [E_beginElement q; E_openTagBegin q].

(** Steps 11 and 12 call [beginElement] and [openTagBegin] with the qualified
    name they return, and nothing else; when they throw, either nothing or
    this pair has been emitted. *)
Lemma _serializeElementNS_name_events ln p ns inh ldn lpm map pi rwf nde s :
  let r := _serializeElementNS_name ln p ns inh ldn lpm map pi rwf nde s in
  match r.1 with
  | Normal res => events r.2 = events s ++ openTag (r_qualifiedName res)
  | Throw _ =>
      events r.2 = events s \/ exists q, events r.2 = events s ++ openTag q
  end.
Proof.
  unfold _serializeElementNS_name, _generatePrefix, _serializeAttributeValue,
    NamespacePrefixMap_get, NamespacePrefixMap_set, beginElement,
    openTagBegin, emit, throw_if, bind, ret, gets, modify, throw, openTag.
  cbv zeta.
  repeat (case_inner; cbn);
    rewrite <- ?app_assoc;
    first [ reflexivity | left; reflexivity | right; eexists; reflexivity ].
Qed.

End OpenTag.

(** ** Elements without children (C9) *)

(** What the sink has received, beyond [before], from the serialization of
    an element that is closed in its open tag: on normal return the open
    tag, the attributes, the self-closing end of the open tag and
    [endElement], and no [closeTag]; when an exception escapes, nothing
    beyond the start of the open tag. *)
Definition selfClosed (before : list Event) (r : Outcome unit * State)
  : Prop :=
  match r.1 with
  | Normal _ =>
      exists q attrs,
        events r.2 =
        before ++ [E_beginElement q; E_openTagBegin q; E_attributes attrs;
                   E_openTagEnd q true false; E_endElement q]
  | Throw _ =>
      events r.2 = before \/
      exists q, events r.2 = before ++ [E_beginElement q; E_openTagBegin q]
  end.

Section SelfClosing.
Context `{XmlGrammar}.

Lemma _serializeElementNS_childless rec ln p ns attrs namespace pm pi rwf nde s :
  ns <> Some infraNamespace.HTML ->
  selfClosed (events s)
    (_serializeElementNS rec ln p ns attrs [] namespace pm pi rwf nde s).
Proof.
  intros Hns. unfold _serializeElementNS.
  rewrite bind_run. unfold throw_if.
  destruct (rwf && _) eqn:Hname; cbn [throw ret]; [by left |].
  run_silent (NamespacePrefixMap_copy_silent pm) as map s1 Hs1; [|by left].
  run_silent (_recordNamespaceInformation_silent attrs map ∅) as rec_ s2 Hs2;
    [|left; cbn; congruence].
  cbv zeta. rewrite bind_run.
  pose proof (_serializeElementNS_name_events ln p ns namespace rec_.1 rec_.2
                map pi rwf nde s2) as Hname'.
  cbv zeta in Hname'.
  destruct (_serializeElementNS_name _ _ _ _ _ _ _ _ _ _ s2)
    as [[res|e] s3]; cbn [fst snd] in Hname' |- *.
  2:{ unfold selfClosed; cbn [fst snd].
      destruct Hname' as [Hn|[q Hn]]; rewrite Hn, Hs2, Hs1;
        [by left | right; by exists q]. }
  run_silent (_serializeAttributesNS_silent attrs map pi rec_.2
                (r_ignoreNamespaceDefinitionAttribute res) rwf nde) as more s4 Hs4.
  2:{ right. exists (r_qualifiedName res). cbn.
      by rewrite Hs4, Hname', Hs2, Hs1. }
  rewrite bool_decide_eq_false_2 by done. cbn.
  exists (r_qualifiedName res), (r_attributes res ++ more). cbn.
  rewrite Hs4, Hname', Hs2, Hs1. unfold openTag.
  by rewrite <- !app_assoc.
Qed.

Lemma _serializeElement_childless rec ln attrs rwf nde s :
  selfClosed (events s) (_serializeElement rec ln attrs [] rwf nde s).
Proof.
  unfold _serializeElement.
  rewrite bind_run. unfold throw_if.
  destruct (rwf && _) eqn:Hname; cbn [throw ret]; [by left |].
  cbv zeta. unfold beginElement, openTagBegin, attributes, openTagEnd,
    endElement, emit, modify, bind. cbn [length Nat.eqb].
  destruct (_serializeAttributes_silent attrs rwf nde
              (with_event (E_openTagBegin ln) (with_event (E_beginElement ln) s)) I)
    as [Hev _].
  destruct (_serializeAttributes attrs rwf nde _) as [[more|e] s1];
    unfold sameEvents in Hev; cbn in Hev |- *.
  - exists ln, more. cbn. rewrite Hev. by rewrite <- !app_assoc.
  - right. exists ln. cbn. rewrite Hev. by rewrite <- !app_assoc.
Qed.


End SelfClosing.


(** ** Comments (C7) *)

Section Comments.
Context `{XmlGrammar}.

(** The comment data that cannot be written as a well-formed comment. *)
Definition commentRejected (data : jsstring) : Prop :=
  xml_isLegalChar data = false
  \/ (exists a b, data = a ++ lit "--" ++ b)
  \/ (exists a, data = a ++ lit "-").

Definition commentMessage : jsstring :=
  lit "Comment data contains invalid characters (well-formed required).".

Lemma commentRejected_check (data : jsstring) :
  negb (xml_isLegalChar data) || negb (indexOf data (lit "--") =? -1)
  || endsWith data (lit "-") = true
  <-> commentRejected data.
Proof.
  unfold commentRejected.
  rewrite !orb_true_iff, !negb_true_iff, indexOf_found, endsWith_spec.
  tauto.
Qed.

Lemma _serializeComment_run (data : jsstring) (rwf nde : bool) (s : State) :
  _serializeComment data rwf nde s =
  if rwf && (negb (xml_isLegalChar data)
             || negb (indexOf data (lit "--") =? -1)
             || endsWith data (lit "-"))
  then (Throw (Error commentMessage), s)
  else (Normal tt, with_event (E_comment data) s).
Proof.
  unfold _serializeComment, throw_if, bind. by destruct (rwf && _).
Qed.

Lemma serializeNode_Comment_run (hasNamespaces : bool) (data : jsstring)
  (rwf nde : bool) (s : State) :
  let r := serializeNode hasNamespaces (Comment data) rwf nde s in
  if rwf && (negb (xml_isLegalChar data)
             || negb (indexOf data (lit "--") =? -1)
             || endsWith data (lit "-"))
  then r.1 = Throw (InvalidStateError commentMessage) /\ events r.2 = events s
  else r.1 = Normal tt /\ events r.2 = events s ++ [E_comment data].
Proof.
  unfold serializeNode, try_catch, NamespacePrefixMap_new,
    NamespacePrefixMap_alloc, NamespacePrefixMap_set, PrefixIndex_new.
  destruct hasNamespaces; cbn [_serializeNodeNS _serializeNode];
    unfold bind, modify; cbn; rewrite _serializeComment_run;
    by destruct (rwf && _).
Qed.

(** C7.  Serializing a comment node throws exactly when [requireWellFormed]
    is set and the data has a character outside the legal ranges, contains
    two adjacent hyphens or ends with a hyphen; the exception is the
    invalid-state error and the sink receives nothing.  In every other case
    the sink receives one [comment] call with the data unchanged. *)
Theorem comment_rejected_iff_malformed
  (hasNamespaces : bool) (data : jsstring)
  (requireWellFormed noDoubleEncoding : bool) (s : State) :
  let r := serializeNode hasNamespaces (Comment data) requireWellFormed
             noDoubleEncoding s in
  ((exists e, r.1 = Throw e)
   <-> requireWellFormed = true /\ commentRejected data)
  /\ (requireWellFormed = true /\ commentRejected data ->
      r.1 = Throw (InvalidStateError commentMessage)
      /\ events r.2 = events s)
  /\ (~ (requireWellFormed = true /\ commentRejected data) ->
      r.1 = Normal tt /\ events r.2 = events s ++ [E_comment data]).
Proof.
  intros r.
  pose proof (serializeNode_Comment_run hasNamespaces data requireWellFormed
                noDoubleEncoding s) as Hrun.
  cbv zeta in Hrun. fold r in Hrun.
  pose proof (commentRejected_check data) as Hcheck.
  destruct requireWellFormed; cbn [andb] in Hrun.
  - destruct (negb _ || _ || _).
    + assert (commentRejected data) as Hrej by by apply Hcheck.
      destruct Hrun as [Hr He]. rewrite Hr. split_and!.
      * split; [done | intros _; by eexists].
      * done.
      * intros Hn. by destruct Hn.
    + assert (~ commentRejected data) as Hrej
        by (intros ?%Hcheck; discriminate).
      destruct Hrun as [Hr He]. rewrite Hr. split_and!; try tauto.
      split; [intros [e ?]; discriminate | tauto].
  - destruct Hrun as [Hr He]. rewrite Hr. split_and!.
    + split; [intros [e ?]; discriminate | intros [? _]; discriminate].
    + intros [? _]; discriminate.
    + done.
Qed.

End Comments.

Lemma comment_rejected_iff_malformed_witness :
  (true = true /\ commentRejected (H := XML10.grammar) (lit "a--b"))
  /\ (serializeNode (H := XML10.grammar) true (Comment (lit "a--b")) true
        false initialState).1
     = Throw (InvalidStateError commentMessage)
  /\ ~ (false = true /\ commentRejected (H := XML10.grammar) (lit "a--b"))
  /\ (serializeNode (H := XML10.grammar) true (Comment (lit "a--b")) false
        false initialState).1
     = Normal tt.
Proof.
  assert (commentRejected (H := XML10.grammar) (lit "a--b")) as Hrej.
  { right; left. by exists (lit "a"), (lit "b"). }
  split; [done |]. split.
  - apply (comment_rejected_iff_malformed (H := XML10.grammar) true
             (lit "a--b") true false initialState). done.
  - split; [intros [? _]; discriminate |].
    apply (comment_rejected_iff_malformed (H := XML10.grammar) true
             (lit "a--b") false false initialState).
    intros [? _]; discriminate.
Defined.

(** ** Creating processing instructions (C10) *)

Section CreateProcessingInstruction.
Context `{XmlGrammar}.

(** C10.  [createProcessingInstruction] throws [InvalidCharacterError] when
    the target does not match the [Name] production and also when the data
    does not contain [?>]; it returns the new node, holding the target and
    the data, only when the target matches and the data contains [?>]. *)
Theorem createProcessingInstruction_cases (target data : jsstring) :
  (Dom.createProcessingInstruction target data = inl Dom.InvalidCharacterError
   <-> XMLSpec10_Name_matches target = false
       \/ ~ (exists a b, data = a ++ lit "?>" ++ b))
  /\ (forall node,
        Dom.createProcessingInstruction target data = inr node
        <-> XMLSpec10_Name_matches target = true
            /\ (exists a b, data = a ++ lit "?>" ++ b)
            /\ node = Dom.mkProcessingInstruction target data).
Proof.
  unfold Dom.createProcessingInstruction.
  pose proof (includes_spec data (lit "?>")) as Hinc.
  destruct (XMLSpec10_Name_matches target); cbn [negb].
  - destruct (includes data (lit "?>")); cbn [negb].
    + assert (exists a b, data = a ++ lit "?>" ++ b) as Hex by by apply Hinc.
      split; [split; [done | intros [?|?]; done] |].
      intros node. split; [intros [= <-]; done | intros (_ & _ & ->); done].
    + assert (~ exists a b, data = a ++ lit "?>" ++ b) as Hex
        by (intros ?%Hinc; discriminate).
      split; [split; [by right | done] |].
      intros node. split; [done | intros (_ & ? & _); done].
  - split; [split; [by left | done] |].
    intros node. split; [done | intros (? & _); done].
Qed.

End CreateProcessingInstruction.

(** ** Unsupported node kinds (C6) *)

Definition isInvalidStateError (e : Exn) : bool :=
  match e with InvalidStateError _ => true | Error _ => false end.

Section Unsupported.
Context `{XmlGrammar}.

(** C6, as the code has it.  A node of a kind other than the eight supported
    ones makes both tree walkers throw [Unknown node type: N], whatever
    [requireWellFormed] is and before the sink receives anything;
    [serializeNode] catches that exception like any other and throws the
    invalid-state error with the same message. *)
Theorem unsupported_node_always_fails
  (hasNamespaces : bool) (kind : OtherKind) (namespace : option jsstring)
  (prefixMap prefixIndex : ref) (requireWellFormed noDoubleEncoding : bool)
  (s : State) :
  let node := OtherNode kind in
  let r := serializeNode hasNamespaces node requireWellFormed
             noDoubleEncoding s in
  r.1 = Throw (InvalidStateError (unknownNodeType node))
  /\ events r.2 = events s
  /\ (_serializeNodeNS node namespace prefixMap prefixIndex requireWellFormed
        noDoubleEncoding s).1
     = Throw (Error (unknownNodeType node))
  /\ (_serializeNode node requireWellFormed noDoubleEncoding s).1
     = Throw (Error (unknownNodeType node))
  /\ nodeType node ∉ [1; 3; 4; 7; 8; 9; 10; 11]%N.
Proof.
  cbv zeta. split_and!.
  - by destruct hasNamespaces.
  - by destruct hasNamespaces.
  - done.
  - done.
  - destruct kind; cbn [nodeType]; rewrite !not_elem_of_cons;
      split_and!; (discriminate || apply not_elem_of_nil).
Qed.

End Unsupported.

(** The exception that leaves [serializeNode] for an attribute node is the
    invalid-state error, the one that well-formedness violations raise, and
    not a signal of its own. *)
Lemma unsupported_node_signal_is_invalid_state :
  (serializeNode (H := XML10.grammar) false (OtherNode AttributeNode) false
     false initialState).1
  = Throw (InvalidStateError (lit "Unknown node type: 2"))
  /\ (serializeNode (H := XML10.grammar) false (Comment (lit "--")) true
        false initialState).1
     = Throw (InvalidStateError commentMessage)
  /\ forall e,
       (serializeNode (H := XML10.grammar) false (OtherNode AttributeNode)
          false false initialState).1 = Throw e ->
       isInvalidStateError e = true.
Proof.
  split_and!; [vm_compute; reflexivity | vm_compute; reflexivity |].
  intros e. vm_compute. by intros [= <-].
Qed.

(** ** Escaping without double encoding (C8) *)

Section Escaping.
Context `{XmlGrammar}.

(** C8, at the input where the code departs from it.  With
    [noDoubleEncoding] an attribute value keeps a greater-than sign as it
    is, whereas the default mode and the text of the same mode write
    [&gt;].  The other replacements of the mode are in place: an entity
    reference passes through, a bare ampersand, the less-than sign, the
    quotation mark, tab, line feed and carriage return are replaced. *)
Theorem noDoubleEncoding_attribute_keeps_gt (s : State) :
  _serializeAttributeValue (Some [GT]) false true s = (Normal [GT], s)
  /\ _serializeAttributeValue (Some [GT]) false false s
     = (Normal (lit "&gt;"), s)
  /\ (_serializeText [GT] false true s).2
     = with_event (E_text (lit "&gt;")) s
  /\ _serializeAttributeValue
       (Some (lit "&lt; & <" ++ [QUOT; TAB; LF; CR])) false true s
     = (Normal (lit "&lt; &amp; &lt;&quot;&#x9;&#xA;&#xD;"), s)
  /\ (_serializeText (lit "&amp; & " ++ [CR]) false true s).2
     = with_event (E_text (lit "&amp; &amp; &#xD;")) s.
Proof. split_and!; vm_compute; reflexivity. Qed.

End Escaping.

(** ** The fast path against the namespace-aware path (C3) *)

(** C3, at an input where the two paths differ.  The element [root] has one
    attribute, named [xmlns] and in no namespace.  With [requireWellFormed]
    the namespace-aware path rejects the attribute name; the fast path has
    no such check and serializes the element. *)
Theorem fast_path_accepts_xmlns_attribute :
  let root :=
    Element (lit "root") None None
      [mkAttr None None (lit "xmlns") (lit "v")] [] in
  let aware :=
    serializeNode (H := XML10.grammar) true root true false initialState in
  let fast :=
    serializeNode (H := XML10.grammar) false root true false initialState in
  aware.1
  = Throw (InvalidStateError
             (lit "Attribute local name contains invalid characters (well-formed required)."))
  /\ events aware.2
     = [E_beginElement (lit "root"); E_openTagBegin (lit "root")]
  /\ fast.1 = Normal tt
  /\ events fast.2
     = [E_beginElement (lit "root"); E_openTagBegin (lit "root");
        E_attributes [(None, None, lit "xmlns", lit "v")];
        E_openTagEnd (lit "root") true false; E_endElement (lit "root")].
Proof. split_and!; vm_compute; reflexivity. Qed.

(** A second difference, in the other direction: the fast path keeps the
    names it has seen as keys of a plain object and tests them with [in],
    which also finds the inherited properties, so the single attribute
    [constructor] counts as a duplicate there. *)
Lemma fast_path_rejects_constructor_attribute :
  let root :=
    Element (lit "root") None None
      [mkAttr None None (lit "constructor") (lit "v")] [] in
  (serializeNode (H := XML10.grammar) true root true false initialState).1
  = Normal tt
  /\ (serializeNode (H := XML10.grammar) false root true false initialState).1
     = Throw (InvalidStateError
                (lit "Element contains duplicate attributes (well-formed required).")).
Proof. split_and!; vm_compute; reflexivity. Qed.

(** ** Prefix maps are copied on descent (C2) *)

(** The first [n] prefix maps of the store are as they were, and no prefix
    map has been removed. *)
Definition sameMapsBelow (n : nat) (s s' : State) : Prop :=
  take n (prefixMaps s') = take n (prefixMaps s)
  /\ (length (prefixMaps s) <= length (prefixMaps s'))%nat.

Definition allocatedBelow (n : nat) (s : State) : Prop :=
  (n <= length (prefixMaps s))%nat.

#[local] Instance sameMapsBelow_invariant (n : nat) :
  Invariant (allocatedBelow n) (sameMapsBelow n).
Proof.
  split; unfold sameMapsBelow, allocatedBelow.
  - done.
  - intros s1 s2 s3 _ [H1 ?] [H2 ?]. split; [congruence | lia].
  - intros s s' ? [_ ?]. lia.
Qed.

(** A computation that leaves the prefix maps below [n] alone. *)
Abbreviation framed n m :=
  (keeps (allocatedBelow n) (sameMapsBelow n) m (fun _ => True)).

Create HintDb framed_db.

Ltac framed_leaf :=
  first [ apply keeps_modify; intros; split; reflexivity
        | solve [eauto with framed_db] ].

Section Framed.
Context `{XmlGrammar}.
Variable n : nat.

Lemma NamespacePrefixMap_copy_framed pm :
  keeps (allocatedBelow n) (sameMapsBelow n) (NamespacePrefixMap_copy pm)
    (fun map => (n <= map)%nat).
Proof.
  intros s Hs. unfold allocatedBelow in Hs. cbn. split; [|by intros ? [= <-]].
  split; cbn; [by rewrite take_app_le | rewrite length_app; lia].
Qed.

Lemma NamespacePrefixMap_set_framed map p ns :
  (n <= map)%nat -> framed n (NamespacePrefixMap_set map p ns).
Proof.
  intros Hmap. apply keeps_modify. intros s Hs. split; cbn.
  - by rewrite take_insert_ge.
  - by rewrite length_insert.
Qed.

Lemma NamespacePrefixMap_get_framed map p ns :
  framed n (NamespacePrefixMap_get map p ns).
Proof. apply keeps_gets. Qed.

Lemma NamespacePrefixMap_has_framed map p ns :
  framed n (NamespacePrefixMap_has map p ns).
Proof. apply keeps_gets. Qed.

Lemma NamespacePrefixMap_hasPrefix_framed map p :
  framed n (NamespacePrefixMap_hasPrefix map p).
Proof. apply keeps_gets. Qed.

Lemma emit_framed e : framed n (emit e).
Proof. apply keeps_modify. intros; split; reflexivity. Qed.

Hint Resolve NamespacePrefixMap_set_framed NamespacePrefixMap_get_framed
  NamespacePrefixMap_has_framed NamespacePrefixMap_hasPrefix_framed
  emit_framed : framed_db.

Lemma _generatePrefix_framed ns map pi :
  (n <= map)%nat -> framed n (_generatePrefix ns map pi).
Proof. intros. unfold _generatePrefix. cbv zeta. keeps_auto framed_leaf. Qed.

Lemma _serializeAttributeValue_framed v rwf nde :
  framed n (_serializeAttributeValue v rwf nde).
Proof. unfold _serializeAttributeValue. keeps_auto framed_leaf. Qed.

Hint Resolve _generatePrefix_framed _serializeAttributeValue_framed
  : framed_db.

Lemma _recordNamespaceInformation_framed attrs map lpm :
  (n <= map)%nat -> framed n (_recordNamespaceInformation attrs map lpm).
Proof.
  intros. unfold _recordNamespaceInformation, _recordNamespaceInformation_attr.
  cbv zeta. keeps_auto framed_leaf.
Qed.

Lemma _serializeElementNS_name_framed ln p ns inh ldn lpm map pi rwf nde :
  (n <= map)%nat ->
  framed n (_serializeElementNS_name ln p ns inh ldn lpm map pi rwf nde).
Proof.
  intros. unfold _serializeElementNS_name, beginElement, openTagBegin.
  cbv zeta. keeps_auto framed_leaf.
Qed.

Lemma _serializeAttributesNS_framed attrs map pi lpm ign rwf nde :
  (n <= map)%nat -> framed n (_serializeAttributesNS attrs map pi lpm ign rwf nde).
Proof.
  intros. unfold _serializeAttributesNS, _serializeAttributesNS_attr,
    _serializeAttributesNS_namespaced.
  cbv zeta. keeps_auto framed_leaf.
Qed.

Lemma leaf_nodes_framed data rwf nde name publicId systemId target :
  framed n (_serializeComment data rwf nde)
  /\ framed n (_serializeText data rwf nde)
  /\ framed n (_serializeCData data rwf nde)
  /\ framed n (_serializeDocumentType name publicId systemId rwf nde)
  /\ framed n (_serializeProcessingInstruction target data rwf nde).
Proof.
  unfold _serializeComment, _serializeText, _serializeCData,
    _serializeDocumentType, _serializeProcessingInstruction, comment, text,
    cdata, docType, instruction.
  cbv zeta. split_and!; keeps_auto framed_leaf.
Qed.

End Framed.

Section FramedWalk.
Context `{XmlGrammar}.

Hint Resolve NamespacePrefixMap_set_framed NamespacePrefixMap_get_framed
  NamespacePrefixMap_has_framed NamespacePrefixMap_hasPrefix_framed
  emit_framed _generatePrefix_framed _serializeAttributeValue_framed
  _recordNamespaceInformation_framed _serializeElementNS_name_framed
  _serializeAttributesNS_framed : framed_db.

(** The namespace-aware walker writes to no prefix map that existed when it
    was called: an element works on a copy, a document or a fragment hands
    its own map to its children, which copy it in turn. *)
Lemma _serializeNodeNS_framed (node : Node) :
  forall n namespace prefixMap prefixIndex rwf nde,
    framed n (_serializeNodeNS node namespace prefixMap prefixIndex rwf nde).
Proof.
  induction node as [ln p ns attrs cs IH|cs IH|cs IH| | | | | |]
    using Node_ind_children;
    intros n namespace pm pi rwf nde; cbn [_serializeNodeNS];
    (eapply keeps_bind;
     [apply keeps_modify; intros; split; reflexivity | intros _ _]).
  - unfold _serializeElementNS.
    eapply keeps_bind;
      [apply (keeps_throw_if _ _ (fun _ => True) I) | intros _ _].
    eapply keeps_bind; [apply NamespacePrefixMap_copy_framed | intros map Hmap].
    unfold attributes, openTagEnd, endElement, closeTag. cbv zeta.
    keeps_auto framed_leaf.
    apply keeps_forEach. eapply Forall_impl; [exact IH |].
    intros c Hc. cbn beta. keeps_auto framed_leaf.
  - unfold _serializeDocumentNS.
    eapply keeps_bind;
      [apply (keeps_throw_if _ _ (fun _ => True) I) | intros _ _].
    apply keeps_forEach. eapply Forall_impl; [exact IH |].
    intros c Hc. apply Hc.
  - unfold _serializeDocumentFragmentNS.
    apply keeps_forEach. eapply Forall_impl; [exact IH |].
    intros c Hc. apply Hc.
  - apply (leaf_nodes_framed n [] rwf nde name publicId systemId []).
  - apply (leaf_nodes_framed n data rwf nde [] [] [] []).
  - apply (leaf_nodes_framed n data rwf nde [] [] [] []).
  - apply (leaf_nodes_framed n data rwf nde [] [] [] []).
  - apply (leaf_nodes_framed n data rwf nde [] [] [] target).
  - apply keeps_throw.
Qed.

(** C2.  (1) Whatever the namespace-aware walker does for a node and its
    subtree, normally or up to an exception, every prefix map that existed
    when it was called has the same entries afterwards; the walker only
    allocates further maps.  (2) So a map that an ancestor or a following
    sibling holds reads the same after the call.  (3) [copy] returns a new
    object with the entries of the original, and a later [set] on either one
    leaves the entries of the other as they were. *)
Theorem prefix_map_changes_stay_in_the_subtree
  (node : Node) (namespace : option jsstring) (prefixMap prefixIndex : ref)
  (requireWellFormed noDoubleEncoding : bool) (s : State) :
  let s' := (_serializeNodeNS node namespace prefixMap prefixIndex
               requireWellFormed noDoubleEncoding s).2 in
  prefixMaps s `prefix_of` prefixMaps s'
  /\ (forall r : ref,
        (r < length (prefixMaps s))%nat -> prefixMapAt r s' = prefixMapAt r s)
  /\ ((prefixMap < length (prefixMaps s))%nat ->
      exists map s1,
        NamespacePrefixMap_copy prefixMap s = (Normal map, s1)
        /\ map <> prefixMap
        /\ prefixMapAt map s1 = prefixMapAt prefixMap s
        /\ prefixMapAt prefixMap s1 = prefixMapAt prefixMap s
        /\ (forall prefix ns,
              prefixMapAt prefixMap
                (NamespacePrefixMap_set map prefix ns s1).2
              = prefixMapAt prefixMap s)
        /\ (forall prefix ns,
              prefixMapAt map
                (NamespacePrefixMap_set prefixMap prefix ns s1).2
              = prefixMapAt prefixMap s)).
Proof.
  intros s'.
  destruct (_serializeNodeNS_framed node (length (prefixMaps s)) namespace
              prefixMap prefixIndex requireWellFormed noDoubleEncoding s)
    as [[Htake Hlen] _]; [unfold allocatedBelow; lia |].
  fold s' in Htake, Hlen. rewrite firstn_all in Htake.
  assert (prefixMaps s' = prefixMaps s ++ drop (length (prefixMaps s)) (prefixMaps s'))
    as Hsplit by (by rewrite <- Htake at 1; rewrite take_drop).
  split_and!.
  - eexists. exact Hsplit.
  - intros r Hr. unfold prefixMapAt. rewrite Hsplit.
    by rewrite lookup_app_l.
  - intros Hpm. eexists _, _. split; [reflexivity |].
    unfold prefixMapAt. cbn. split_and!.
    + lia.
    + rewrite lookup_app_r by lia. by rewrite Nat.sub_diag.
    + by rewrite lookup_app_l.
    + intros prefix ns. rewrite list_lookup_insert_ne by lia.
      by rewrite lookup_app_l.
    + intros prefix ns. rewrite list_lookup_insert_ne by lia.
      rewrite lookup_app_r by lia. by rewrite Nat.sub_diag.
Qed.

End FramedWalk.

Lemma prefix_map_changes_stay_in_the_subtree_witness :
  let s := (NamespacePrefixMap_new initialState).2 in
  (0 < length (prefixMaps s))%nat
  /\ prefixMapAt 0%nat
       (_serializeNodeNS (H := XML10.grammar)
          (Element (lit "a") (Some (lit "p")) (Some (lit "urn:x")) [] [])
          None 0%nat 0%nat true false s).2
     = prefixMapAt 0%nat s.
Proof.
  intros s. split; [cbn; lia |].
  apply (prefix_map_changes_stay_in_the_subtree (H := XML10.grammar)
           (Element (lit "a") (Some (lit "p")) (Some (lit "urn:x")) [] [])
           None 0%nat 0%nat true false s).
  cbn; lia.
Defined.

(** ** Generated prefixes (C1) *)

(** The calls [new] of [_generatePrefix] found the prefix index at [v],
    [v + 1], ... in this order, and each returned ["ns"] followed by the
    index it found. *)
Definition countsFrom (v : N) (new : list Generated) : Prop :=
  forall i g,
    new !! i = Some g ->
    gen_index g = (v + N.of_nat i)%N
    /\ gen_prefix g = lit "ns" ++ number_toString (gen_index g).

(** From [s] to [s'] no prefix index object was allocated, and the one at
    [pi] advanced by one for each call of [_generatePrefix] that the history
    gained. *)
Definition generatedFrom (pi : ref) (s s' : State) : Prop :=
  length (prefixIndexes s') = length (prefixIndexes s)
  /\ exists new,
       generated s' = generated s ++ new
       /\ countsFrom (prefixIndexAt pi s) new
       /\ prefixIndexAt pi s'
          = (prefixIndexAt pi s + N.of_nat (length new))%N.

Definition validIndex (pi : ref) (s : State) : Prop :=
  (pi < length (prefixIndexes s))%nat.

Lemma generatedFrom_same (pi : ref) (s s' : State) :
  prefixIndexes s' = prefixIndexes s -> generated s' = generated s ->
  generatedFrom pi s s'.
Proof.
  intros Hi Hg. split; [by rewrite Hi |]. exists []. split_and!.
  - by rewrite app_nil_r.
  - intros i g Hg'. by rewrite lookup_nil in Hg'.
  - unfold prefixIndexAt. rewrite Hi. cbn. by rewrite N.add_0_r.
Qed.

Lemma countsFrom_app (v : N) (new1 new2 : list Generated) :
  countsFrom v new1 -> countsFrom (v + N.of_nat (length new1)) new2 ->
  countsFrom v (new1 ++ new2).
Proof.
  intros H1 H2 i g Hi.
  destruct (decide (i < length new1)%nat) as [Hlt|Hge].
  - rewrite lookup_app_l in Hi by done. by apply H1.
  - rewrite lookup_app_r in Hi by lia.
    destruct (H2 _ _ Hi) as [Hidx Hp]. split; [|done].
    rewrite Hidx. lia.
Qed.

#[local] Instance generatedFrom_invariant (pi : ref) :
  Invariant (validIndex pi) (generatedFrom pi).
Proof.
  split.
  - intros s _. by apply generatedFrom_same.
  - intros s1 s2 s3 _ [Hl1 (n1 & Hg1 & Hc1 & Hi1)] [Hl2 (n2 & Hg2 & Hc2 & Hi2)].
    split; [congruence |]. exists (n1 ++ n2). split_and!.
    + by rewrite Hg2, Hg1, app_assoc.
    + apply countsFrom_app; [done | by rewrite <- Hi1].
    + rewrite Hi2, Hi1, length_app. lia.
  - intros s s' Hs [Hl _]. unfold validIndex in *. lia.
Qed.

(** A computation that generates prefixes only through the index [pi]. *)
Abbreviation counted pi m :=
  (keeps (validIndex pi) (generatedFrom pi) m (fun _ => True)).

Create HintDb counted_db.

Ltac counted_leaf :=
  first [ apply keeps_modify; intros; apply generatedFrom_same; reflexivity
        | solve [eauto with counted_db] ].

Section Counted.
Context `{XmlGrammar}.
Variable pi : ref.

Lemma NamespacePrefixMap_copy_counted pm :
  counted pi (NamespacePrefixMap_copy pm).
Proof.
  intros s Hs. split; [|done]. by apply generatedFrom_same.
Qed.

Lemma NamespacePrefixMap_set_counted map p ns :
  counted pi (NamespacePrefixMap_set map p ns).
Proof. apply keeps_modify. intros. by apply generatedFrom_same. Qed.

Lemma NamespacePrefixMap_get_counted map p ns :
  counted pi (NamespacePrefixMap_get map p ns).
Proof. apply keeps_gets. Qed.

Lemma NamespacePrefixMap_has_counted map p ns :
  counted pi (NamespacePrefixMap_has map p ns).
Proof. apply keeps_gets. Qed.

Lemma NamespacePrefixMap_hasPrefix_counted map p :
  counted pi (NamespacePrefixMap_hasPrefix map p).
Proof. apply keeps_gets. Qed.

Lemma emit_counted e : counted pi (emit e).
Proof. apply keeps_modify. intros. by apply generatedFrom_same. Qed.

(** The one place where the index moves. *)
Lemma _generatePrefix_counted ns map : counted pi (_generatePrefix ns map pi).
Proof.
  intros s Hs. split; [|done]. unfold validIndex in Hs. cbn.
  split; [cbn; by rewrite length_insert |].
  exists [mkGenerated (prefixIndexAt pi s)
            (lit "ns" ++ number_toString (prefixIndexAt pi s)) ns].
  split_and!.
  - reflexivity.
  - intros [|i] g Hg; [|cbn in Hg; discriminate].
    injection Hg as <-. cbn. by rewrite N.add_0_r.
  - unfold prefixIndexAt at 1. cbn.
    rewrite list_lookup_insert_eq by done. cbn. lia.
Qed.

Lemma _serializeAttributeValue_counted v rwf nde :
  counted pi (_serializeAttributeValue v rwf nde).
Proof. unfold _serializeAttributeValue. keeps_auto counted_leaf. Qed.

Hint Resolve NamespacePrefixMap_copy_counted NamespacePrefixMap_set_counted
  NamespacePrefixMap_get_counted NamespacePrefixMap_has_counted
  NamespacePrefixMap_hasPrefix_counted emit_counted _generatePrefix_counted
  _serializeAttributeValue_counted : counted_db.

Lemma _recordNamespaceInformation_counted attrs map lpm :
  counted pi (_recordNamespaceInformation attrs map lpm).
Proof.
  unfold _recordNamespaceInformation, _recordNamespaceInformation_attr.
  cbv zeta. keeps_auto counted_leaf.
Qed.

Lemma _serializeElementNS_name_counted ln p ns inh ldn lpm map rwf nde :
  counted pi (_serializeElementNS_name ln p ns inh ldn lpm map pi rwf nde).
Proof.
  unfold _serializeElementNS_name, beginElement, openTagBegin.
  cbv zeta. keeps_auto counted_leaf.
Qed.

Lemma _serializeAttributesNS_counted attrs map lpm ign rwf nde :
  counted pi (_serializeAttributesNS attrs map pi lpm ign rwf nde).
Proof.
  unfold _serializeAttributesNS, _serializeAttributesNS_attr,
    _serializeAttributesNS_namespaced.
  cbv zeta. keeps_auto counted_leaf.
Qed.

Lemma leaf_nodes_counted data rwf nde name publicId systemId target :
  counted pi (_serializeComment data rwf nde)
  /\ counted pi (_serializeText data rwf nde)
  /\ counted pi (_serializeCData data rwf nde)
  /\ counted pi (_serializeDocumentType name publicId systemId rwf nde)
  /\ counted pi (_serializeProcessingInstruction target data rwf nde).
Proof.
  unfold _serializeComment, _serializeText, _serializeCData,
    _serializeDocumentType, _serializeProcessingInstruction, comment, text,
    cdata, docType, instruction.
  cbv zeta. split_and!; keeps_auto counted_leaf.
Qed.

Hint Resolve _recordNamespaceInformation_counted
  _serializeElementNS_name_counted _serializeAttributesNS_counted
  : counted_db.

(** The index is handed down by reference: every call in the subtree of a
    node, in whatever branch, moves the same counter. *)
Lemma _serializeNodeNS_counted (node : Node) :
  forall namespace prefixMap rwf nde,
    counted pi (_serializeNodeNS node namespace prefixMap pi rwf nde).
Proof.
  induction node as [ln p ns attrs cs IH|cs IH|cs IH| | | | | |]
    using Node_ind_children;
    intros namespace pm rwf nde; cbn [_serializeNodeNS];
    (eapply keeps_bind;
     [apply keeps_modify; intros; apply generatedFrom_same; reflexivity
     | intros _ _]).
  - unfold _serializeElementNS, attributes, openTagEnd, endElement, closeTag.
    cbv zeta. keeps_auto counted_leaf.
    apply keeps_forEach. eapply Forall_impl; [exact IH |].
    intros c Hc. cbn beta. keeps_auto counted_leaf.
  - unfold _serializeDocumentNS.
    eapply keeps_bind;
      [apply (keeps_throw_if _ _ (fun _ => True) I) | intros _ _].
    apply keeps_forEach. eapply Forall_impl; [exact IH |].
    intros c Hc. apply Hc.
  - unfold _serializeDocumentFragmentNS.
    apply keeps_forEach. eapply Forall_impl; [exact IH |].
    intros c Hc. apply Hc.
  - apply (leaf_nodes_counted [] rwf nde name publicId systemId []).
  - apply (leaf_nodes_counted data rwf nde [] [] [] []).
  - apply (leaf_nodes_counted data rwf nde [] [] [] []).
  - apply (leaf_nodes_counted data rwf nde [] [] [] []).
  - apply (leaf_nodes_counted data rwf nde [] [] [] target).
  - apply keeps_throw.
Qed.

End Counted.

Lemma countsFrom_increasing (v : N) (new : list Generated) i j gi gj :
  countsFrom v new -> new !! i = Some gi -> new !! j = Some gj ->
  (i < j)%nat -> (gen_index gi < gen_index gj)%N.
Proof.
  intros Hc Hi Hj Hij.
  destruct (Hc _ _ Hi) as [-> _]. destruct (Hc _ _ Hj) as [-> _]. lia.
Qed.

Lemma countsFrom_injective (v : N) (new : list Generated) i j gi gj :
  countsFrom v new -> new !! i = Some gi -> new !! j = Some gj ->
  gen_prefix gi = gen_prefix gj -> i = j.
Proof.
  intros Hc Hi Hj Hp.
  destruct (Hc _ _ Hi) as [Hii Hpi]. destruct (Hc _ _ Hj) as [Hjj Hpj].
  rewrite Hpi, Hpj in Hp. apply app_inv_head in Hp.
  apply number_toString_inj in Hp. lia.
Qed.

Section GeneratedPrefixes.
Context `{XmlGrammar}.

(** C1.  During one call of [serializeNode] on a tree that uses namespaces,
    the prefixes that [_generatePrefix] hands out are ["ns"] followed by the
    value of the prefix index at that moment; the values are 1, 2, 3, ... in
    the order of generation over the whole call, hence strictly increasing;
    no prefix is generated twice, so two different namespace URIs never get
    the same generated prefix.  This holds for the calls made up to an
    exception as well. *)
Theorem generated_prefixes_never_repeat
  (node : Node) (requireWellFormed noDoubleEncoding : bool) (s : State) :
  let s' := (serializeNode true node requireWellFormed noDoubleEncoding s).2 in
  exists new,
    generated s' = generated s ++ new
    /\ countsFrom 1 new
    /\ (forall i j gi gj,
          new !! i = Some gi -> new !! j = Some gj -> (i < j)%nat ->
          (gen_index gi < gen_index gj)%N)
    /\ (forall i j gi gj,
          new !! i = Some gi -> new !! j = Some gj ->
          gen_prefix gi = gen_prefix gj -> i = j)
    /\ (forall gi gj,
          gi ∈ new -> gj ∈ new ->
          gen_namespace gi <> gen_namespace gj ->
          gen_prefix gi <> gen_prefix gj).
Proof.
  unfold serializeNode. unfold bind at 1 2 3 4 5. cbn [modify].
  unfold NamespacePrefixMap_new, NamespacePrefixMap_alloc,
    NamespacePrefixMap_set, PrefixIndex_new. cbn [modify].
  set (pi := length (prefixIndexes _)).
  set (pm := length (prefixMaps _)).
  match goal with
  | |- context [try_catch _ _ ?s0] => set (s0' := s0)
  end.
  assert (validIndex pi s0') as Hvalid.
  { unfold validIndex, s0', pi. cbn. rewrite length_app. cbn. lia. }
  assert (prefixIndexAt pi s0' = 1%N) as Hone.
  { unfold prefixIndexAt, s0', pi. cbn.
    rewrite lookup_app_r by lia. by rewrite Nat.sub_diag. }
  assert (generated s0' = generated s) as Hgen by reflexivity.
  destruct (_serializeNodeNS_counted pi node None pm requireWellFormed
              noDoubleEncoding s0' Hvalid)
    as [[_ (new & Hg & Hc & _)] _].
  rewrite Hone in Hc. rewrite Hgen in Hg.
  unfold try_catch.
  destruct (_serializeNodeNS node None pm pi requireWellFormed
              noDoubleEncoding s0') as [[[]|e] s1]; cbn [snd throw] in *;
    (exists new; split_and!;
     [ done | done
     | intros; by eapply countsFrom_increasing
     | intros; by eapply countsFrom_injective
     | intros gi gj [i Hi]%list_elem_of_lookup [j Hj]%list_elem_of_lookup
         Hns Hp;
       assert (i = j) by (by eapply countsFrom_injective); congruence ]).
Qed.

End GeneratedPrefixes.

(** ** Loops and exceptions *)

(** The computation ends with an exception. *)
Definition throws {A} (r : Outcome A * State) : Prop :=
  exists e, r.1 = Throw e.

Lemma throws_bind {A B} (m : M A) (k : A -> M B) (s : State) :
  (forall a s1, m s = (Normal a, s1) -> throws (k a s1)) ->
  throws (bind m k s).
Proof.
  intros Hk. unfold bind. destruct (m s) as [[a|e] s1]; [by apply Hk |].
  by exists e.
Qed.

Lemma bind_Normal_inv {A B} (m : M A) (k : A -> M B) s b s' :
  bind m k s = (Normal b, s') ->
  exists a s1, m s = (Normal a, s1) /\ k a s1 = (Normal b, s').
Proof.
  unfold bind. destruct (m s) as [[a|e] s1]; [eauto | discriminate].
Qed.

Lemma throw_if_Normal_inv c msg s u s' :
  throw_if c msg s = (Normal u, s') -> c = false /\ s' = s.
Proof. unfold throw_if. destruct c; [discriminate | by intros [= _ ->]]. Qed.

Lemma forEachAcc_app {A B} (f : A -> B -> M B) (l1 l2 : list A) (acc : B) s :
  forEachAcc f (l1 ++ l2) acc s
  = bind (forEachAcc f l1 acc) (forEachAcc f l2) s.
Proof.
  revert acc s. induction l1 as [|x l1 IH]; intros acc s; [reflexivity |].
  cbn [app forEachAcc]. rewrite !bind_run.
  destruct (f x acc s) as [[acc1|e] s1]; [|reflexivity].
  by rewrite IH, bind_run.
Qed.

(** A property of the local variables of a loop, indexed by the items
    already visited, that every normal iteration carries on. *)
Lemma forEachAcc_invariant {A B} (f : A -> B -> M B)
  (I : list A -> B -> Prop) (l : list A) :
  (forall visited x acc s acc' s',
      I visited acc -> f x acc s = (Normal acc', s') ->
      I (visited ++ [x]) acc') ->
  forall visited acc s acc' s',
    I visited acc -> forEachAcc f l acc s = (Normal acc', s') ->
    I (visited ++ l) acc'.
Proof.
  intros Hstep. induction l as [|x l IH]; intros visited acc s acc' s' HI Hrun.
  - injection Hrun as <- _. by rewrite app_nil_r.
  - cbn [forEachAcc] in Hrun.
    apply bind_Normal_inv in Hrun as (acc1 & s1 & Hx & Hl).
    replace (visited ++ x :: l) with ((visited ++ [x]) ++ l)
      by (by rewrite <- app_assoc).
    eapply IH; [|exact Hl]. by eapply Hstep.
Qed.

(** ** Duplicate attributes (C4) *)

(** The pair that identifies an attribute on its element. *)
Definition attrKey (a : Attr) : option jsstring * jsstring :=
  (attr_namespaceURI a, attr_localName a).

(** Two attributes of the list have the same namespace URI and the same
    local name. *)
Definition hasDuplicateAttributes (attrs : list Attr) : Prop :=
  exists i j a b,
    (i < j)%nat /\ attrs !! i = Some a /\ attrs !! j = Some b
    /\ attrKey a = attrKey b.

(** The list is split at an attribute that repeats an earlier one. *)
Lemma hasDuplicateAttributes_split (attrs : list Attr) :
  hasDuplicateAttributes attrs ->
  exists pre b post a,
    attrs = pre ++ b :: post /\ a ∈ pre /\ attrKey a = attrKey b.
Proof.
  intros (i & j & a & b & Hij & Hi & Hj & Hk).
  exists (take j attrs), b, (drop (S j) attrs), a. split_and!.
  - by rewrite take_drop_middle.
  - apply list_elem_of_lookup. exists i. by rewrite lookup_take_lt.
  - done.
Qed.

Definition duplicateMessage : jsstring :=
  lit "Element contains duplicate attributes (well-formed required).".

(** Inverts a hypothesis stating that a sequence of computations returned
    normally. *)
Ltac inv_Normal H :=
  repeat match type of H with
  | bind _ _ _ = (Normal _, _) =>
      let a := fresh "a" in
      let s1 := fresh "s" in
      let H1 := fresh "Hrun" in
      apply bind_Normal_inv in H as (a & s1 & H1 & H)
  | ret _ _ = (Normal _, _) => unfold ret in H
  | (let (_, _) := ?x in _) _ = _ => destruct x
  | match ?x with _ => _ end _ = _ => destruct x
  end.

Section DuplicateAttributes.
Context `{XmlGrammar}.

(** *** The namespace-aware pass *)

Lemma _serializeAttributesNS_attr_seen map pi lpm ign nde x res lns s :
  LocalNameSet.has (attr_namespaceURI x) (attr_localName x) lns = true ->
  _serializeAttributesNS_attr map pi lpm ign true nde x (res, Some lns) s
  = (Throw (Error duplicateMessage), s).
Proof.
  intros Hhas. unfold _serializeAttributesNS_attr. cbn. by rewrite Hhas.
Qed.

Lemma _serializeAttributesNS_attr_records map pi lpm ign nde x acc lns s acc' s' :
  acc.2 = Some lns ->
  _serializeAttributesNS_attr map pi lpm ign true nde x acc s
  = (Normal acc', s') ->
  acc'.2
  = Some (LocalNameSet.set (attr_namespaceURI x) (attr_localName x) lns).
Proof.
  destruct acc as [res o]. cbn [snd]. intros -> Hrun.
  unfold _serializeAttributesNS_attr in Hrun. cbn [negb andb fst snd] in Hrun.
  cbv zeta in Hrun. inv_Normal Hrun; by injection Hrun as <- _.
Qed.

(** What the loop knows after the attributes [visited]: their pairs are in
    the local name set. *)
Definition seenNS (visited : list Attr)
  (acc : list AttrTuple * option LocalNameSet.t) : Prop :=
  exists lns,
    acc.2 = Some lns
    /\ forall a, a ∈ visited ->
         LocalNameSet.has (attr_namespaceURI a) (attr_localName a) lns = true.

Lemma seenNS_step map pi lpm ign nde visited x acc s acc' s' :
  seenNS visited acc ->
  _serializeAttributesNS_attr map pi lpm ign true nde x acc s
  = (Normal acc', s') ->
  seenNS (visited ++ [x]) acc'.
Proof.
  intros (lns & Hacc & Hseen) Hrun.
  eexists. split; [by eapply _serializeAttributesNS_attr_records |].
  intros a [Ha|Ha%list_elem_of_singleton]%elem_of_app;
    unfold LocalNameSet.has, LocalNameSet.set in *;
    apply bool_decide_eq_true.
  - apply Hseen, bool_decide_eq_true in Ha. set_solver.
  - subst. set_solver.
Qed.

(** The pass over a list whose attribute [b] repeats the pair of an earlier
    one: if the attributes before [b] pass, [b] raises the duplicate error;
    otherwise the pass has failed before. *)
Lemma _serializeAttributesNS_repeated pre b post a map pi lpm ign nde s :
  a ∈ pre -> attrKey a = attrKey b ->
  match _serializeAttributesNS pre map pi lpm ign true nde s with
  | (Normal _, s1) =>
      _serializeAttributesNS (pre ++ b :: post) map pi lpm ign true nde s
      = (Throw (Error duplicateMessage), s1)
  | (Throw e, s1) =>
      _serializeAttributesNS (pre ++ b :: post) map pi lpm ign true nde s
      = (Throw e, s1)
  end.
Proof.
  intros Ha Hk. unfold _serializeAttributesNS. cbv zeta.
  rewrite !bind_run, forEachAcc_app, bind_run.
  destruct (forEachAcc _ pre _ s) as [[acc|e] s1] eqn:Hpre; [|done].
  cbn [ret]. cbn [forEachAcc]. rewrite bind_run.
  assert (seenNS [] ([], Some LocalNameSet.empty)) as Hinit
    by (exists LocalNameSet.empty; split; [done | set_solver]).
  destruct (forEachAcc_invariant _ seenNS pre
              (seenNS_step map pi lpm ign nde) [] _ _ _ _ Hinit Hpre)
    as (lns & Hacc & Hseen).
  destruct acc as [res o]. cbn [snd] in Hacc. subst o.
  rewrite _serializeAttributesNS_attr_seen; [done |].
  injection Hk as <- <-. by apply Hseen.
Qed.

(** *** The fast path *)

Lemma _serializeAttributes_attr_seen nde x res o s :
  obj_in (attr_localName x) o = true ->
  _serializeAttributes_attr true nde x (res, Some o) s
  = (Throw (Error duplicateMessage), s).
Proof.
  intros Hin. unfold _serializeAttributes_attr. cbn. by rewrite Hin.
Qed.

Lemma _serializeAttributes_attr_records nde x acc o s acc' s' :
  acc.2 = Some o ->
  _serializeAttributes_attr true nde x acc s = (Normal acc', s') ->
  acc'.2 = Some (obj_set (attr_localName x) true o).
Proof.
  destruct acc as [res o']. cbn [snd]. intros -> Hrun.
  unfold _serializeAttributes_attr in Hrun. cbn [negb andb fst snd] in Hrun.
  cbv zeta in Hrun. inv_Normal Hrun; by injection Hrun as <- _.
Qed.

Lemma obj_in_obj_set (k k' : jsstring) (o : gmap jsstring bool) :
  k = k' \/ obj_in k o = true -> obj_in k (obj_set k' true o) = true.
Proof.
  unfold obj_in, obj_set. rewrite !orb_true_iff, !bool_decide_eq_true.
  intros [->|[Hk|Hk]].
  - case_decide as Hp.
    + right. rewrite Hp. unfold Object_prototype_keys. cbn [List.map].
      do 7 apply list_elem_of_further. apply list_elem_of_here.
    + left. by rewrite lookup_insert_eq.
  - case_decide; [by left |]. left.
    destruct (decide (k' = k)) as [->|]; [by rewrite lookup_insert_eq |].
    by rewrite lookup_insert_ne.
  - by right.
Qed.

Definition seenFast (visited : list Attr)
  (acc : list AttrTuple * option (gmap jsstring bool)) : Prop :=
  exists o,
    acc.2 = Some o
    /\ forall a, a ∈ visited -> obj_in (attr_localName a) o = true.

Lemma seenFast_step nde visited x acc s acc' s' :
  seenFast visited acc ->
  _serializeAttributes_attr true nde x acc s = (Normal acc', s') ->
  seenFast (visited ++ [x]) acc'.
Proof.
  intros (o & Hacc & Hseen) Hrun.
  eexists. split; [by eapply _serializeAttributes_attr_records |].
  intros a [Ha|Ha%list_elem_of_singleton]%elem_of_app;
    apply obj_in_obj_set; [right; by apply Hseen | by left; subst].
Qed.

Lemma _serializeAttributes_repeated pre b post a nde s :
  a ∈ pre -> attrKey a = attrKey b ->
  match _serializeAttributes pre true nde s with
  | (Normal _, s1) =>
      _serializeAttributes (pre ++ b :: post) true nde s
      = (Throw (Error duplicateMessage), s1)
  | (Throw e, s1) =>
      _serializeAttributes (pre ++ b :: post) true nde s = (Throw e, s1)
  end.
Proof.
  intros Ha Hk. unfold _serializeAttributes. cbv zeta.
  rewrite !bind_run, forEachAcc_app, bind_run.
  destruct (forEachAcc _ pre _ s) as [[acc|e] s1] eqn:Hpre; [|done].
  cbn [ret]. cbn [forEachAcc]. rewrite bind_run.
  assert (seenFast [] ([], Some ∅)) as Hinit
    by (exists ∅; split; [done | set_solver]).
  destruct (forEachAcc_invariant _ seenFast pre (seenFast_step nde)
              [] _ _ _ _ Hinit Hpre)
    as (o & Hacc & Hseen).
  destruct acc as [res o']. cbn [snd] in Hacc. subst o'.
  rewrite _serializeAttributes_attr_seen; [done |].
  injection Hk as _ <-. by apply Hseen.
Qed.

End DuplicateAttributes.

Section DuplicateAttributesElement.
Context `{XmlGrammar}.

Lemma _serializeAttributesNS_duplicates_throw attrs map pi lpm ign nde s :
  hasDuplicateAttributes attrs ->
  throws (_serializeAttributesNS attrs map pi lpm ign true nde s).
Proof.
  intros (pre & b & post & a & -> & Ha & Hk)%hasDuplicateAttributes_split.
  pose proof (_serializeAttributesNS_repeated pre b post a map pi lpm ign
                nde s Ha Hk) as Hrep.
  destruct (_serializeAttributesNS pre _ _ _ _ _ _ s) as [[?|e] s1];
    rewrite Hrep; by eexists.
Qed.

Lemma _serializeAttributes_duplicates_throw attrs nde s :
  hasDuplicateAttributes attrs ->
  throws (_serializeAttributes attrs true nde s).
Proof.
  intros (pre & b & post & a & -> & Ha & Hk)%hasDuplicateAttributes_split.
  pose proof (_serializeAttributes_repeated pre b post a nde s Ha Hk) as Hrep.
  destruct (_serializeAttributes pre _ _ s) as [[?|e] s1];
    rewrite Hrep; by eexists.
Qed.

Lemma _serializeElementNS_duplicates_throw rec ln p ns attrs cs namespace pm
  pi nde s :
  hasDuplicateAttributes attrs ->
  throws (_serializeElementNS rec ln p ns attrs cs namespace pm pi true nde s).
Proof.
  intros Hdup. unfold _serializeElementNS.
  apply throws_bind; intros _ s1 _.
  apply throws_bind; intros map s2 _.
  apply throws_bind; intros recorded s3 _. cbv zeta.
  apply throws_bind; intros resolved s4 _.
  apply throws_bind; intros more s5 Hmore.
  destruct (_serializeAttributesNS_duplicates_throw attrs map pi recorded.2
              (r_ignoreNamespaceDefinitionAttribute resolved) nde s4 Hdup)
    as [e He].
  rewrite Hmore in He. discriminate.
Qed.

Lemma _serializeElement_duplicates_throw rec ln attrs cs nde s :
  hasDuplicateAttributes attrs ->
  throws (_serializeElement rec ln attrs cs true nde s).
Proof.
  intros Hdup. unfold _serializeElement.
  apply throws_bind; intros _ s1 _. cbv zeta.
  apply throws_bind; intros _ s2 _.
  apply throws_bind; intros _ s3 _.
  apply throws_bind; intros more s4 Hmore.
  destruct (_serializeAttributes_duplicates_throw attrs nde s3 Hdup)
    as [e He].
  rewrite Hmore in He. discriminate.
Qed.

Lemma try_catch_throws {A} (m : M A) (s : State) :
  throws (m s) ->
  exists msg,
    (try_catch m (fun e => throw (InvalidStateError (message e))) s).1
    = Throw (InvalidStateError msg).
Proof.
  intros [e He]. unfold try_catch. destruct (m s) as [[a|e'] s1]; [done |].
  by eexists.
Qed.

(** *** Without the well-formedness checks *)

Lemma _serializeAttributeValue_lenient (v : jsstring) (nde : bool) s :
  _serializeAttributeValue (Some v) false nde s
  = (Normal (attributeValueMarkup v nde), s).
Proof. reflexivity. Qed.

(** The tuple that the fast path emits for an attribute. *)
Definition plainTuple (nde : bool) (a : Attr) : AttrTuple :=
  (None, None, attr_localName a, attributeValueMarkup (attr_value a) nde).

Lemma _serializeAttributes_lenient_loop nde attrs acc s :
  forEachAcc (_serializeAttributes_attr false nde) attrs acc s
  = (Normal (acc.1 ++ List.map (plainTuple nde) attrs, acc.2), s).
Proof.
  revert acc. induction attrs as [|x l IH]; intros [res o]; cbn.
  - by rewrite app_nil_r.
  - rewrite IH. cbn. by rewrite <- app_assoc.
Qed.

Lemma _serializeAttributes_lenient nde attrs s :
  _serializeAttributes attrs false nde s
  = (Normal (List.map (plainTuple nde) attrs), s).
Proof.
  unfold _serializeAttributes. cbv zeta. rewrite bind_run.
  by rewrite _serializeAttributes_lenient_loop.
Qed.

(** The tuple that the namespace-aware pass emits for an attribute, under
    the prefix [cp] chosen for it. *)
Definition qualifiedTuple (nde : bool) (cp : option jsstring) (a : Attr)
  : AttrTuple :=
  (attr_namespaceURI a, cp, attr_localName a,
   attributeValueMarkup (attr_value a) nde).

Lemma _serializeAttributesNS_attr_lenient map pi lpm ign nde x acc s :
  exists added s',
    _serializeAttributesNS_attr map pi lpm ign false nde x acc s
    = (Normal (acc.1 ++ added, acc.2), s')
    /\ (attr_namespaceURI x <> Some infraNamespace.XMLNS ->
        exists cp, qualifiedTuple nde cp x ∈ added).
Proof.
  destruct acc as [res o]. destruct x as [[ans|] ap aln av].
  all: unfold _serializeAttributesNS_attr, _serializeAttributesNS_namespaced,
    _generatePrefix, _serializeAttributeValue, NamespacePrefixMap_get,
    NamespacePrefixMap_has, NamespacePrefixMap_hasPrefix,
    NamespacePrefixMap_set, throw_if, bind, ret, gets, modify, qualifiedTuple.
  all: cbv zeta; cbn [negb andb fst snd attr_namespaceURI attr_prefix
                      attr_localName attr_value].
  all: repeat (case_inner; cbn [negb andb fst snd]).
  all: try match goal with
       | Hb : _ && bool_decide (Some _ = None) = true |- _ =>
           rewrite bool_decide_eq_false_2, andb_false_r in Hb by done;
           discriminate
       end.
  all: try (eexists [], _; rewrite app_nil_r; split; [reflexivity |];
            intros Hns; congruence).
  all: rewrite <- ?app_assoc; cbn [app]; eexists _, _;
    (split; [reflexivity |]); intros Hns; eexists;
    repeat first [ apply list_elem_of_here | apply list_elem_of_further ].
Qed.

Lemma _serializeAttributesNS_lenient_loop map pi lpm ign nde attrs acc s :
  exists added s',
    forEachAcc (_serializeAttributesNS_attr map pi lpm ign false nde) attrs
      acc s
    = (Normal (acc.1 ++ added, acc.2), s')
    /\ forall a, a ∈ attrs ->
         attr_namespaceURI a <> Some infraNamespace.XMLNS ->
         exists cp, qualifiedTuple nde cp a ∈ added.
Proof.
  revert acc s. induction attrs as [|x l IH]; intros acc s; cbn [forEachAcc].
  - exists [], s. rewrite app_nil_r. split; [by destruct acc |].
    intros a Ha. by apply elem_of_nil in Ha.
  - destruct (_serializeAttributesNS_attr_lenient map pi lpm ign nde x acc s)
      as (added1 & s1 & Hx & Hemit).
    destruct (IH (acc.1 ++ added1, acc.2) s1) as (added2 & s2 & Hl & Hrest).
    exists (added1 ++ added2), s2. rewrite bind_run, Hx, Hl. cbn [fst snd].
    split; [by rewrite app_assoc |].
    intros a [->|Ha]%elem_of_cons Hns.
    + destruct (Hemit Hns) as [cp Hcp]. exists cp. apply elem_of_app. by left.
    + destruct (Hrest a Ha Hns) as [cp Hcp]. exists cp. apply elem_of_app.
      by right.
Qed.

Lemma _serializeAttributesNS_lenient map pi lpm ign nde attrs s :
  exists result s',
    _serializeAttributesNS attrs map pi lpm ign false nde s
    = (Normal result, s')
    /\ forall a, a ∈ attrs ->
         attr_namespaceURI a <> Some infraNamespace.XMLNS ->
         exists cp, qualifiedTuple nde cp a ∈ result.
Proof.
  unfold _serializeAttributesNS. cbv zeta.
  destruct (_serializeAttributesNS_lenient_loop map pi lpm ign nde attrs
              ([], None) s) as (added & s' & Hrun & Hemit).
  exists added, s'. by rewrite bind_run, Hrun.
Qed.

End DuplicateAttributesElement.

Section DuplicateAttributesClaim.
Context `{XmlGrammar}.


End DuplicateAttributesClaim.



(** ** Lookups in the prefix map *)

(** No prefix of the map is bound to [ns]. *)
Definition unbound (ns : option jsstring) (m : PrefixMap.t) : Prop :=
  forall k, m !! k <> Some ns.

Lemma firstFor_Some (ns : option jsstring) (m : PrefixMap.t) (c : jsstring) :
  PrefixMap.firstFor ns m = Some c -> m !! c = Some ns.
Proof.
  unfold PrefixMap.firstFor. intros Hf.
  destruct (List.find _ _) as [[k v]|] eqn:Hfind; [|discriminate].
  injection Hf as <-. apply find_some in Hfind as [Hin Hv].
  apply bool_decide_eq_true in Hv. cbn in Hv. subst v.
  by apply elem_of_map_to_list, list_elem_of_In.
Qed.

Lemma firstFor_unbound (ns : option jsstring) (m : PrefixMap.t) :
  unbound ns m -> PrefixMap.firstFor ns m = None.
Proof.
  intros Hun. destruct (PrefixMap.firstFor ns m) as [c|] eqn:Hf; [|done].
  apply firstFor_Some in Hf. by destruct (Hun c).
Qed.

(** The prefix that [get] returns is bound to the namespace asked for. *)
Lemma get_Some (p ns : option jsstring) (m : PrefixMap.t) (c : jsstring) :
  PrefixMap.get p ns m = Some c -> m !! c = Some ns.
Proof.
  unfold PrefixMap.get, PrefixMap.has. destruct p as [p|].
  - case_bool_decide as Hp; [by intros [= <-] | apply firstFor_Some].
  - apply firstFor_Some.
Qed.

Lemma get_unbound (p ns : option jsstring) (m : PrefixMap.t) :
  unbound ns m -> PrefixMap.get p ns m = None.
Proof.
  intros Hun. destruct (PrefixMap.get p ns m) as [c|] eqn:Hg; [|done].
  apply get_Some in Hg. by destruct (Hun c).
Qed.

Lemma unbound_set (ns : option jsstring) (p : jsstring) (v : option jsstring)
  (m : PrefixMap.t) :
  v <> ns -> unbound ns m -> unbound ns (PrefixMap.set p v m).
Proof.
  intros Hv Hun k. unfold PrefixMap.set.
  destruct (decide (p = k)) as [->|Hne].
  - rewrite lookup_insert_eq. congruence.
  - rewrite lookup_insert_ne by done. apply Hun.
Qed.

Lemma unbound_empty (ns : option jsstring) : unbound ns PrefixMap.empty.
Proof. intros k. unfold PrefixMap.empty. by rewrite lookup_empty. Qed.

(** [set] through a reference changes the map it refers to and no other. *)
Lemma prefixMapAt_set map p v s :
  prefixMapAt map (NamespacePrefixMap_set map p v s).2
  = (if decide (map < length (prefixMaps s))%nat
     then PrefixMap.set p v (prefixMapAt map s)
     else prefixMapAt map s).
Proof.
  unfold prefixMapAt. cbn. case_decide as Hlt.
  - by rewrite list_lookup_insert_eq.
  - by rewrite list_insert_ge by lia.
Qed.

(** ** The sink only receives more calls *)

Definition moreEvents (s s' : State) : Prop :=
  events s `prefix_of` events s'.

#[local] Instance moreEvents_invariant :
  Invariant (fun _ => True) moreEvents.
Proof.
  split; unfold moreEvents; intros; [done | by etrans | done].
Qed.

Abbreviation growing m :=
  (keeps (fun _ => True) moreEvents m (fun _ => True)).

Lemma silent_growing {A} (m : M A) : silent m -> growing m.
Proof.
  intros Hm s _. destruct (Hm s I) as [Hev _]. split; [|done].
  unfold moreEvents, sameEvents in *. by rewrite Hev.
Qed.

Lemma emit_growing e : growing (emit e).
Proof.
  apply keeps_modify. intros s _. unfold moreEvents. cbn.
  by apply prefix_app_r.
Qed.

Create HintDb growing_db.

Ltac growing_leaf :=
  first [ apply emit_growing
        | apply silent_growing; solve [eauto with silent_db]
        | apply keeps_modify; intros; unfold moreEvents; reflexivity
        | solve [eauto with growing_db] ].

Section Growing.
Context `{XmlGrammar}.

Hint Resolve NamespacePrefixMap_copy_silent NamespacePrefixMap_set_silent
  NamespacePrefixMap_get_silent NamespacePrefixMap_has_silent
  NamespacePrefixMap_hasPrefix_silent _generatePrefix_silent
  _serializeAttributeValue_silent _recordNamespaceInformation_silent
  _serializeAttributesNS_silent _serializeAttributes_silent : silent_db.

Lemma _serializeElementNS_name_growing ln p ns inh ldn lpm map pi rwf nde :
  growing (_serializeElementNS_name ln p ns inh ldn lpm map pi rwf nde).
Proof.
  unfold _serializeElementNS_name, beginElement, openTagBegin.
  cbv zeta. keeps_auto growing_leaf.
Qed.

Lemma leaf_nodes_growing data rwf nde name publicId systemId target :
  growing (_serializeComment data rwf nde)
  /\ growing (_serializeText data rwf nde)
  /\ growing (_serializeCData data rwf nde)
  /\ growing (_serializeDocumentType name publicId systemId rwf nde)
  /\ growing (_serializeProcessingInstruction target data rwf nde).
Proof.
  unfold _serializeComment, _serializeText, _serializeCData,
    _serializeDocumentType, _serializeProcessingInstruction, comment, text,
    cdata, docType, instruction.
  cbv zeta. split_and!; keeps_auto growing_leaf.
Qed.

Hint Resolve _serializeElementNS_name_growing : growing_db.

Lemma _serializeNodeNS_growing (node : Node) :
  forall namespace prefixMap prefixIndex rwf nde,
    growing (_serializeNodeNS node namespace prefixMap prefixIndex rwf nde).
Proof.
  induction node as [ln p ns attrs cs IH|cs IH|cs IH| | | | | |]
    using Node_ind_children;
    intros namespace pm pi rwf nde; cbn [_serializeNodeNS];
    (eapply keeps_bind;
     [apply keeps_modify; intros; unfold moreEvents; reflexivity
     | intros _ _]).
  - unfold _serializeElementNS, attributes, openTagEnd, endElement, closeTag.
    cbv zeta. keeps_auto growing_leaf.
    apply keeps_forEach. eapply Forall_impl; [exact IH |].
    intros c Hc. cbn beta. keeps_auto growing_leaf.
  - unfold _serializeDocumentNS.
    eapply keeps_bind;
      [apply (keeps_throw_if _ _ (fun _ => True) I) | intros _ _].
    apply keeps_forEach. eapply Forall_impl; [exact IH |].
    intros c Hc. apply Hc.
  - unfold _serializeDocumentFragmentNS.
    apply keeps_forEach. eapply Forall_impl; [exact IH |].
    intros c Hc. apply Hc.
  - apply (leaf_nodes_growing [] rwf nde name publicId systemId []).
  - apply (leaf_nodes_growing data rwf nde [] [] [] []).
  - apply (leaf_nodes_growing data rwf nde [] [] [] []).
  - apply (leaf_nodes_growing data rwf nde [] [] [] []).
  - apply (leaf_nodes_growing data rwf nde [] [] [] target).
  - apply keeps_throw.
Qed.

End Growing.

(** ** The decision table of element names (C5) *)

(** Case analysis on an innermost scrutinee of hypothesis [H]. *)
Ltac case_inner_in H :=
  match type of H with
  | context [match ?x with _ => _ end] =>
      lazymatch x with
      | context [match _ with _ => _ end] => fail
      | _ => destruct x eqn:?
      end
  end.

(** The value written for a namespace in a declaration. *)
Definition namespaceMarkup (ns : option jsstring) (nde : bool) : jsstring :=
  match ns with
  | Some v => attributeValueMarkup v nde
  | None => []
  end.

#[local] Opaque lit.

Section DecisionTable.
Context `{XmlGrammar}.

(** Steps 12.4 to 12.7: for an element whose namespace [ns] differs from the
    context namespace, either a prefix bound to [ns] in the map is reused
    and nothing is declared, or the element's prefix (or a generated one) is
    declared, or the default namespace is declared, or the element's own
    default namespace declaration already says [ns]. *)
Lemma _serializeElementNS_name_cases ln p ns inh ldn lpm map pi rwf nde s res s' :
  inh <> ns ->
  _serializeElementNS_name ln p ns inh ldn lpm map pi rwf nde s
  = (Normal res, s') ->
  (exists c,
     (PrefixMap.get p ns (prefixMapAt map s) = Some c
      \/ (p = Some (lit "xmlns") /\ c = lit "xmlns"))
     /\ r_qualifiedName res = c ++ lit ":" ++ ln
     /\ r_attributes res = []
     /\ r_ignoreNamespaceDefinitionAttribute res = false)
  \/ (exists p',
        p <> None
        /\ r_qualifiedName res = p' ++ lit ":" ++ ln
        /\ r_attributes res
           = [(None, Some (lit "xmlns"), p', namespaceMarkup ns nde)]
        /\ r_ignoreNamespaceDefinitionAttribute res = false)
  \/ (p = None /\ (ldn = None \/ ldn <> ns)
      /\ r_qualifiedName res = ln
      /\ r_attributes res
         = [(None, None, lit "xmlns", namespaceMarkup ns nde)]
      /\ r_ignoreNamespaceDefinitionAttribute res = true
      /\ r_inheritedNS res = ns)
  \/ (p = None /\ ldn = ns /\ ldn <> None
      /\ r_qualifiedName res = ln
      /\ r_attributes res = []
      /\ r_ignoreNamespaceDefinitionAttribute res = false
      /\ r_inheritedNS res = ns).
Proof.
  intros Hne Hrun.
  unfold _serializeElementNS_name in Hrun.
  rewrite decide_False in Hrun by done.
  unfold _generatePrefix, _serializeAttributeValue, NamespacePrefixMap_get,
    NamespacePrefixMap_set, beginElement, openTagBegin, emit, throw_if, bind,
    ret, gets, modify, throw in Hrun.
  cbv zeta in Hrun.
  destruct p as [p|]; cbn [negb andb orb fst snd] in Hrun.
  - rewrite bool_decide_eq_true_2 in Hrun by done. cbn [orb] in Hrun.
    repeat (case_inner_in Hrun; cbn [negb andb orb fst snd] in Hrun);
      try discriminate; injection Hrun as <- <-;
      cbn [r_qualifiedName r_attributes r_ignoreNamespaceDefinitionAttribute
           r_inheritedNS];
      try (left; eexists; split; [by left | done]);
      try (left; exists p; split; [right; split; [done | congruence] | done]);
      try (right; left; eexists; split; [done | done]).
  - try rewrite decide_False in Hrun by done.
    try rewrite (bool_decide_eq_false_2 (None <> None)) in Hrun by tauto.
    cbn [orb] in Hrun.
    repeat (case_inner_in Hrun; cbn [negb andb orb fst snd] in Hrun);
      try discriminate; injection Hrun as <- <-;
      cbn [r_qualifiedName r_attributes r_ignoreNamespaceDefinitionAttribute
           r_inheritedNS namespaceMarkup];
      try (left; eexists; split; [by left | done]).
    all: repeat match goal with
         | Hb : _ || _ = true |- _ => apply orb_true_iff in Hb as [Hb|Hb]
         | Hb : _ || _ = false |- _ => apply orb_false_iff in Hb as [? ?]
         | Hb : _ && _ = true |- _ => apply andb_true_iff in Hb as [? ?]
         | Hb : _ && _ = false |- _ => apply andb_false_iff in Hb as [Hb|Hb]
         | Hb : bool_decide _ = true |- _ => apply bool_decide_eq_true in Hb
         | Hb : bool_decide _ = false |- _ => apply bool_decide_eq_false in Hb
         | Hb : ~ (_ <> _) |- _ => apply dec_stable in Hb
         end.
    all: try (right; right; right; split_and!; (done || congruence)).
    all: right; right; left; split_and!;
      first [ done | tauto | destruct ldn; [right | left]; done ].
Qed.

End DecisionTable.

Section ElementRun.
Context `{XmlGrammar}.

Hint Resolve _serializeElementNS_name_growing : growing_db.

(** The stages of a normal run of [_serializeElementNS]: the copy of the
    prefix map, the recording of the declarations, the choice of the name,
    the attribute pass, then the [attributes] call with the declarations of
    the element in front of the result of the pass; whatever follows only
    adds calls. *)
Lemma _serializeNodeNS_Element_stages ln p ns attrs cs namespace pm pi rwf nde
  s s' :
  _serializeNodeNS (Element ln p ns attrs cs) namespace pm pi rwf nde s
  = (Normal tt, s') ->
  exists s1 recorded s2 res s3 more s4 rest,
    let map := length (prefixMaps s) in
    prefixMapAt map s1 = prefixMapAt pm s
    /\ events s1 = events s
    /\ _recordNamespaceInformation attrs map ∅ s1 = (Normal recorded, s2)
    /\ _serializeElementNS_name ln p ns namespace recorded.1 recorded.2 map pi
         rwf nde s2
       = (Normal res, s3)
    /\ _serializeAttributesNS attrs map pi recorded.2
         (r_ignoreNamespaceDefinitionAttribute res) rwf nde s3
       = (Normal more, s4)
    /\ events s'
       = events s4 ++ E_attributes (r_attributes res ++ more) :: rest.
Proof.
  cbn [_serializeNodeNS]. intros Hrun.
  apply bind_Normal_inv in Hrun as ([] & s0 & Hcur & Hrun).
  injection Hcur as <-.
  unfold _serializeElementNS in Hrun.
  apply bind_Normal_inv in Hrun as ([] & s0' & Hchk & Hrun).
  apply throw_if_Normal_inv in Hchk as [_ ->].
  apply bind_Normal_inv in Hrun as (map & s1 & Hcopy & Hrun).
  injection Hcopy as <- <-.
  apply bind_Normal_inv in Hrun as (recorded & s2 & Hrec & Hrun).
  cbv zeta in Hrun.
  apply bind_Normal_inv in Hrun as (res & s3 & Hname & Hrun).
  apply bind_Normal_inv in Hrun as (more & s4 & Hpass & Hrun).
  apply bind_Normal_inv in Hrun as ([] & s5 & Hattr & Hrun).
  injection Hattr as <-.
  match type of Hrun with
  | ?tail ?st = _ =>
      assert (growing tail) as Hgrow;
      [| destruct (Hgrow st I) as [[rest Hrest] _] ]
  end.
  { unfold openTagEnd, endElement, closeTag. keeps_auto growing_leaf.
    apply keeps_forEach. apply Forall_forall. intros c _. cbn beta.
    keeps_auto growing_leaf. apply _serializeNodeNS_growing. }
  rewrite Hrun in Hrest.
  cbn [snd events with_event] in Hrest.
  match type of Hrec with
  | _recordNamespaceInformation _ _ _ ?st = _ => exists st
  end.
  exists recorded, s2, res, s3, more, s4, rest. cbv zeta.
  split_and!; [| reflexivity | exact Hrec | exact Hname | exact Hpass |].
  - unfold prefixMapAt. cbn. rewrite lookup_app_r by lia.
    by rewrite Nat.sub_diag.
  - by rewrite Hrest, <- app_assoc.
Qed.

(** Step 11: when the namespace of the element is the context namespace,
    the name is the local name (with [xml:] in the XML namespace), nothing is
    declared, and an own default namespace declaration is to be ignored. *)
Lemma _serializeElementNS_name_same ln p ns ldn lpm map pi rwf nde s :
  let q := if decide (ns = Some infraNamespace.XML)
           then lit "xml:" ++ ln else ln in
  _serializeElementNS_name ln p ns ns ldn lpm map pi rwf nde s
  = (Normal (mkResolved q ns (bool_decide (ldn <> None)) []),
     with_event (E_openTagBegin q) (with_event (E_beginElement q) s)).
Proof.
  unfold _serializeElementNS_name. by rewrite decide_True.
Qed.

(** Choosing the name binds prefixes to the namespace of the element only. *)
Lemma _serializeElementNS_name_unbound u ln p ns inh ldn lpm map pi rwf nde s :
  ns <> u ->
  unbound u (prefixMapAt map s) ->
  unbound u
    (prefixMapAt map
       (_serializeElementNS_name ln p ns inh ldn lpm map pi rwf nde s).2).
Proof.
  intros Hns.
  pose (P := fun st => unbound u (prefixMapAt map st)).
  assert (Invariant P (fun _ st' => P st')) as Hinv by (split; auto).
  assert (forall k, keeps P (fun _ st' => P st')
            (NamespacePrefixMap_set map k ns) (fun _ => True)) as Hset.
  { intros k. apply keeps_modify. intros st Hst.
    change (unbound u (prefixMapAt map (NamespacePrefixMap_set map k ns st).2)).
    rewrite (prefixMapAt_set map k ns st).
    case_decide; [by apply unbound_set | done]. }
  assert (keeps P (fun _ st' => P st')
            (_serializeElementNS_name ln p ns inh ldn lpm map pi rwf nde)
            (fun _ => True)) as Hkeeps.
  { unfold _serializeElementNS_name, _generatePrefix,
      _serializeAttributeValue, NamespacePrefixMap_get, beginElement,
      openTagBegin, emit.
    cbv zeta.
    keeps_auto ltac:(first [ apply Hset
                           | apply keeps_modify; intros st Hst; exact Hst ]). }
  intros Hun. by destruct (Hkeeps s Hun).
Qed.

End ElementRun.

(** ** Default namespace declarations (C5) *)

(** The attribute [xmlns="X"]. *)
Definition defaultDeclaration (X : jsstring) : Attr :=
  mkAttr (Some infraNamespace.XMLNS) None (lit "xmlns") X.

(** The tuple emitted for it. *)
Definition declarationTuple (X : jsstring) (nde : bool) : AttrTuple :=
  (Some infraNamespace.XMLNS, None, lit "xmlns", attributeValueMarkup X nde).

Section DefaultNamespace.
Context `{XmlGrammar}.

Lemma _recordNamespaceInformation_declaration X map lpm s :
  _recordNamespaceInformation [defaultDeclaration X] map lpm s
  = (Normal (Some X, lpm), s).
Proof.
  unfold _recordNamespaceInformation, _recordNamespaceInformation_attr.
  cbn [forEachAcc defaultDeclaration attr_namespaceURI attr_prefix
       attr_value]. cbv zeta.
  rewrite bind_run. by rewrite decide_True.
Qed.

(** With the flag set, the declaration is not emitted. *)
Lemma _serializeAttributesNS_declaration_ignored X map pi lpm rwf nde s :
  _serializeAttributesNS [defaultDeclaration X] map pi lpm true rwf nde s
  = (Normal [], s).
Proof.
  unfold _serializeAttributesNS, _serializeAttributesNS_attr,
    _serializeAttributesNS_namespaced.
  cbn [forEachAcc defaultDeclaration attr_namespaceURI attr_prefix
       attr_value attr_localName fst snd negb andb]. cbv zeta.
  rewrite andb_false_r. cbn [andb].
  unfold NamespacePrefixMap_get, NamespacePrefixMap_has, throw_if, bind,
    gets, ret.
  assert (forall o : option LocalNameSet.t,
            (if rwf then Some LocalNameSet.empty else None) = o ->
            rwf && match o with
                   | Some lns =>
                       LocalNameSet.has (Some infraNamespace.XMLNS)
                         (lit "xmlns") lns
                   | None => false
                   end = false) as Hfresh.
  { intros o <-. destruct rwf; [|done]. cbn [andb].
    unfold LocalNameSet.has, LocalNameSet.empty.
    apply bool_decide_eq_false. set_solver. }
  rewrite (Hfresh _ eq_refl). rewrite decide_True by done.
  rewrite (bool_decide_eq_true_2 (None = None)) by done.
  by rewrite orb_true_r.
Qed.

Lemma _serializeAttributeValue_Normal v rwf nde s r s' :
  _serializeAttributeValue v rwf nde s = (Normal r, s') ->
  r = namespaceMarkup v nde.
Proof.
  unfold _serializeAttributeValue. intros Hrun.
  apply bind_Normal_inv in Hrun as ([] & s0 & _ & Hrun).
  destruct v; by injection Hrun as <- _.
Qed.

Lemma _serializeAttributesNS_namespaced_declaration X result map pi lpm rwf
  nde s r s' :
  X <> infraNamespace.XML ->
  unbound (Some infraNamespace.XMLNS) (prefixMapAt map s) ->
  _serializeAttributesNS_namespaced (defaultDeclaration X)
    infraNamespace.XMLNS result map pi lpm false rwf nde s
  = (Normal r, s') ->
  r = Some (None, result).
Proof.
  intros HX Hun Hrun. unfold _serializeAttributesNS_namespaced in Hrun.
  rewrite bind_run in Hrun. unfold NamespacePrefixMap_get at 1 in Hrun.
  cbn [gets defaultDeclaration attr_prefix attr_value attr_localName] in Hrun.
  rewrite (get_unbound None _ _ Hun) in Hrun.
  rewrite decide_True in Hrun by done.
  rewrite bind_run in Hrun. unfold NamespacePrefixMap_has at 1 in Hrun.
  cbn [gets] in Hrun.
  rewrite (bool_decide_eq_false_2 (X = infraNamespace.XML)) in Hrun by done.
  rewrite (bool_decide_eq_false_2 (None <> None)) in Hrun by tauto.
  rewrite andb_false_r in Hrun. cbn [andb orb] in Hrun.
  apply bind_Normal_inv in Hrun as ([] & s1 & _ & Hrun).
  apply bind_Normal_inv in Hrun as ([] & s2 & _ & Hrun).
  by injection Hrun as <- _.
Qed.

(** Without the flag, and when no prefix is bound to the XMLNS namespace,
    the declaration of a namespace other than the XML namespace is emitted
    as it is. *)
Lemma _serializeAttributesNS_declaration_kept X map pi lpm rwf nde s more s' :
  X <> infraNamespace.XML ->
  unbound (Some infraNamespace.XMLNS) (prefixMapAt map s) ->
  _serializeAttributesNS [defaultDeclaration X] map pi lpm false rwf nde s
  = (Normal more, s') ->
  more = [declarationTuple X nde].
Proof.
  intros HX Hun Hrun. unfold _serializeAttributesNS in Hrun.
  cbv zeta in Hrun. cbn [forEachAcc] in Hrun.
  apply bind_Normal_inv in Hrun as (acc & s1 & Hloop & Hret).
  injection Hret as <- _.
  apply bind_Normal_inv in Hloop as (acc' & s2 & Hstep & Hret).
  injection Hret as <- _.
  unfold _serializeAttributesNS_attr in Hstep. cbv zeta in Hstep.
  cbn [fst snd defaultDeclaration attr_namespaceURI attr_localName
       attr_value] in Hstep.
  rewrite (bool_decide_eq_false_2 (Some infraNamespace.XMLNS = None)) in Hstep
    by done.
  rewrite andb_false_r in Hstep.
  apply bind_Normal_inv in Hstep as ([] & s3 & Hdup & Hstep).
  apply throw_if_Normal_inv in Hdup as [_ ->].
  apply bind_Normal_inv in Hstep as (step & s4 & Hns & Hstep).
  apply (_serializeAttributesNS_namespaced_declaration X [] map pi lpm rwf
           nde s step s4 HX Hun) in Hns.
  subst step.
  apply bind_Normal_inv in Hstep as ([] & s5 & _ & Hstep).
  apply bind_Normal_inv in Hstep as (v & s6 & Hv & Hstep).
  apply _serializeAttributeValue_Normal in Hv. subst v.
  by injection Hstep as <- _.
Qed.

End DefaultNamespace.

Section DefaultNamespaceClaim.
Context `{XmlGrammar}.

(** The calls that an element's own tag contributes, in terms of the stages
    of its run. *)
Lemma _serializeNodeNS_Element_events ln p ns attrs cs namespace pm pi rwf nde
  s s' :
  _serializeNodeNS (Element ln p ns attrs cs) namespace pm pi rwf nde s
  = (Normal tt, s') ->
  exists s1 recorded s2 res s3 more s4 rest,
    let map := length (prefixMaps s) in
    prefixMapAt map s1 = prefixMapAt pm s
    /\ _recordNamespaceInformation attrs map ∅ s1 = (Normal recorded, s2)
    /\ _serializeElementNS_name ln p ns namespace recorded.1 recorded.2 map pi
         rwf nde s2
       = (Normal res, s3)
    /\ _serializeAttributesNS attrs map pi recorded.2
         (r_ignoreNamespaceDefinitionAttribute res) rwf nde s3
       = (Normal more, s4)
    /\ events s'
       = events s
         ++ [E_beginElement (r_qualifiedName res);
             E_openTagBegin (r_qualifiedName res);
             E_attributes (r_attributes res ++ more)]
         ++ rest.
Proof.
  intros Hrun.
  apply _serializeNodeNS_Element_stages in Hrun
    as (s1 & recorded & s2 & res & s3 & more & s4 & rest & Hrun).
  cbv zeta in Hrun. destruct Hrun as (Hmap & Hs1 & Hrec & Hname & Hpass & Hev).
  exists s1, recorded, s2, res, s3, more, s4, rest. cbv zeta.
  split_and!; [done .. |].
  destruct (_recordNamespaceInformation_silent attrs (length (prefixMaps s))
              ∅ s1 I) as [Hs2 _].
  rewrite Hrec in Hs2. unfold sameEvents in Hs2. cbn [snd] in Hs2.
  pose proof (_serializeElementNS_name_events ln p ns namespace recorded.1
                recorded.2 (length (prefixMaps s)) pi rwf nde s2) as Hs3.
  cbv zeta in Hs3. rewrite Hname in Hs3. cbn [fst snd] in Hs3.
  destruct (_serializeAttributesNS_silent attrs (length (prefixMaps s)) pi
              recorded.2 (r_ignoreNamespaceDefinitionAttribute res) rwf nde
              s3 I) as [Hs4 _].
  rewrite Hpass in Hs4. unfold sameEvents in Hs4. cbn [snd] in Hs4.
  rewrite Hev, Hs4, Hs3, Hs2, Hs1. unfold openTag.
  by rewrite <- !app_assoc.
Qed.

(** Default namespace declarations, as the code has them.
    (1) An element in namespace [X] that declares [xmlns="X"], serialized
    under a context namespace other than [X], emits that declaration once:
    the algorithm adds no default namespace declaration of its own, at most
    the declaration of the element's prefix.  ([X] is neither the XML nor
    the XMLNS namespace and no prefix in scope is bound to the XMLNS
    namespace.)
    (2) Under the context namespace [X] the same element emits no
    declaration at all: its own [xmlns="X"] is dropped.
    (3) An element without attributes whose namespace is the context
    namespace emits no declaration.
    (4) An element without attributes whose namespace [Y] is not the context
    namespace either reuses a prefix that the incoming prefix map binds to
    [Y] and declares nothing, or declares its prefix, or declares [Y] as the
    default namespace. *)
Theorem default_namespace_is_declared_at_most_once
  (localName X Y : jsstring) (prefix namespace : option jsstring)
  (childNodes : list Node) (prefixMap prefixIndex : ref)
  (requireWellFormed noDoubleEncoding : bool) (s s' : State) :
  (namespace <> Some X ->
   X <> infraNamespace.XML -> X <> infraNamespace.XMLNS ->
   unbound (Some infraNamespace.XMLNS) (prefixMapAt prefixMap s) ->
   _serializeNodeNS
     (Element localName prefix (Some X) [defaultDeclaration X] childNodes)
     namespace prefixMap prefixIndex requireWellFormed noDoubleEncoding s
   = (Normal tt, s') ->
   exists q decls rest,
     events s'
     = events s
       ++ [E_beginElement q; E_openTagBegin q;
           E_attributes (decls ++ [declarationTuple X noDoubleEncoding])]
       ++ rest
     /\ (decls = []
         \/ exists p',
              prefix <> None
              /\ decls = [(None, Some (lit "xmlns"), p',
                           attributeValueMarkup X noDoubleEncoding)]))
  /\ (_serializeNodeNS
        (Element localName prefix (Some X) [defaultDeclaration X] childNodes)
        (Some X) prefixMap prefixIndex requireWellFormed noDoubleEncoding s
      = (Normal tt, s') ->
      exists q rest,
        events s'
        = events s
          ++ [E_beginElement q; E_openTagBegin q; E_attributes []] ++ rest)
  /\ (_serializeNodeNS (Element localName prefix namespace [] childNodes)
        namespace prefixMap prefixIndex requireWellFormed noDoubleEncoding s
      = (Normal tt, s') ->
      exists q rest,
        events s'
        = events s
          ++ [E_beginElement q; E_openTagBegin q; E_attributes []] ++ rest)
  /\ (namespace <> Some Y ->
      _serializeNodeNS (Element localName prefix (Some Y) [] childNodes)
        namespace prefixMap prefixIndex requireWellFormed noDoubleEncoding s
      = (Normal tt, s') ->
      exists q attrs rest,
        events s'
        = events s
          ++ [E_beginElement q; E_openTagBegin q; E_attributes attrs] ++ rest
        /\ ((exists c,
               q = c ++ lit ":" ++ localName /\ attrs = []
               /\ (prefixMapAt prefixMap s !! c = Some (Some Y)
                   \/ (prefix = Some (lit "xmlns") /\ c = lit "xmlns")))
            \/ (exists p',
                  prefix <> None
                  /\ q = p' ++ lit ":" ++ localName
                  /\ attrs = [(None, Some (lit "xmlns"), p',
                               attributeValueMarkup Y noDoubleEncoding)])
            \/ (prefix = None /\ q = localName
                /\ attrs = [(None, None, lit "xmlns",
                             attributeValueMarkup Y noDoubleEncoding)]))).
Proof.
  split_and!.
  - intros Hctx HXML HXMLNS Hun Hrun.
    apply _serializeNodeNS_Element_events in Hrun
      as (s1 & recorded & s2 & res & s3 & more & s4 & rest & Hrun).
    cbv zeta in Hrun. destruct Hrun as (Hmap & Hrec & Hname & Hpass & Hev).
    rewrite _recordNamespaceInformation_declaration in Hrec.
    injection Hrec as <- <-. cbn [fst snd] in Hname, Hpass.
    assert (unbound (Some infraNamespace.XMLNS)
              (prefixMapAt (length (prefixMaps s)) s3)) as Hun3.
    { pose proof (_serializeElementNS_name_unbound
                    (Some infraNamespace.XMLNS) localName prefix (Some X)
                    namespace (Some X) ∅ (length (prefixMaps s)) prefixIndex
                    requireWellFormed noDoubleEncoding s1) as Hkeep.
      rewrite Hname in Hkeep. apply Hkeep; [congruence |].
      by rewrite Hmap. }
    apply _serializeElementNS_name_cases in Hname as Hcases; [|done].
    assert (r_ignoreNamespaceDefinitionAttribute res = false
            /\ (r_attributes res = []
                \/ exists p',
                     prefix <> None
                     /\ r_attributes res
                        = [(None, Some (lit "xmlns"), p',
                            attributeValueMarkup X noDoubleEncoding)]))
      as [Hign Hdecl].
    { destruct Hcases as [(c & _ & _ & Ha & Hi)
                         |[(p' & Hp & _ & Ha & Hi)
                          |[(_ & [Hl|Hl] & _)|(_ & _ & _ & _ & Ha & Hi & _)]]].
      - split; [done | by left].
      - split; [done | right; by exists p'].
      - discriminate.
      - done.
      - split; [done | by left]. }
    rewrite Hign in Hpass.
    apply _serializeAttributesNS_declaration_kept in Hpass; [|done ..].
    subst more. by eexists _, _, _.
  - intros Hrun.
    apply _serializeNodeNS_Element_events in Hrun
      as (s1 & recorded & s2 & res & s3 & more & s4 & rest & Hrun).
    cbv zeta in Hrun. destruct Hrun as (Hmap & Hrec & Hname & Hpass & Hev).
    rewrite _recordNamespaceInformation_declaration in Hrec.
    injection Hrec as <- <-. cbn [fst snd] in Hname, Hpass.
    rewrite _serializeElementNS_name_same in Hname.
    injection Hname as <- <-.
    cbn [r_ignoreNamespaceDefinitionAttribute r_attributes r_qualifiedName]
      in Hpass, Hev.
    rewrite ?bool_decide_eq_true_2 in Hpass by done.
    rewrite _serializeAttributesNS_declaration_ignored in Hpass.
    injection Hpass as <- <-. by eexists _, _.
  - intros Hrun.
    apply _serializeNodeNS_Element_events in Hrun
      as (s1 & recorded & s2 & res & s3 & more & s4 & rest & Hrun).
    cbv zeta in Hrun. destruct Hrun as (Hmap & Hrec & Hname & Hpass & Hev).
    injection Hrec as <- <-. cbn [fst snd] in Hname, Hpass.
    rewrite _serializeElementNS_name_same in Hname.
    injection Hname as <- <-.
    cbn [r_ignoreNamespaceDefinitionAttribute r_attributes r_qualifiedName]
      in Hpass, Hev.
    injection Hpass as <- <-. by eexists _, _.
  - intros Hctx Hrun.
    apply _serializeNodeNS_Element_events in Hrun
      as (s1 & recorded & s2 & res & s3 & more & s4 & rest & Hrun).
    cbv zeta in Hrun. destruct Hrun as (Hmap & Hrec & Hname & Hpass & Hev).
    injection Hrec as <- <-. cbn [fst snd] in Hname, Hpass.
    injection Hpass as <- <-. rewrite app_nil_r in Hev.
    apply _serializeElementNS_name_cases in Hname as Hcases; [|done].
    eexists _, _, _. split; [exact Hev |].
    destruct Hcases as [(c & Hc & Hq & Ha & _)
                       |[(p' & Hp & Hq & Ha & _)
                        |[(Hp & _ & Hq & Ha & _)|(_ & Hl & _)]]].
    + left. exists c. split_and!; [done .. |].
      destruct Hc as [Hc|Hc]; [left | by right].
      apply get_Some in Hc. by rewrite Hmap in Hc.
    + right; left. by exists p'.
    + right; right. done.
    + discriminate.
Qed.

End DefaultNamespaceClaim.


Lemma default_namespace_is_declared_at_most_once_witness :
  let X := lit "urn:a" in
  let s :=
    (NamespacePrefixMap_set 0%nat (lit "xml") (Some infraNamespace.XML)
       (NamespacePrefixMap_new initialState).2).2 in
  let w := _serializeNodeNS (H := XML10.grammar)
             (Element (lit "root") None (Some X) [defaultDeclaration X] [])
             None 0%nat 0%nat true false s in
  None <> Some X /\ X <> infraNamespace.XML /\ X <> infraNamespace.XMLNS
  /\ unbound (Some infraNamespace.XMLNS) (prefixMapAt 0%nat s)
  /\ w = (Normal tt, w.2)
  /\ exists q decls rest,
       events w.2
       = events s
         ++ [E_beginElement q; E_openTagBegin q;
             E_attributes (decls ++ [declarationTuple X false])]
         ++ rest.
Proof.
  intros X s w.
  assert (None <> Some X) as Hctx by discriminate.
  assert (X <> infraNamespace.XML) as Hxml
    by (intros Heq; vm_compute in Heq; discriminate).
  assert (X <> infraNamespace.XMLNS) as Hxmlns
    by (intros Heq; vm_compute in Heq; discriminate).
  assert (unbound (Some infraNamespace.XMLNS) (prefixMapAt 0%nat s)) as Hun.
  { subst s. rewrite prefixMapAt_set. cbn [length]. 
    rewrite decide_True by (cbn; lia).
    apply unbound_set; [|apply unbound_empty].
    intros Heq. injection Heq as Heq. vm_compute in Heq. discriminate. }
  assert (w = (Normal tt, w.2)) as Hw by (vm_compute; reflexivity).
  split_and!; [exact Hctx | exact Hxml | exact Hxmlns | exact Hun | exact Hw |].
  destruct (default_namespace_is_declared_at_most_once (H := XML10.grammar)
              (lit "root") X X None None [] 0%nat 0%nat true false s w.2)
    as (Hfirst & _).
  destruct (Hfirst Hctx Hxml Hxmlns Hun Hw) as (q & decls & rest & Hev & _).
  by exists q, decls, rest.
Defined.

(** * Further properties of the serializer *)

(** ** Character escaping *)

(** The code units of the replacement strings. *)
Lemma lit_entities :
  lit "&amp;" = [38; 97; 109; 112; 59]%N
  /\ lit "&lt;" = [38; 108; 116; 59]%N
  /\ lit "&gt;" = [38; 103; 116; 59]%N
  /\ lit "&quot;" = [38; 113; 117; 111; 116; 59]%N
  /\ lit "&#x9;" = [38; 35; 120; 57; 59]%N
  /\ lit "&#xA;" = [38; 35; 120; 65; 59]%N
  /\ lit "&#xD;" = [38; 35; 120; 68; 59]%N.
Proof. by vm_compute. Qed.

(** The per-character loops build the concatenation of the images of the
    characters. *)
Lemma appendEach_flat_map (f : N -> jsstring) (s : jsstring) :
  appendEach f s = flat_map f s.
Proof.
  unfold appendEach.
  assert (forall acc, fold_left (fun r c => r ++ f c) s acc
                      = acc ++ flat_map f s) as Hgen.
  { induction s as [|c s IH]; intros acc; cbn [fold_left flat_map].
    - by rewrite app_nil_r.
    - by rewrite IH, app_assoc. }
  apply Hgen.
Qed.

(** A replacement string that does not contain [c] leaves no [c] behind. *)
Lemma replaceAll_removes (c : N) (by_ : string) (s : jsstring) :
  c ∉ lit by_ -> c ∉ replaceAll c by_ s.
Proof.
  intros Hby. induction s as [|x s IH]; cbn [replaceAll].
  - apply not_elem_of_nil.
  - destruct (N.eqb_spec x c) as [->|Hne].
    + rewrite elem_of_app. tauto.
    + rewrite elem_of_cons. intros [->|Hin]; [done | tauto].
Qed.

(** A replacement keeps out the characters that neither the string nor the
    replacement contain. *)
Lemma replaceAll_keeps_out (d c : N) (by_ : string) (s : jsstring) :
  d ∉ lit by_ -> d ∉ s -> d ∉ replaceAll c by_ s.
Proof.
  intros Hby. induction s as [|x s IH]; cbn [replaceAll]; [done |].
  rewrite not_elem_of_cons. intros [Hdx Hds].
  destruct (N.eqb x c).
  - rewrite elem_of_app. tauto.
  - rewrite elem_of_cons. intros [->|Hin]; [done | tauto].
Qed.

(** Replacing a character that does not occur changes nothing. *)
Lemma replaceAll_absent (c : N) (by_ : string) (s : jsstring) :
  c ∉ s -> replaceAll c by_ s = s.
Proof.
  induction s as [|x s IH]; cbn [replaceAll]; [done |].
  rewrite not_elem_of_cons. intros [Hcx Hcs].
  destruct (N.eqb_spec x c) as [->|Hne]; [done |].
  by rewrite IH.
Qed.

Lemma replaceBareAmpersands_keeps_out (d : N) (s : jsstring) :
  d ∉ lit "&amp;" -> d ∉ s -> d ∉ replaceBareAmpersands s.
Proof.
  intros Hby. induction s as [|x s IH]; cbn [replaceBareAmpersands]; [done |].
  rewrite not_elem_of_cons. intros [Hdx Hds].
  destruct (N.eqb x AMP && _).
  - rewrite elem_of_app. tauto.
  - rewrite elem_of_cons. intros [->|Hin]; [done | tauto].
Qed.

Lemma flat_map_keeps_out (d : N) (f : N -> jsstring) (s : jsstring) :
  (forall c, d ∉ f c) -> d ∉ flat_map f s.
Proof.
  intros Hf. induction s as [|c s IH]; cbn [flat_map].
  - apply not_elem_of_nil.
  - rewrite elem_of_app. specialize (Hf c). tauto.
Qed.

(** Decides that a character does not occur in a literal. *)
Ltac not_in_lit :=
  let Hin := fresh "Hin" in
  intros Hin; vm_compute in Hin;
  repeat (apply elem_of_cons in Hin as [Hin|Hin]; [discriminate |]);
  by apply elem_of_nil in Hin.

(** Finds the replacement that removed the character. *)
Ltac no_occurrence :=
  repeat first [ apply replaceAll_removes; not_in_lit
               | apply replaceAll_keeps_out; [not_in_lit |] ].

Lemma escapeAttributeChar_safe (c : N) :
  (QUOT ∉ escapeAttributeChar c) /\ (LT ∉ escapeAttributeChar c)
  /\ (GT ∉ escapeAttributeChar c).
Proof.
  unfold escapeAttributeChar.
  destruct (N.eqb_spec c QUOT) as [->|Hq]; [split_and!; not_in_lit |].
  destruct (N.eqb_spec c AMP) as [->|Ha]; [split_and!; not_in_lit |].
  destruct (N.eqb_spec c LT) as [->|Hl]; [split_and!; not_in_lit |].
  destruct (N.eqb_spec c GT) as [->|Hg]; [split_and!; not_in_lit |].
  split_and!; rewrite list_elem_of_singleton; congruence.
Qed.

Lemma escapeTextChar_safe (c : N) :
  (LT ∉ escapeTextChar c) /\ (GT ∉ escapeTextChar c).
Proof.
  unfold escapeTextChar.
  destruct (N.eqb_spec c AMP) as [->|Ha]; [split_and!; not_in_lit |].
  destruct (N.eqb_spec c LT) as [->|Hl]; [split_and!; not_in_lit |].
  destruct (N.eqb_spec c GT) as [->|Hg]; [split_and!; not_in_lit |].
  split_and!; rewrite list_elem_of_singleton; congruence.
Qed.

Section EscapingSafe.
Context `{XmlGrammar}.

(** The value returned by [_serializeAttributeValue], in either encoding
    mode, contains neither a double quote nor a [<]: it can be written
    between double quotes as it is. *)
Theorem attribute_value_markup_has_no_quote_or_lt
  (value : option jsstring) (requireWellFormed noDoubleEncoding : bool)
  (s : State) :
  match (_serializeAttributeValue value requireWellFormed noDoubleEncoding s).1
  with
  | Normal markup => (QUOT ∉ markup) /\ (LT ∉ markup)
  | Throw _ => True
  end.
Proof.
  unfold _serializeAttributeValue. rewrite bind_run. unfold throw_if.
  destruct (requireWellFormed && _); cbn [throw ret fst snd]; [done |].
  destruct value as [v|]; cbn [ret fst].
  2:{ split; apply not_elem_of_nil. }
  unfold attributeValueMarkup. destruct noDoubleEncoding; cbv zeta.
  - split; no_occurrence.
  - rewrite appendEach_flat_map.
    split; apply flat_map_keeps_out; intros c; apply escapeAttributeChar_safe.
Qed.

(** Whatever [_serializeText] hands to the sink contains neither [<] nor
    [>]; when it throws, the sink has received nothing. *)
Theorem text_markup_has_no_angle_bracket
  (data : jsstring) (requireWellFormed noDoubleEncoding : bool) (s : State) :
  let r := _serializeText data requireWellFormed noDoubleEncoding s in
  match r.1 with
  | Normal _ =>
      exists markup,
        events r.2 = events s ++ [E_text markup]
        /\ (LT ∉ markup) /\ (GT ∉ markup)
  | Throw _ => events r.2 = events s
  end.
Proof.
  unfold _serializeText. cbv zeta. rewrite bind_run. unfold throw_if.
  destruct (requireWellFormed && _); cbn [throw ret fst snd]; [done |].
  eexists. split; [reflexivity |].
  destruct noDoubleEncoding.
  - split.
    + no_occurrence.
    + no_occurrence.
  - rewrite appendEach_flat_map.
    split; apply flat_map_keeps_out; intros c; apply escapeTextChar_safe.
Qed.

End EscapingSafe.

(** *** The default mode loses nothing *)

(** A character-wise encoding whose images are non-empty and determine the
    character from any text they start is injective. *)
Lemma flat_map_inj (f : N -> jsstring) :
  (forall c, f c <> []) ->
  (forall c d x y, f c ++ x = f d ++ y -> c = d) ->
  forall s t, flat_map f s = flat_map f t -> s = t.
Proof.
  intros Hne Hhead. induction s as [|c s IH]; intros [|d t] Hst;
    cbn [flat_map] in Hst.
  - done.
  - symmetry in Hst. apply app_eq_nil in Hst as [Hd _]. by apply Hne in Hd.
  - apply app_eq_nil in Hst as [Hc _]. by apply Hne in Hc.
  - pose proof (Hhead _ _ _ _ Hst) as ->.
    apply app_inv_head in Hst. f_equal. by apply IH.
Qed.

(** Unfolds the entities in the goal and the hypotheses. *)
Ltac unfold_entities :=
  let Ha := fresh in let Hl := fresh in let Hg := fresh in
  let Hq := fresh in let Ht := fresh in let Hn := fresh in
  let Hr := fresh in
  destruct lit_entities as (Ha & Hl & Hg & Hq & Ht & Hn & Hr);
  rewrite ?Ha, ?Hl, ?Hg, ?Hq, ?Ht, ?Hn, ?Hr in *;
  clear Ha Hl Hg Hq Ht Hn Hr.

Lemma escapeAttributeChar_head (c d : N) (x y : jsstring) :
  escapeAttributeChar c ++ x = escapeAttributeChar d ++ y -> c = d.
Proof.
  unfold escapeAttributeChar, QUOT, AMP, LT, GT. unfold_entities.
  destruct (N.eqb_spec c 34), (N.eqb_spec c 38), (N.eqb_spec c 60),
    (N.eqb_spec c 62), (N.eqb_spec d 34), (N.eqb_spec d 38),
    (N.eqb_spec d 60), (N.eqb_spec d 62);
    cbn [app]; intros [=]; congruence.
Qed.

Lemma escapeTextChar_head (c d : N) (x y : jsstring) :
  escapeTextChar c ++ x = escapeTextChar d ++ y -> c = d.
Proof.
  unfold escapeTextChar, AMP, LT, GT. unfold_entities.
  destruct (N.eqb_spec c 38), (N.eqb_spec c 60), (N.eqb_spec c 62),
    (N.eqb_spec d 38), (N.eqb_spec d 60), (N.eqb_spec d 62);
    cbn [app]; intros [=]; congruence.
Qed.

Lemma escapeAttributeChar_nonempty (c : N) : escapeAttributeChar c <> [].
Proof.
  unfold escapeAttributeChar. unfold_entities.
  repeat case_match; discriminate.
Qed.

Lemma escapeTextChar_nonempty (c : N) : escapeTextChar c <> [].
Proof.
  unfold escapeTextChar. unfold_entities.
  repeat case_match; discriminate.
Qed.

Section EscapingInjective.
Context `{XmlGrammar}.

(** With [noDoubleEncoding] off, two attribute values that
    [_serializeAttributeValue] turns into the same markup are the same
    value. *)
Theorem attribute_value_escaping_is_injective
  (v1 v2 : jsstring) (rwf1 rwf2 : bool) (s1 s1' s2 s2' : State)
  (markup : jsstring) :
  _serializeAttributeValue (Some v1) rwf1 false s1 = (Normal markup, s1') ->
  _serializeAttributeValue (Some v2) rwf2 false s2 = (Normal markup, s2') ->
  v1 = v2.
Proof.
  unfold _serializeAttributeValue. intros Hrun1 Hrun2.
  apply bind_Normal_inv in Hrun1 as ([] & ? & _ & Hrun1).
  apply bind_Normal_inv in Hrun2 as ([] & ? & _ & Hrun2).
  injection Hrun1 as <- _. injection Hrun2 as Heq _.
  unfold attributeValueMarkup in Heq. rewrite !appendEach_flat_map in Heq.
  symmetry. eapply flat_map_inj; [| |exact Heq].
  - apply escapeAttributeChar_nonempty.
  - apply escapeAttributeChar_head.
Qed.

(** With [noDoubleEncoding] off, two text nodes for which [_serializeText]
    makes the same call of the sink have the same data. *)
Theorem text_escaping_is_injective
  (d1 d2 : jsstring) (rwf1 rwf2 : bool) (s s' : State) :
  _serializeText d1 rwf1 false s = (Normal tt, s') ->
  _serializeText d2 rwf2 false s = (Normal tt, s') ->
  d1 = d2.
Proof.
  unfold _serializeText. cbv zeta. intros Hrun1 Hrun2.
  apply bind_Normal_inv in Hrun1 as ([] & ? & Hc1 & Hrun1).
  apply bind_Normal_inv in Hrun2 as ([] & ? & Hc2 & Hrun2).
  apply throw_if_Normal_inv in Hc1 as [_ ->].
  apply throw_if_Normal_inv in Hc2 as [_ ->].
  injection Hrun1 as <-. injection Hrun2 as Heq.
  apply app_inv_head in Heq. injection Heq as Heq.
  rewrite !appendEach_flat_map in Heq.
  symmetry. eapply flat_map_inj; [| |exact Heq].
  - apply escapeTextChar_nonempty.
  - apply escapeTextChar_head.
Qed.

End EscapingInjective.

Lemma attribute_value_escaping_is_injective_witness :
  _serializeAttributeValue (H := XML10.grammar) (Some (lit "a<b")) true false
    initialState
  = (Normal (lit "a&lt;b"), initialState)
  /\ lit "a<b" = lit "a<b".
Proof.
  assert (_serializeAttributeValue (H := XML10.grammar) (Some (lit "a<b"))
            true false initialState
          = (Normal (lit "a&lt;b"), initialState)) as Hrun
    by (vm_compute; reflexivity).
  split; [exact Hrun |].
  exact (attribute_value_escaping_is_injective (H := XML10.grammar)
           (lit "a<b") (lit "a<b") true true initialState initialState
           initialState initialState (lit "a&lt;b") Hrun Hrun).
Defined.

Lemma text_escaping_is_injective_witness :
  _serializeText (H := XML10.grammar) (lit "a<b") true false initialState
  = (Normal tt, with_event (E_text (lit "a&lt;b")) initialState)
  /\ lit "a<b" = lit "a<b".
Proof.
  assert (_serializeText (H := XML10.grammar) (lit "a<b") true false
            initialState
          = (Normal tt, with_event (E_text (lit "a&lt;b")) initialState))
    as Hrun by (vm_compute; reflexivity).
  split; [exact Hrun |].
  exact (text_escaping_is_injective (H := XML10.grammar)
           (lit "a<b") (lit "a<b") true true initialState _ Hrun Hrun).
Defined.

(** *** [noDoubleEncoding] encodes once *)

(** Every ampersand of the string starts a text that the lookahead
    [&\S+;] matches. *)
Fixpoint ampersandsEncoded (s : jsstring) : Prop :=
  match s with
  | [] => True
  | c :: s' =>
      (c = AMP -> nonSpaceThenSemicolon false s' = true)
      /\ ampersandsEncoded s'
  end.

(** What is asked of a replacement string [e]: put in front of any text it
    completes a match of [\S+;], and its own ampersands are encoded. *)
Definition isEntity (e : jsstring) : Prop :=
  (forall seen x, nonSpaceThenSemicolon seen (e ++ x) = true)
  /\ (forall x, ampersandsEncoded x -> ampersandsEncoded (e ++ x)).

Lemma lit_isEntity :
  isEntity (lit "&amp;") /\ isEntity (lit "&lt;") /\ isEntity (lit "&gt;")
  /\ isEntity (lit "&quot;") /\ isEntity (lit "&#x9;")
  /\ isEntity (lit "&#xA;") /\ isEntity (lit "&#xD;").
Proof.
  unfold isEntity. unfold_entities.
  split_and!; try (by intros [] x); intros x Hx; cbn; split_and!;
    by (done || (intros [=])).
Qed.

Lemma nonSpaceThenSemicolon_replaceBareAmpersands (seen : bool) (s : jsstring) :
  nonSpaceThenSemicolon seen s = true ->
  nonSpaceThenSemicolon seen (replaceBareAmpersands s) = true.
Proof.
  destruct lit_isEntity as [[Hamp _] _].
  revert seen. induction s as [|c s IH]; intros seen; [done |].
  cbn [replaceBareAmpersands].
  destruct (N.eqb c AMP && _); [intros _; apply Hamp |].
  cbn [nonSpaceThenSemicolon]. destruct (isWhiteSpace c); [done |].
  rewrite !orb_true_iff. intros [Hsemi|Hrest]; [by left | right; by apply IH].
Qed.

Lemma replaceBareAmpersands_encoded (s : jsstring) :
  ampersandsEncoded (replaceBareAmpersands s).
Proof.
  destruct lit_isEntity as [[_ Hamp] _].
  induction s as [|c s IH]; [done |]. cbn [replaceBareAmpersands].
  destruct (N.eqb_spec c AMP) as [->|Hne]; cbn [andb].
  - destruct (nonSpaceThenSemicolon false s) eqn:Hs; cbn [negb].
    + split; [|done]. intros _.
      by apply nonSpaceThenSemicolon_replaceBareAmpersands.
    + by apply Hamp.
  - by split.
Qed.

(** A string whose ampersands are all encoded is left as it is. *)
Lemma replaceBareAmpersands_fixed (s : jsstring) :
  ampersandsEncoded s -> replaceBareAmpersands s = s.
Proof.
  induction s as [|c s IH]; [done |]. intros [Hc Hs].
  cbn [replaceBareAmpersands].
  destruct (N.eqb_spec c AMP) as [->|Hne]; cbn [andb].
  - rewrite Hc by done. cbn [negb]. by rewrite IH.
  - by rewrite IH.
Qed.

Lemma nonSpaceThenSemicolon_replaceAll (seen : bool) (c : N) (by_ : string)
  (s : jsstring) :
  isEntity (lit by_) ->
  nonSpaceThenSemicolon seen s = true ->
  nonSpaceThenSemicolon seen (replaceAll c by_ s) = true.
Proof.
  intros [Hby _]. revert seen. induction s as [|x s IH]; intros seen; [done |].
  cbn [replaceAll]. destruct (N.eqb x c); [intros _; apply Hby |].
  cbn [nonSpaceThenSemicolon]. destruct (isWhiteSpace x); [done |].
  rewrite !orb_true_iff. intros [Hsemi|Hrest]; [by left | right; by apply IH].
Qed.

Lemma replaceAll_encoded (c : N) (by_ : string) (s : jsstring) :
  isEntity (lit by_) ->
  ampersandsEncoded s -> ampersandsEncoded (replaceAll c by_ s).
Proof.
  intros Hent. induction s as [|x s IH]; [done |]. intros [Hx Hs].
  cbn [replaceAll]. destruct (N.eqb x c).
  - apply Hent. by apply IH.
  - split; [|by apply IH]. intros Hamp.
    apply nonSpaceThenSemicolon_replaceAll; [done | by apply Hx].
Qed.

(** The text that [_serializeText] hands to the sink. *)
Definition textMarkup (data : jsstring) (noDoubleEncoding : bool) : jsstring :=
  if noDoubleEncoding then
    replaceAll CR "&#xD;"
      (replaceAll GT "&gt;" (replaceAll LT "&lt;" (replaceBareAmpersands data)))
  else appendEach escapeTextChar data.

Section EncodesOnce.
Context `{XmlGrammar}.

Lemma _serializeText_lenient (data : jsstring) (nde : bool) (s : State) :
  _serializeText data false nde s
  = (Normal tt, with_event (E_text (textMarkup data nde)) s).
Proof. reflexivity. Qed.

(** Markup without bare ampersands and without the replaced characters is
    a fixed point. *)
Lemma attributeValueMarkup_fixed (m : jsstring) :
  ampersandsEncoded m ->
  LT ∉ m -> QUOT ∉ m -> TAB ∉ m -> LF ∉ m -> CR ∉ m ->
  attributeValueMarkup m true = m.
Proof.
  intros Henc Hlt Hquot Htab Hlf Hcr. unfold attributeValueMarkup. cbv zeta.
  rewrite (replaceBareAmpersands_fixed m Henc).
  rewrite (replaceAll_absent LT) by done.
  rewrite (replaceAll_absent QUOT) by done.
  rewrite (replaceAll_absent TAB) by done.
  rewrite (replaceAll_absent LF) by done.
  by rewrite (replaceAll_absent CR).
Qed.

Lemma textMarkup_fixed (m : jsstring) :
  ampersandsEncoded m -> LT ∉ m -> GT ∉ m -> CR ∉ m ->
  textMarkup m true = m.
Proof.
  intros Henc Hlt Hgt Hcr. unfold textMarkup.
  rewrite (replaceBareAmpersands_fixed m Henc).
  rewrite (replaceAll_absent LT) by done.
  rewrite (replaceAll_absent GT) by done.
  by rewrite (replaceAll_absent CR).
Qed.

(** With [noDoubleEncoding] on, [_serializeAttributeValue] returns its own
    results unchanged: markup that it produced is not encoded a second
    time. *)
Theorem noDoubleEncoding_attribute_value_is_idempotent
  (value markup : jsstring) (rwf : bool) (s s' t : State) :
  _serializeAttributeValue (Some value) rwf true s = (Normal markup, s') ->
  _serializeAttributeValue (Some markup) false true t = (Normal markup, t).
Proof.
  destruct lit_isEntity as (Hamp & Hlt & Hgt & Hquot & Htab & Hlf & Hcr).
  unfold _serializeAttributeValue at 1. intros Hrun.
  apply bind_Normal_inv in Hrun as ([] & ? & _ & Hrun).
  injection Hrun as <- _.
  rewrite _serializeAttributeValue_lenient. f_equal. f_equal.
  apply attributeValueMarkup_fixed; unfold attributeValueMarkup; cbv zeta;
    [| no_occurrence ..].
  repeat (apply replaceAll_encoded; [done |]).
  apply replaceBareAmpersands_encoded.
Qed.

(** With [noDoubleEncoding] on, the text that [_serializeText] wrote for a
    node is written unchanged when it is the data of a text node itself. *)
Theorem noDoubleEncoding_text_is_idempotent
  (data markup : jsstring) (rwf : bool) (s s' t : State) :
  _serializeText data rwf true s = (Normal tt, s') ->
  events s' = events s ++ [E_text markup] ->
  _serializeText markup false true t
  = (Normal tt, with_event (E_text markup) t).
Proof.
  destruct lit_isEntity as (Hamp & Hlt & Hgt & Hquot & Htab & Hlf & Hcr).
  unfold _serializeText at 1. cbv zeta. intros Hrun Hev.
  apply bind_Normal_inv in Hrun as ([] & ? & Hc & Hrun).
  apply throw_if_Normal_inv in Hc as [_ ->].
  injection Hrun as <-. cbn [events with_event] in Hev.
  apply app_inv_head in Hev. injection Hev as <-.
  rewrite _serializeText_lenient. do 3 f_equal.
  apply textMarkup_fixed; [| no_occurrence ..].
  repeat (apply replaceAll_encoded; [done |]).
  apply replaceBareAmpersands_encoded.
Qed.

End EncodesOnce.

Lemma noDoubleEncoding_attribute_value_is_idempotent_witness :
  _serializeAttributeValue (H := XML10.grammar) (Some (lit "a & b &amp; <"))
    true true initialState
  = (Normal (lit "a &amp; b &amp; &lt;"), initialState)
  /\ _serializeAttributeValue (H := XML10.grammar)
       (Some (lit "a &amp; b &amp; &lt;")) false true initialState
     = (Normal (lit "a &amp; b &amp; &lt;"), initialState).
Proof.
  assert (_serializeAttributeValue (H := XML10.grammar)
            (Some (lit "a & b &amp; <")) true true initialState
          = (Normal (lit "a &amp; b &amp; &lt;"), initialState)) as Hrun
    by (vm_compute; reflexivity).
  split; [exact Hrun |].
  exact (noDoubleEncoding_attribute_value_is_idempotent (H := XML10.grammar)
           (lit "a & b &amp; <") (lit "a &amp; b &amp; &lt;") true
           initialState initialState initialState Hrun).
Defined.

Lemma noDoubleEncoding_text_is_idempotent_witness :
  let s' := with_event (E_text (lit "a &amp; b &amp; &lt;")) initialState in
  _serializeText (H := XML10.grammar) (lit "a & b &amp; <") true true
    initialState
  = (Normal tt, s')
  /\ events s' = events initialState ++ [E_text (lit "a &amp; b &amp; &lt;")]
  /\ _serializeText (H := XML10.grammar) (lit "a &amp; b &amp; &lt;") false
       true initialState
     = (Normal tt, s').
Proof.
  intros s'.
  assert (_serializeText (H := XML10.grammar) (lit "a & b &amp; <") true true
            initialState
          = (Normal tt, s')) as Hrun by (vm_compute; reflexivity).
  assert (events s'
          = events initialState ++ [E_text (lit "a &amp; b &amp; &lt;")])
    as Hev by reflexivity.
  split_and!; [exact Hrun | exact Hev |].
  exact (noDoubleEncoding_text_is_idempotent (H := XML10.grammar)
           (lit "a & b &amp; <") (lit "a &amp; b &amp; &lt;") true
           initialState s' initialState Hrun Hev).
Defined.

(** ** Character data, processing instructions and document types *)

Definition cdataMessage : jsstring :=
  lit "CDATA contains invalid characters (well-formed required).".

Definition instructionTargetMessage : jsstring :=
  lit "Processing instruction target contains invalid characters (well-formed required).".

Definition instructionDataMessage : jsstring :=
  lit "Processing instruction data contains invalid characters (well-formed required).".

Definition publicIdMessage : jsstring :=
  lit "DocType public identifier does not match PubidChar construct (well-formed required).".

Definition systemIdMessage : jsstring :=
  lit "DocType system identifier contains invalid characters (well-formed required).".

Section LeafNodes.
Context `{XmlGrammar}.

(** What [serializeNode] does with a node whose serialization is a sequence
    of checks followed by one call of the sink. *)
Lemma serializeNode_checked_leaf (hasNamespaces : bool) (node : Node)
  (rwf nde : bool) (leaf : M unit) (s : State) :
  (forall namespace pm pi s0,
      _serializeNodeNS node namespace pm pi rwf nde s0
      = leaf (with_currentNode node s0)) ->
  (forall s0, _serializeNode node rwf nde s0
              = leaf (with_currentNode node s0)) ->
  exists s0,
    events s0 = events s
    /\ (serializeNode hasNamespaces node rwf nde s).1
       = match (leaf s0).1 with
         | Normal a => Normal a
         | Throw e => Throw (InvalidStateError (message e))
         end
    /\ events (serializeNode hasNamespaces node rwf nde s).2
       = events (leaf s0).2.
Proof.
  intros HNS Hfast. unfold serializeNode. destruct hasNamespaces.
  - cbv beta iota zeta delta [bind modify NamespacePrefixMap_new
      NamespacePrefixMap_alloc NamespacePrefixMap_set PrefixIndex_new
      try_catch throw].
    rewrite HNS.
    match goal with |- context [leaf ?st] => exists st end.
    split; [reflexivity |].
    destruct (leaf _) as [[[]|e] s1]; split; reflexivity.
  - cbv beta iota zeta delta [bind modify try_catch throw]. rewrite Hfast.
    match goal with |- context [leaf ?st] => exists st end.
    split; [reflexivity |].
    destruct (leaf _) as [[[]|e] s1]; split; reflexivity.
Qed.

(** A CDATA section is rejected exactly when [requireWellFormed] is set and
    its data contains the end marker [[]]>]; the sink then receives nothing.
    In every other case it receives one [cdata] call with the data
    unchanged. *)
Theorem cdata_rejected_iff_it_contains_the_end_marker
  (hasNamespaces : bool) (data : jsstring)
  (requireWellFormed noDoubleEncoding : bool) (s : State) :
  let r := serializeNode hasNamespaces (CDATASection data) requireWellFormed
             noDoubleEncoding s in
  let rejected :=
    requireWellFormed = true /\ exists a b, data = a ++ lit "]]>" ++ b in
  (rejected ->
   r.1 = Throw (InvalidStateError cdataMessage) /\ events r.2 = events s)
  /\ (~ rejected ->
      r.1 = Normal tt /\ events r.2 = events s ++ [E_cdata data]).
Proof.
  cbv zeta.
  destruct (serializeNode_checked_leaf hasNamespaces (CDATASection data)
              requireWellFormed noDoubleEncoding
              (_serializeCData data requireWellFormed noDoubleEncoding) s)
    as (s0 & Hs0 & Hout & Hev); [done | done |].
  rewrite Hout, Hev, <- Hs0. clear Hout Hev.
  unfold _serializeCData, throw_if, bind, cdata, emit, modify.
  pose proof (indexOf_found data (lit "]]>")) as Hfound.
  destruct requireWellFormed; cbn [andb].
  - destruct (indexOf data (lit "]]>") =? -1); cbn [negb fst snd throw ret].
    + split; [|done]. intros [_ Hex]. apply Hfound in Hex. discriminate.
    + split; [done |]. intros Hn. destruct Hn. split; [done |].
      by apply Hfound.
  - cbn [fst snd ret]. split; [intros [? _]; discriminate | done].
Qed.

(** A processing instruction is rejected exactly when [requireWellFormed] is
    set and the target contains a colon or is [xml] in any letter case, or
    the data has an illegal character or contains [?>]; the target is
    checked first.  The sink then receives nothing.  In every other case it
    receives one [instruction] call with target and data unchanged. *)
Theorem instruction_rejected_iff_malformed
  (hasNamespaces : bool) (target data : jsstring)
  (requireWellFormed noDoubleEncoding : bool) (s : State) :
  let r := serializeNode hasNamespaces (ProcessingInstruction target data)
             requireWellFormed noDoubleEncoding s in
  let badTarget :=
    (exists a b, target = a ++ lit ":" ++ b)
    \/ List.map asciiLower target = lit "xml" in
  let badData :=
    xml_isLegalChar data = false \/ exists a b, data = a ++ lit "?>" ++ b in
  (requireWellFormed = true /\ badTarget ->
   r.1 = Throw (InvalidStateError instructionTargetMessage)
   /\ events r.2 = events s)
  /\ (requireWellFormed = true /\ ~ badTarget /\ badData ->
      r.1 = Throw (InvalidStateError instructionDataMessage)
      /\ events r.2 = events s)
  /\ (~ (requireWellFormed = true /\ (badTarget \/ badData)) ->
      r.1 = Normal tt
      /\ events r.2 = events s ++ [E_instruction target data]).
Proof.
  cbv zeta.
  destruct (serializeNode_checked_leaf hasNamespaces
              (ProcessingInstruction target data)
              requireWellFormed noDoubleEncoding
              (_serializeProcessingInstruction target data requireWellFormed
                 noDoubleEncoding) s)
    as (s0 & Hs0 & Hout & Hev); [done | done |].
  rewrite Hout, Hev, <- Hs0. clear Hout Hev.
  unfold _serializeProcessingInstruction, throw_if, bind, instruction, emit,
    modify, isXmlIgnoreCase.
  pose proof (indexOf_found target (lit ":")) as Hcolon.
  pose proof (indexOf_found data (lit "?>")) as Hend.
  destruct requireWellFormed; cbn [andb].
  2:{ cbn [fst snd ret]. split_and!; try (intros [? _]; discriminate). done. }
  destruct (indexOf target (lit ":") =? -1) eqn:Ec; cbn [negb orb].
  2:{ cbn [fst snd throw]. split_and!; [done | |].
      - intros (_ & Hn & _). destruct Hn. left. by apply Hcolon.
      - intros Hn. destruct Hn. split; [done |]. left. left. by apply Hcolon. }
  case_bool_decide as Exml; cbn [fst snd throw ret].
  { split_and!; [done | |].
    - intros (_ & Hn & _). destruct Hn. by right.
    - intros Hn. destruct Hn. split; [done |]. left. by right. }
  assert (~ ((exists a b, target = a ++ lit ":" ++ b)
             \/ List.map asciiLower target = lit "xml")) as Htarget.
  { intros [Hex|Hx]; [|done]. apply Hcolon in Hex. discriminate. }
  destruct (xml_isLegalChar data) eqn:El; cbn [negb orb].
  2:{ cbn [fst snd throw]. split_and!; [tauto | done |].
      intros Hn. destruct Hn. split; [done |]. right. by left. }
  destruct (indexOf data (lit "?>") =? -1) eqn:Ed; cbn [negb fst snd throw ret].
  - split_and!; [tauto | | done].
    intros (_ & _ & [?|Hex]); [discriminate |]. apply Hend in Hex.
    discriminate.
  - split_and!; [tauto | done |].
    intros Hn. destruct Hn. split; [done |]. right. right. by apply Hend.
Qed.

(** A document type node is rejected exactly when [requireWellFormed] is set
    and the public identifier has a character outside [PubidChar], or the
    system identifier has an illegal character or contains both kinds of
    quotation mark; the public identifier is checked first.  The sink then
    receives nothing.  In every other case it receives one [docType] call
    with the three strings unchanged. *)
Theorem doctype_rejected_iff_malformed
  (hasNamespaces : bool) (name publicId systemId : jsstring)
  (requireWellFormed noDoubleEncoding : bool) (s : State) :
  let r := serializeNode hasNamespaces (DocumentType name publicId systemId)
             requireWellFormed noDoubleEncoding s in
  let badPublicId := xml_isPubidChar publicId = false in
  let badSystemId :=
    xml_isLegalChar systemId = false
    \/ ((exists a b, systemId = a ++ [QUOT] ++ b)
        /\ exists a b, systemId = a ++ lit "'" ++ b) in
  (requireWellFormed = true /\ badPublicId ->
   r.1 = Throw (InvalidStateError publicIdMessage) /\ events r.2 = events s)
  /\ (requireWellFormed = true /\ ~ badPublicId /\ badSystemId ->
      r.1 = Throw (InvalidStateError systemIdMessage)
      /\ events r.2 = events s)
  /\ (~ (requireWellFormed = true /\ (badPublicId \/ badSystemId)) ->
      r.1 = Normal tt
      /\ events r.2 = events s ++ [E_docType name publicId systemId]).
Proof.
  cbv zeta.
  destruct (serializeNode_checked_leaf hasNamespaces
              (DocumentType name publicId systemId)
              requireWellFormed noDoubleEncoding
              (_serializeDocumentType name publicId systemId requireWellFormed
                 noDoubleEncoding) s)
    as (s0 & Hs0 & Hout & Hev); [done | done |].
  rewrite Hout, Hev, <- Hs0. clear Hout Hev.
  unfold _serializeDocumentType, throw_if, bind, docType, emit, modify.
  pose proof (indexOf_found systemId [QUOT]) as Hquot.
  pose proof (indexOf_found systemId (lit "'")) as Hapos.
  destruct requireWellFormed; cbn [andb].
  2:{ cbn [fst snd ret]. split_and!; try (intros [? _]; discriminate). done. }
  destruct (xml_isPubidChar publicId) eqn:Ep; cbn [negb].
  2:{ cbn [fst snd throw]. split_and!; [done | |].
      - by intros (_ & Hn & _).
      - intros Hn. destruct Hn. split; [done |]. by left. }
  destruct (xml_isLegalChar systemId) eqn:El; cbn [negb orb].
  2:{ cbn [fst snd throw]. split_and!; [intros [_ ?]; discriminate | done |].
      intros Hn. destruct Hn. split; [done |]. right. by left. }
  destruct (indexOf systemId [QUOT] =? -1) eqn:Eq; cbn [negb andb].
  { cbn [fst snd ret]. split_and!; [intros [_ ?]; discriminate | | done].
    intros (_ & _ & [?|[Hex _]]); [discriminate |].
    apply Hquot in Hex. discriminate. }
  destruct (indexOf systemId (lit "'") =? -1) eqn:Ea;
    cbn [negb fst snd throw ret].
  - split_and!; [intros [_ ?]; discriminate | | done].
    intros (_ & _ & [?|[_ Hex]]); [discriminate |].
    apply Hapos in Hex. discriminate.
  - split_and!; [intros [_ ?]; discriminate | done |].
    intros Hn. destruct Hn. split; [done |]. right. right.
    split; [by apply Hquot | by apply Hapos].
Qed.

End LeafNodes.

Lemma cdata_rejected_iff_it_contains_the_end_marker_witness :
  (true = true /\ exists a b, lit "a]]>b" = a ++ lit "]]>" ++ b)
  /\ (serializeNode (H := XML10.grammar) true (CDATASection (lit "a]]>b"))
        true false initialState).1
     = Throw (InvalidStateError cdataMessage)
  /\ ~ (false = true /\ exists a b, lit "a]]>b" = a ++ lit "]]>" ++ b)
  /\ (serializeNode (H := XML10.grammar) true (CDATASection (lit "a]]>b"))
        false false initialState).1
     = Normal tt.
Proof.
  assert (exists a b, lit "a]]>b" = a ++ lit "]]>" ++ b) as Hex
    by (by exists (lit "a"), (lit "b")).
  split; [done |]. split.
  - apply (cdata_rejected_iff_it_contains_the_end_marker (H := XML10.grammar)
             true (lit "a]]>b") true false initialState). done.
  - split; [intros [? _]; discriminate |].
    apply (cdata_rejected_iff_it_contains_the_end_marker (H := XML10.grammar)
             true (lit "a]]>b") false false initialState).
    intros [? _]; discriminate.
Defined.

Lemma instruction_rejected_iff_malformed_witness :
  (true = true
   /\ ((exists a b, lit "a:b" = a ++ lit ":" ++ b)
       \/ List.map asciiLower (lit "a:b") = lit "xml"))
  /\ (serializeNode (H := XML10.grammar) false
        (ProcessingInstruction (lit "a:b") (lit "d")) true false
        initialState).1
     = Throw (InvalidStateError instructionTargetMessage)
  /\ (true = true
      /\ ~ ((exists a b, lit "t" = a ++ lit ":" ++ b)
            \/ List.map asciiLower (lit "t") = lit "xml")
      /\ (xml_isLegalChar (XmlGrammar := XML10.grammar) (lit "a?>b") = false
          \/ exists a b, lit "a?>b" = a ++ lit "?>" ++ b))
  /\ (serializeNode (H := XML10.grammar) false
        (ProcessingInstruction (lit "t") (lit "a?>b")) true false
        initialState).1
     = Throw (InvalidStateError instructionDataMessage)
  /\ ~ (false = true
        /\ (((exists a b, lit "t" = a ++ lit ":" ++ b)
             \/ List.map asciiLower (lit "t") = lit "xml")
            \/ (xml_isLegalChar (XmlGrammar := XML10.grammar) (lit "d") = false
                \/ exists a b, lit "d" = a ++ lit "?>" ++ b)))
  /\ (serializeNode (H := XML10.grammar) false
        (ProcessingInstruction (lit "t") (lit "d")) false false
        initialState).1
     = Normal tt.
Proof.
  assert ((exists a b, lit "a:b" = a ++ lit ":" ++ b)
          \/ List.map asciiLower (lit "a:b") = lit "xml") as Htarget
    by (left; by exists (lit "a"), (lit "b")).
  assert (~ ((exists a b, lit "t" = a ++ lit ":" ++ b)
             \/ List.map asciiLower (lit "t") = lit "xml")) as Hgood.
  { intros [Hex|Hxml].
    - apply (indexOf_found (lit "t") (lit ":")) in Hex.
      vm_compute in Hex. discriminate.
    - vm_compute in Hxml. discriminate. }
  assert (xml_isLegalChar (XmlGrammar := XML10.grammar) (lit "a?>b") = false
          \/ exists a b, lit "a?>b" = a ++ lit "?>" ++ b) as Hdata
    by (right; by exists (lit "a"), (lit "b")).
  split_and!.
  - done.
  - done.
  - apply (instruction_rejected_iff_malformed (H := XML10.grammar) false
             (lit "a:b") (lit "d") true false initialState). done.
  - done.
  - done.
  - done.
  - apply (instruction_rejected_iff_malformed (H := XML10.grammar) false
             (lit "t") (lit "a?>b") true false initialState). done.
  - intros [? _]; discriminate.
  - apply (instruction_rejected_iff_malformed (H := XML10.grammar) false
             (lit "t") (lit "d") false false initialState).
    intros [? _]; discriminate.
Defined.

Lemma doctype_rejected_iff_malformed_witness :
  (true = true
   /\ xml_isPubidChar (XmlGrammar := XML10.grammar) (lit "a<b") = false)
  /\ (serializeNode (H := XML10.grammar) false
        (DocumentType (lit "html") (lit "a<b") (lit "s")) true false
        initialState).1
     = Throw (InvalidStateError publicIdMessage)
  /\ (true = true
      /\ ~ xml_isPubidChar (XmlGrammar := XML10.grammar) (lit "p") = false
      /\ (xml_isLegalChar (XmlGrammar := XML10.grammar) (lit "a'" ++ [QUOT])
          = false
          \/ ((exists a b, lit "a'" ++ [QUOT] = a ++ [QUOT] ++ b)
              /\ exists a b, lit "a'" ++ [QUOT] = a ++ lit "'" ++ b)))
  /\ (serializeNode (H := XML10.grammar) false
        (DocumentType (lit "html") (lit "p") (lit "a'" ++ [QUOT])) true false
        initialState).1
     = Throw (InvalidStateError systemIdMessage)
  /\ ~ (false = true
        /\ (xml_isPubidChar (XmlGrammar := XML10.grammar) (lit "p") = false
            \/ (xml_isLegalChar (XmlGrammar := XML10.grammar) (lit "s") = false
                \/ ((exists a b, lit "s" = a ++ [QUOT] ++ b)
                    /\ exists a b, lit "s" = a ++ lit "'" ++ b))))
  /\ (serializeNode (H := XML10.grammar) false
        (DocumentType (lit "html") (lit "p") (lit "s")) false false
        initialState).1
     = Normal tt.
Proof.
  assert (xml_isPubidChar (XmlGrammar := XML10.grammar) (lit "a<b") = false)
    as Hpub by (by vm_compute).
  assert (~ xml_isPubidChar (XmlGrammar := XML10.grammar) (lit "p") = false)
    as Hgood by (by vm_compute).
  assert (xml_isLegalChar (XmlGrammar := XML10.grammar) (lit "a'" ++ [QUOT])
          = false
          \/ ((exists a b, lit "a'" ++ [QUOT] = a ++ [QUOT] ++ b)
              /\ exists a b, lit "a'" ++ [QUOT] = a ++ lit "'" ++ b))
    as Hsys.
  { right. split; [by exists (lit "a'"), [] | by exists (lit "a"), [QUOT]]. }
  split_and!.
  - done.
  - done.
  - apply (doctype_rejected_iff_malformed (H := XML10.grammar) false
             (lit "html") (lit "a<b") (lit "s") true false initialState).
    done.
  - done.
  - done.
  - done.
  - apply (doctype_rejected_iff_malformed (H := XML10.grammar) false
             (lit "html") (lit "p") (lit "a'" ++ [QUOT]) true false
             initialState). done.
  - intros [? _]; discriminate.
  - apply (doctype_rejected_iff_malformed (H := XML10.grammar) false
             (lit "html") (lit "p") (lit "s") false false initialState).
    intros [? _]; discriminate.
Defined.

(** ** Checks made before anything is written *)

Definition missingElementMessage : jsstring :=
  lit "Missing document element (well-formed required).".

Definition elementNameMessage : jsstring :=
  lit "Node local name contains invalid characters (well-formed required).".

Section EarlyChecks.
Context `{XmlGrammar}.

(** With [requireWellFormed], a document that has no element among its
    children is rejected before the sink receives anything, whatever its
    other children are; without it, the document without children is
    serialized to no call at all. *)
Theorem document_without_element_is_rejected
  (hasNamespaces : bool) (childNodes : list Node) (noDoubleEncoding : bool)
  (s : State) :
  (documentElement childNodes = None ->
   let r := serializeNode hasNamespaces (Document childNodes) true
              noDoubleEncoding s in
   r.1 = Throw (InvalidStateError missingElementMessage)
   /\ events r.2 = events s)
  /\ (let r := serializeNode hasNamespaces (Document []) false
                 noDoubleEncoding s in
      r.1 = Normal tt /\ events r.2 = events s).
Proof.
  split.
  - intros Hnone. cbv zeta. unfold serializeNode.
    destruct hasNamespaces;
      cbn [_serializeNodeNS _serializeNode];
      unfold _serializeDocumentNS, _serializeDocument;
      rewrite Hnone; rewrite bool_decide_eq_true_2 by done;
      by cbv beta iota zeta delta [bind modify try_catch throw_if throw
           NamespacePrefixMap_new NamespacePrefixMap_alloc
           NamespacePrefixMap_set PrefixIndex_new andb].
  - cbv zeta. unfold serializeNode. by destruct hasNamespaces.
Qed.

(** With [requireWellFormed], an element whose local name contains a colon
    or does not match the [Name] production is rejected before the sink
    receives anything. *)
Theorem element_with_malformed_name_is_rejected
  (hasNamespaces : bool) (localName : jsstring)
  (prefix namespaceURI : option jsstring) (attrs : list Attr)
  (childNodes : list Node) (noDoubleEncoding : bool) (s : State) :
  (exists a b, localName = a ++ lit ":" ++ b) \/ xml_isName localName = false ->
  let r := serializeNode hasNamespaces
             (Element localName prefix namespaceURI attrs childNodes) true
             noDoubleEncoding s in
  r.1 = Throw (InvalidStateError elementNameMessage)
  /\ events r.2 = events s.
Proof.
  intros Hbad. cbv zeta.
  assert (negb (indexOf localName (lit ":") =? -1)
          || negb (xml_isName localName) = true) as Hchk.
  { apply orb_true_iff. rewrite !negb_true_iff.
    destruct Hbad as [Hcolon|Hname]; [left | by right].
    by apply indexOf_found. }
  unfold serializeNode.
  destruct hasNamespaces;
    cbn [_serializeNodeNS _serializeNode];
    unfold _serializeElementNS, _serializeElement;
    rewrite Hchk;
    by cbv beta iota zeta delta [bind modify try_catch throw_if throw
         NamespacePrefixMap_new NamespacePrefixMap_alloc
         NamespacePrefixMap_set PrefixIndex_new andb].
Qed.

End EarlyChecks.

Lemma document_without_element_is_rejected_witness :
  documentElement [Comment (lit "c")] = None
  /\ (serializeNode (H := XML10.grammar) true (Document [Comment (lit "c")])
        true false initialState).1
     = Throw (InvalidStateError missingElementMessage).
Proof.
  split; [reflexivity |].
  apply (document_without_element_is_rejected (H := XML10.grammar) true
           [Comment (lit "c")] false initialState).
  reflexivity.
Defined.

Lemma element_with_malformed_name_is_rejected_witness :
  ((exists a b, lit "a:b" = a ++ lit ":" ++ b)
   \/ xml_isName (XmlGrammar := XML10.grammar) (lit "a:b") = false)
  /\ (serializeNode (H := XML10.grammar) true
        (Element (lit "a:b") None None [] []) true false initialState).1
     = Throw (InvalidStateError elementNameMessage).
Proof.
  assert ((exists a b, lit "a:b" = a ++ lit ":" ++ b)
          \/ xml_isName (XmlGrammar := XML10.grammar) (lit "a:b") = false)
    as Hbad by (left; by exists (lit "a"), (lit "b")).
  split; [exact Hbad |].
  apply (element_with_malformed_name_is_rejected (H := XML10.grammar) true
           (lit "a:b") None None [] [] false initialState Hbad).
Defined.

(** ** Serialization without the well-formedness checks *)

(** The kinds of node that the walkers have a case for, on the whole
    subtree. *)
Fixpoint supported (node : Node) : bool :=
  match node with
  | Element _ _ _ _ childNodes => forallb supported childNodes
  | Document childNodes => forallb supported childNodes
  | DocumentFragment childNodes => forallb supported childNodes
  | OtherNode _ => false
  | _ => true
  end.

(** The same on the part of the subtree that the namespace-aware walker
    visits: it does not descend into an HTML [template] element. *)
Fixpoint supportedNS (node : Node) : bool :=
  match node with
  | Element localName _ namespaceURI _ childNodes =>
      (bool_decide (namespaceURI = Some infraNamespace.HTML)
       && bool_decide (localName = lit "template"))
      || forallb supportedNS childNodes
  | Document childNodes => forallb supportedNS childNodes
  | DocumentFragment childNodes => forallb supportedNS childNodes
  | OtherNode _ => false
  | _ => true
  end.

(** The computation returns normally from every state. *)
Definition returns {A} (m : M A) : Prop :=
  forall s, exists a s', m s = (Normal a, s').

Lemma returns_ret {A} (a : A) : returns (ret a).
Proof. intros s. by exists a, s. Qed.

Lemma returns_gets {A} (f : State -> A) : returns (gets f).
Proof. intros s. by eexists _, _. Qed.

Lemma returns_modify (f : State -> State) : returns (modify f).
Proof. intros s. by eexists _, _. Qed.

Lemma returns_bind {A B} (m : M A) (k : A -> M B) :
  returns m -> (forall a, returns (k a)) -> returns (bind m k).
Proof.
  intros Hm Hk s. destruct (Hm s) as (a & s1 & Hrun).
  unfold bind. rewrite Hrun. apply Hk.
Qed.

Lemma returns_forEach {A} (f : A -> M unit) (l : list A) :
  Forall (fun x => returns (f x)) l -> returns (forEach f l).
Proof.
  induction 1 as [|x l Hx Hl IH]; cbn [forEach]; [apply returns_ret |].
  apply returns_bind; [exact Hx | intros _; exact IH].
Qed.

Lemma returns_forEachAcc {A B} (f : A -> B -> M B) (l : list A) (acc : B) :
  (forall x acc, returns (f x acc)) -> returns (forEachAcc f l acc).
Proof.
  intros Hf. revert acc. induction l as [|x l IH]; intros acc; cbn [forEachAcc].
  - apply returns_ret.
  - apply returns_bind; [apply Hf | intros acc'; apply IH].
Qed.

(** One step of a proof of [returns] along the structure of the
    computation. *)
Ltac returns_step :=
  lazymatch goal with
  | |- returns (bind _ _) => apply returns_bind; [ | intros ? ]
  | |- returns (ret _) => apply returns_ret
  | |- returns (gets _) => apply returns_gets
  | |- returns (modify _) => apply returns_modify
  | |- returns (throw_if false _) => apply returns_ret
  | |- returns (forEachAcc _ _ _) => apply returns_forEachAcc; intros ? ?
  | |- returns (if ?c then _ else _) => destruct c eqn:?
  | |- returns (match ?x with _ => _ end) => destruct x
  end.

Ltac returns_auto := repeat returns_step.

(** An exception in the body of a loop ends the loop. *)
Lemma forEach_throws {A} (f : A -> M unit) (l : list A) :
  Exists (fun x => forall s, throws (f x s)) l ->
  forall s, throws (forEach f l s).
Proof.
  induction 1 as [x l Hx|x l Hl IH]; intros s; cbn [forEach];
    apply throws_bind; intros [] s1 Hrun.
  - destruct (Hx s) as [e He]. rewrite Hrun in He. discriminate.
  - apply IH.
Qed.

Lemma throws_bind_first {A B} (m : M A) (k : A -> M B) (s : State) :
  throws (m s) -> throws (bind m k s).
Proof.
  intros [e He]. unfold bind. destruct (m s) as [[a|e'] s1]; [done |].
  by exists e'.
Qed.

Section Lenient.
Context `{XmlGrammar}.

Lemma _generatePrefix_returns ns map pi : returns (_generatePrefix ns map pi).
Proof.
  unfold _generatePrefix, NamespacePrefixMap_set. cbv zeta. returns_auto.
Qed.

Lemma _serializeAttributeValue_returns v nde :
  returns (_serializeAttributeValue v false nde).
Proof.
  unfold _serializeAttributeValue. cbn [andb]. returns_auto.
Qed.

Lemma _recordNamespaceInformation_returns attrs map lpm :
  returns (_recordNamespaceInformation attrs map lpm).
Proof.
  unfold _recordNamespaceInformation, _recordNamespaceInformation_attr,
    NamespacePrefixMap_has, NamespacePrefixMap_set.
  cbv zeta. returns_auto.
Qed.

Lemma _serializeElementNS_name_returns ln p ns inh ldn lpm map pi nde :
  returns (_serializeElementNS_name ln p ns inh ldn lpm map pi false nde).
Proof.
  unfold _serializeElementNS_name, NamespacePrefixMap_get,
    NamespacePrefixMap_set, beginElement, openTagBegin, emit.
  cbv zeta.
  repeat first [ returns_step
               | apply _generatePrefix_returns
               | apply _serializeAttributeValue_returns ].
Qed.

Lemma _serializeAttributesNS_returns attrs map pi lpm ign nde :
  returns (_serializeAttributesNS attrs map pi lpm ign false nde).
Proof.
  intros s.
  destruct (_serializeAttributesNS_lenient map pi lpm ign nde attrs s)
    as (result & s' & Hrun & _).
  by exists result, s'.
Qed.

Lemma _serializeAttributes_returns attrs nde :
  returns (_serializeAttributes attrs false nde).
Proof. intros s. rewrite _serializeAttributes_lenient. by eexists _, _. Qed.

Lemma leaf_nodes_return data nde name publicId systemId target :
  returns (_serializeComment data false nde)
  /\ returns (_serializeText data false nde)
  /\ returns (_serializeCData data false nde)
  /\ returns (_serializeDocumentType name publicId systemId false nde)
  /\ returns (_serializeProcessingInstruction target data false nde).
Proof.
  unfold _serializeComment, _serializeText, _serializeCData,
    _serializeDocumentType, _serializeProcessingInstruction, comment, text,
    cdata, docType, instruction, emit.
  cbv zeta. cbn [andb]. split_and!; returns_auto.
Qed.

Lemma _serializeNodeNS_returns (node : Node) :
  supportedNS node = true ->
  forall namespace pm pi nde,
    returns (_serializeNodeNS node namespace pm pi false nde).
Proof.
  induction node as [ln p ns attrs cs IH|cs IH|cs IH| | | | | |]
    using Node_ind_children;
    intros Hsup namespace pm pi nde; cbn [_serializeNodeNS];
    (apply returns_bind; [apply returns_modify | intros _]);
    cbn [supportedNS] in Hsup.
  - unfold _serializeElementNS, attributes, openTagEnd, endElement, closeTag,
      emit, NamespacePrefixMap_copy, NamespacePrefixMap_alloc.
    cbv zeta. cbn [andb].
    repeat first [ apply _recordNamespaceInformation_returns
                 | apply _serializeElementNS_name_returns
                 | apply _serializeAttributesNS_returns
                 | (intros s0; by eexists _, _)
                 | returns_step ].
    cbn [orb] in Hsup.
    apply returns_forEach. apply Forall_forall. intros c Hc.
    rewrite Forall_forall in IH. rewrite forallb_forall in Hsup.
    repeat first [ returns_step | apply IH ]; try done.
    apply Hsup. by apply list_elem_of_In.
  - unfold _serializeDocumentNS. cbn [andb].
    apply returns_bind; [apply returns_ret | intros _].
    apply returns_forEach. apply Forall_forall. intros c Hc.
    rewrite Forall_forall in IH. rewrite forallb_forall in Hsup.
    apply IH; [done |]. apply Hsup. by apply list_elem_of_In.
  - unfold _serializeDocumentFragmentNS.
    apply returns_forEach. apply Forall_forall. intros c Hc.
    rewrite Forall_forall in IH. rewrite forallb_forall in Hsup.
    apply IH; [done |]. apply Hsup. by apply list_elem_of_In.
  - apply (leaf_nodes_return [] nde name publicId systemId []).
  - apply (leaf_nodes_return data nde [] [] [] []).
  - apply (leaf_nodes_return data nde [] [] [] []).
  - apply (leaf_nodes_return data nde [] [] [] []).
  - apply (leaf_nodes_return data nde [] [] [] target).
  - discriminate.
Qed.

End Lenient.

Lemma forallb_false_Exists {A} (f : A -> bool) (l : list A) :
  forallb f l = false -> Exists (fun x => f x = false) l.
Proof.
  induction l as [|x l IH]; cbn [forallb]; [discriminate |].
  destruct (f x) eqn:Hx; cbn [andb].
  - intros Hl. apply Exists_cons_tl. by apply IH.
  - intros _. by apply Exists_cons_hd.
Qed.

Lemma Forall_Exists_impl {A} (P Q R : A -> Prop) (l : list A) :
  Forall P l -> Exists Q l -> (forall x, P x -> Q x -> R x) -> Exists R l.
Proof.
  intros HP HQ HR. induction HQ as [x l Hx|x l Hl IH];
    apply Forall_cons_1 in HP as [Hp HP].
  - apply Exists_cons_hd. by apply HR.
  - apply Exists_cons_tl. by apply IH.
Qed.

Section LenientFast.
Context `{XmlGrammar}.

Lemma _serializeNode_returns (node : Node) :
  supported node = true ->
  forall nde, returns (_serializeNode node false nde).
Proof.
  induction node as [ln p ns attrs cs IH|cs IH|cs IH| | | | | |]
    using Node_ind_children;
    intros Hsup nde; cbn [_serializeNode];
    (apply returns_bind; [apply returns_modify | intros _]);
    cbn [supported] in Hsup.
  - unfold _serializeElement, attributes, openTagEnd, endElement, closeTag,
      beginElement, openTagBegin, emit.
    cbv zeta. cbn [andb].
    repeat first [ apply _serializeAttributes_returns | returns_step ].
    apply returns_forEach. apply Forall_forall. intros c Hc.
    rewrite Forall_forall in IH. rewrite forallb_forall in Hsup.
    repeat first [ returns_step | apply IH ]; try done.
    apply Hsup. by apply list_elem_of_In.
  - unfold _serializeDocument. cbn [andb].
    apply returns_bind; [apply returns_ret | intros _].
    apply returns_forEach. apply Forall_forall. intros c Hc.
    rewrite Forall_forall in IH. rewrite forallb_forall in Hsup.
    apply IH; [done |]. apply Hsup. by apply list_elem_of_In.
  - unfold _serializeDocumentFragment.
    apply returns_forEach. apply Forall_forall. intros c Hc.
    rewrite Forall_forall in IH. rewrite forallb_forall in Hsup.
    apply IH; [done |]. apply Hsup. by apply list_elem_of_In.
  - apply (leaf_nodes_return [] nde name publicId systemId []).
  - apply (leaf_nodes_return data nde [] [] [] []).
  - apply (leaf_nodes_return data nde [] [] [] []).
  - apply (leaf_nodes_return data nde [] [] [] []).
  - apply (leaf_nodes_return data nde [] [] [] target).
  - discriminate.
Qed.

(** The loop over the children ends with an exception when the subtree of
    one of them cannot be serialized. *)
Lemma children_throw {A} (walk : Node -> M A) (pre post : M unit)
  (cs : list Node) (f : Node -> bool) :
  Forall (fun c => f c = false -> forall s, throws (walk c s)) cs ->
  forallb f cs = false ->
  forall s, throws (forEach (fun c => pre ;; walk c ;; post) cs s).
Proof.
  intros IH Hsup. apply forEach_throws.
  eapply Forall_Exists_impl; [exact IH | by apply forallb_false_Exists |].
  intros c Hc Hf s. cbn beta.
  apply throws_bind. intros _ s1 _. apply throws_bind. intros a s2 Hrun.
  destruct (Hc Hf s1) as [e He]. rewrite Hrun in He. discriminate.
Qed.

Lemma children_throw_plain (walk : Node -> M unit) (cs : list Node)
  (f : Node -> bool) :
  Forall (fun c => f c = false -> forall s, throws (walk c s)) cs ->
  forallb f cs = false ->
  forall s, throws (forEach walk cs s).
Proof.
  intros IH Hsup. apply forEach_throws.
  eapply Forall_Exists_impl; [exact IH | by apply forallb_false_Exists |].
  intros c Hc Hf. by apply Hc.
Qed.

(** Splits the computation of the goal until the loop over the children. *)
Ltac throws_step :=
  lazymatch goal with
  | |- throws (forEach _ _ _) => fail
  | |- throws (bind (forEach _ _) _ _) => fail
  | |- throws (bind (if _ then _ else _) _ _) => fail
  | |- throws (bind _ _ _) => apply throws_bind; intros ? ? _
  | |- throws ((if ?c then _ else _) _) => destruct c eqn:?
  end.

Lemma _serializeNode_throws (node : Node) :
  supported node = false ->
  forall rwf nde s, throws (_serializeNode node rwf nde s).
Proof.
  induction node as [ln p ns attrs cs IH|cs IH|cs IH| | | | | |]
    using Node_ind_children;
    intros Hsup rwf nde s; cbn [_serializeNode];
    (apply throws_bind; intros _ ? _); cbn [supported] in Hsup;
    try discriminate.
  - unfold _serializeElement. cbv zeta. repeat throws_step.
    + destruct cs; [discriminate | done].
    + apply throws_bind_first.
      eapply (children_throw _ _ _ cs supported); [|done].
      eapply Forall_impl; [exact IH |]. intros c Hc Hf s'. by apply Hc.
  - unfold _serializeDocument. apply throws_bind. intros _ ? _.
    apply (children_throw_plain (fun c => _serializeNode c rwf nde) cs
             supported); [|done].
    eapply Forall_impl; [exact IH |]. intros c Hc Hf s'. by apply Hc.
  - unfold _serializeDocumentFragment.
    apply (children_throw_plain (fun c => _serializeNode c rwf nde) cs
             supported); [|done].
    eapply Forall_impl; [exact IH |]. intros c Hc Hf s'. by apply Hc.
  - by eexists.
Qed.

Lemma _serializeNodeNS_throws (node : Node) :
  supportedNS node = false ->
  forall namespace pm pi rwf nde s,
    throws (_serializeNodeNS node namespace pm pi rwf nde s).
Proof.
  induction node as [ln p ns attrs cs IH|cs IH|cs IH| | | | | |]
    using Node_ind_children;
    intros Hsup namespace pm pi rwf nde s; cbn [_serializeNodeNS];
    (apply throws_bind; intros _ ? _); cbn [supportedNS] in Hsup;
    try discriminate.
  - apply orb_false_iff in Hsup as [Htemplate Hsup].
    unfold _serializeElementNS. cbv zeta. repeat throws_step.
    + destruct cs; [discriminate |].
      rewrite andb_false_r in *. discriminate.
    + destruct cs; [discriminate |].
      rewrite andb_false_r in *. discriminate.
    + rewrite Htemplate. apply throws_bind_first.
      eapply (children_throw _ _ _ cs supportedNS); [|done].
      eapply Forall_impl; [exact IH |]. intros c Hc Hf s'. by apply Hc.
  - unfold _serializeDocumentNS. apply throws_bind. intros _ ? _.
    apply (children_throw_plain
             (fun c => _serializeNodeNS c namespace pm pi rwf nde) cs
             supportedNS); [|done].
    eapply Forall_impl; [exact IH |]. intros c Hc Hf s'. by apply Hc.
  - unfold _serializeDocumentFragmentNS.
    apply (children_throw_plain
             (fun c => _serializeNodeNS c namespace pm pi rwf nde) cs
             supportedNS); [|done].
    eapply Forall_impl; [exact IH |]. intros c Hc Hf s'. by apply Hc.
  - by eexists.
Qed.

End LenientFast.

Section LenientClaim.
Context `{XmlGrammar}.

(** Without [requireWellFormed], [serializeNode] fails on no tree that
    consists of the eight supported kinds of node: it returns normally
    exactly when the walker meets no node of another kind.  Such a node makes
    it throw the invalid-state error whatever [requireWellFormed] is.  (The
    namespace-aware walker does not visit the children of an HTML
    [template] element.) *)
Theorem lenient_serialization_fails_only_on_unsupported_nodes
  (hasNamespaces : bool) (node : Node) (noDoubleEncoding : bool) (s : State) :
  let visitedSupported :=
    if hasNamespaces then supportedNS node else supported node in
  (visitedSupported = true ->
   (serializeNode hasNamespaces node false noDoubleEncoding s).1 = Normal tt)
  /\ (visitedSupported = false ->
      forall requireWellFormed,
      exists msg,
        (serializeNode hasNamespaces node requireWellFormed noDoubleEncoding
           s).1
        = Throw (InvalidStateError msg)).
Proof.
  cbv zeta. unfold serializeNode. destruct hasNamespaces.
  - cbv beta iota zeta delta [bind modify NamespacePrefixMap_new
      NamespacePrefixMap_alloc NamespacePrefixMap_set PrefixIndex_new].
    split.
    + intros Hsup. unfold try_catch.
      match goal with
      | |- context [_serializeNodeNS node ?ns ?pm ?pi false ?nde ?st] =>
          destruct (_serializeNodeNS_returns node Hsup ns pm pi nde st)
            as ([] & s' & ->)
      end.
      reflexivity.
    + intros Hsup rwf. apply try_catch_throws.
      by apply _serializeNodeNS_throws.
  - cbv beta iota zeta delta [bind modify]. split.
    + intros Hsup. unfold try_catch.
      match goal with
      | |- context [_serializeNode node false ?nde ?st] =>
          destruct (_serializeNode_returns node Hsup nde st) as ([] & s' & ->)
      end.
      reflexivity.
    + intros Hsup rwf. apply try_catch_throws.
      by apply _serializeNode_throws.
Qed.

End LenientClaim.

Lemma lenient_serialization_fails_only_on_unsupported_nodes_witness :
  let good := Element (lit "a") None None [] [Text (lit "t")] in
  let bad := Element (lit "a") None None [] [OtherNode EntityNode] in
  supportedNS good = true
  /\ (serializeNode (H := XML10.grammar) true good false false
        initialState).1
     = Normal tt
  /\ supported bad = false
  /\ exists msg,
       (serializeNode (H := XML10.grammar) false bad false false
          initialState).1
       = Throw (InvalidStateError msg).
Proof.
  intros good bad.
  assert (supportedNS good = true) as Hgood by (by vm_compute).
  assert (supported bad = false) as Hbad by reflexivity.
  split_and!; [exact Hgood | | exact Hbad |].
  - apply (lenient_serialization_fails_only_on_unsupported_nodes
             (H := XML10.grammar) true good false initialState). exact Hgood.
  - apply (lenient_serialization_fails_only_on_unsupported_nodes
             (H := XML10.grammar) false bad false initialState). exact Hbad.
Defined.

(** ** The shape of the calls made to the sink *)

(** The calls for a node other than an element. *)
Definition isLeafEvent (e : Event) : bool :=
  match e with
  | E_docType _ _ _ | E_comment _ | E_text _ | E_instruction _ _ | E_cdata _ =>
      true
  | _ => false
  end.

(** Sequences of calls in which every element is bracketed: [beginElement],
    [openTagBegin], [attributes] and [openTagEnd] in this order, then either
    [endElement] at once when the tag was self-closing, or the calls of the
    content followed by [closeTag] and [endElement]; all with the same
    name. *)
Inductive balanced : list Event -> Prop :=
| balanced_nil : balanced []
| balanced_leaf e t :
    isLeafEvent e = true -> balanced t -> balanced (e :: t)
| balanced_selfClosing q attrs voidElement t :
    balanced t ->
    balanced ([E_beginElement q; E_openTagBegin q; E_attributes attrs;
               E_openTagEnd q true voidElement; E_endElement q] ++ t)
| balanced_element q attrs content t :
    balanced content -> balanced t ->
    balanced ([E_beginElement q; E_openTagBegin q; E_attributes attrs;
               E_openTagEnd q false false]
              ++ content ++ [E_closeTag q; E_endElement q] ++ t).

Lemma balanced_app (t1 t2 : list Event) :
  balanced t1 -> balanced t2 -> balanced (t1 ++ t2).
Proof.
  intros H1 H2. induction H1 as [|e t He Ht IH|q a v t Ht IH|q a c t Hc _ Ht IH].
  - done.
  - cbn [app]. by apply balanced_leaf.
  - rewrite <- app_assoc. by apply balanced_selfClosing.
  - rewrite <- !app_assoc. by apply balanced_element.
Qed.

(** The state after a walk: the depth is back where it was and the sink
    has received a balanced sequence of calls more. *)
Definition walked (s s' : State) : Prop :=
  level s' = level s
  /\ exists t, events s' = events s ++ t /\ balanced t.

Lemma walked_refl (s : State) : walked s s.
Proof.
  split; [done |]. exists []. split; [by rewrite app_nil_r | constructor].
Qed.

Lemma walked_trans (s1 s2 s3 : State) :
  walked s1 s2 -> walked s2 s3 -> walked s1 s3.
Proof.
  intros [Hl1 (t1 & He1 & Hb1)] [Hl2 (t2 & He2 & Hb2)]. split; [congruence |].
  exists (t1 ++ t2). split; [|by apply balanced_app].
  by rewrite He2, He1, app_assoc.
Qed.

Lemma forEach_walked {A} (f : A -> M unit) (l : list A) :
  Forall (fun x => forall s s', f x s = (Normal tt, s') -> walked s s') l ->
  forall s s', forEach f l s = (Normal tt, s') -> walked s s'.
Proof.
  induction 1 as [|x l Hx Hl IH]; intros s s' Hrun; cbn [forEach] in Hrun.
  - injection Hrun as <-. apply walked_refl.
  - apply bind_Normal_inv in Hrun as ([] & s1 & Hrun1 & Hrun).
    eapply walked_trans; [by apply Hx | by apply IH].
Qed.

(** A walk between [level++] and [level--]. *)
Lemma descend_walked (walk : M unit) (s s' : State) :
  (forall s0 s1, walk s0 = (Normal tt, s1) -> walked s0 s1) ->
  (modify (with_level Z.succ) ;; walk ;; modify (with_level Z.pred)) s
  = (Normal tt, s') ->
  walked s s'.
Proof.
  intros Hwalk Hrun.
  apply bind_Normal_inv in Hrun as ([] & s1 & Hup & Hrun).
  apply bind_Normal_inv in Hrun as ([] & s2 & Hin & Hdown).
  injection Hup as <-. injection Hdown as <-.
  apply Hwalk in Hin as [Hlevel (t & Hev & Hbal)]. split.
  - cbn [level with_level] in Hlevel |- *. rewrite Hlevel. lia.
  - exists t. by split.
Qed.

(** One call for a node other than an element. *)
Lemma leaf_walked (e : Event) (s : State) :
  isLeafEvent e = true -> walked s (with_event e s).
Proof.
  intros He. split; [done |]. exists [e]. split; [done |].
  apply balanced_leaf; [done | constructor].
Qed.

(** ** The depth is untouched by the helpers *)

Definition sameLevel (s s' : State) : Prop := level s' = level s.

#[local] Instance sameLevel_invariant : Invariant (fun _ => True) sameLevel.
Proof. split; unfold sameLevel; intros; [done | congruence | done]. Qed.

Abbreviation flat m := (keeps (fun _ => True) sameLevel m (fun _ => True)).

Ltac flat_leaf := apply keeps_modify; intros; reflexivity.

Section Flat.
Context `{XmlGrammar}.

Lemma _recordNamespaceInformation_flat attrs map lpm :
  flat (_recordNamespaceInformation attrs map lpm).
Proof.
  unfold _recordNamespaceInformation, _recordNamespaceInformation_attr,
    NamespacePrefixMap_has, NamespacePrefixMap_set.
  cbv zeta. keeps_auto flat_leaf.
Qed.

Lemma _serializeElementNS_name_flat ln p ns inh ldn lpm map pi rwf nde :
  flat (_serializeElementNS_name ln p ns inh ldn lpm map pi rwf nde).
Proof.
  unfold _serializeElementNS_name, _generatePrefix, _serializeAttributeValue,
    NamespacePrefixMap_get, NamespacePrefixMap_set, beginElement,
    openTagBegin, emit.
  cbv zeta. keeps_auto flat_leaf.
Qed.

Lemma _serializeAttributesNS_flat attrs map pi lpm ign rwf nde :
  flat (_serializeAttributesNS attrs map pi lpm ign rwf nde).
Proof.
  unfold _serializeAttributesNS, _serializeAttributesNS_attr,
    _serializeAttributesNS_namespaced, _generatePrefix,
    _serializeAttributeValue, NamespacePrefixMap_get, NamespacePrefixMap_has,
    NamespacePrefixMap_hasPrefix, NamespacePrefixMap_set.
  cbv zeta. keeps_auto flat_leaf.
Qed.

Lemma _serializeAttributes_flat attrs rwf nde :
  flat (_serializeAttributes attrs rwf nde).
Proof.
  unfold _serializeAttributes, _serializeAttributes_attr,
    _serializeAttributeValue.
  cbv zeta. keeps_auto flat_leaf.
Qed.

End Flat.

(** ** The attribute pass of the fast path *)

Section FastAttributesRun.
Context `{XmlGrammar}.

Lemma _serializeAttributes_attr_Normal rwf nde a acc s acc' s' :
  _serializeAttributes_attr rwf nde a acc s = (Normal acc', s') ->
  acc'.1 = acc.1 ++ [plainTuple nde a] /\ s' = s.
Proof.
  unfold _serializeAttributes_attr, _serializeAttributeValue. cbv zeta.
  intros Hrun. destruct rwf; cbn [negb] in Hrun.
  - repeat (apply bind_Normal_inv in Hrun as ([] & ? & Hchk & Hrun);
            apply throw_if_Normal_inv in Hchk as [_ ->]).
    apply bind_Normal_inv in Hrun as (v & ? & Hv & Hrun).
    apply bind_Normal_inv in Hv as ([] & ? & Hchk & Hv).
    apply throw_if_Normal_inv in Hchk as [_ ->].
    injection Hv as <- <-. by injection Hrun as <- <-.
  - by injection Hrun as <- <-.
Qed.

Lemma _serializeAttributes_loop_Normal rwf nde attrs acc s acc' s' :
  forEachAcc (_serializeAttributes_attr rwf nde) attrs acc s
  = (Normal acc', s') ->
  acc'.1 = acc.1 ++ List.map (plainTuple nde) attrs /\ s' = s.
Proof.
  revert acc s. induction attrs as [|a attrs IH]; intros acc s Hrun;
    cbn [forEachAcc] in Hrun.
  - injection Hrun as <- <-. by rewrite app_nil_r.
  - apply bind_Normal_inv in Hrun as (acc1 & s1 & Ha & Hrun).
    apply _serializeAttributes_attr_Normal in Ha as [Hacc1 ->].
    apply IH in Hrun as [-> ->]. rewrite Hacc1. cbn [List.map].
    by rewrite <- app_assoc.
Qed.

(** When the pass of the fast path returns, it returns one tuple for every
    attribute, in the order of the attribute list: no namespace, no prefix,
    the local name and the escaped value. *)
Lemma _serializeAttributes_Normal attrs rwf nde s result s' :
  _serializeAttributes attrs rwf nde s = (Normal result, s') ->
  result = List.map (plainTuple nde) attrs /\ s' = s.
Proof.
  unfold _serializeAttributes. cbv zeta. intros Hrun.
  apply bind_Normal_inv in Hrun as (acc & s1 & Hloop & Hrun).
  apply _serializeAttributes_loop_Normal in Hloop as [Hacc ->].
  injection Hrun as <- <-. by rewrite Hacc.
Qed.

End FastAttributesRun.

Section Walk.
Context `{XmlGrammar}.

(** A normal run of [_serializeElementNS]: the open tag up to the
    [attributes] call at the same depth, then either a self-closing end of
    the tag, for an element without children that is not in the HTML
    namespace or is an HTML void element, or the end of the tag, the walk
    over the children (none for an HTML [template]), [closeTag] and
    [endElement]. *)
Lemma _serializeElementNS_Normal rec ln p ns attrs cs namespace pm pi rwf nde
  s s' :
  _serializeElementNS rec ln p ns attrs cs namespace pm pi rwf nde s
  = (Normal tt, s') ->
  exists q a inh map s5,
    level s5 = level s
    /\ events s5
       = events s ++ [E_beginElement q; E_openTagBegin q; E_attributes a]
    /\ ((cs = []
         /\ (ns = Some infraNamespace.HTML -> ln ∈ _VoidElementNames)
         /\ s' = with_event (E_endElement q)
                   (with_event
                      (E_openTagEnd q true
                         (bool_decide (ns = Some infraNamespace.HTML)))
                      s5))
        \/ ((cs <> [] \/ (ns = Some infraNamespace.HTML
                          /\ ln ∉ _VoidElementNames))
            /\ exists s6,
                 ((ns = Some infraNamespace.HTML /\ ln = lit "template"
                   /\ s6 = with_event (E_openTagEnd q false false) s5)
                  \/ ((ns <> Some infraNamespace.HTML
                       \/ ln <> lit "template")
                      /\ forEach
                           (fun c =>
                              modify (with_level Z.succ) ;;
                              rec c inh map pi rwf nde ;;
                              modify (with_level Z.pred))
                           cs (with_event (E_openTagEnd q false false) s5)
                         = (Normal tt, s6)))
                 /\ s' = with_event (E_endElement q)
                           (with_event (E_closeTag q) s6))).
Proof.
  unfold _serializeElementNS. intros Hrun.
  apply bind_Normal_inv in Hrun as ([] & s0 & Hchk & Hrun).
  apply throw_if_Normal_inv in Hchk as [_ ->].
  apply bind_Normal_inv in Hrun as (map & s1 & Hcopy & Hrun).
  injection Hcopy as <- <-.
  apply bind_Normal_inv in Hrun as (recorded & s2 & Hrec & Hrun).
  cbv zeta in Hrun.
  apply bind_Normal_inv in Hrun as (res & s3 & Hname & Hrun).
  apply bind_Normal_inv in Hrun as (more & s4 & Hpass & Hrun).
  apply bind_Normal_inv in Hrun as ([] & s5 & Hattr & Hrun).
  injection Hattr as <-.
  match type of Hrec with
  | _recordNamespaceInformation _ ?m _ ?st = _ =>
      destruct (_recordNamespaceInformation_silent attrs m ∅ st I) as [He2 _];
      destruct (_recordNamespaceInformation_flat attrs m ∅ st I) as [Hl2 _];
      rewrite Hrec in He2, Hl2;
      pose proof (_serializeElementNS_name_events ln p ns namespace
                    recorded.1 recorded.2 m pi rwf nde s2) as He3;
      destruct (_serializeElementNS_name_flat ln p ns namespace recorded.1
                  recorded.2 m pi rwf nde s2 I) as [Hl3 _];
      cbv zeta in He3; rewrite Hname in He3, Hl3;
      destruct (_serializeAttributesNS_silent attrs m pi recorded.2
                  (r_ignoreNamespaceDefinitionAttribute res) rwf nde s3 I)
        as [He4 _];
      destruct (_serializeAttributesNS_flat attrs m pi recorded.2
                  (r_ignoreNamespaceDefinitionAttribute res) rwf nde s3 I)
        as [Hl4 _];
      rewrite Hpass in He4, Hl4;
      exists (r_qualifiedName res), (r_attributes res ++ more),
        (r_inheritedNS res), m
  end.
  unfold sameEvents, sameLevel in *. cbn [fst snd] in *.
  eexists. split_and!.
  3:{ unfold openTagEnd, endElement, closeTag, emit in Hrun.
      destruct (Nat.eqb_spec (length cs) 0) as [Hlen|Hlen].
      - assert (cs = []) as -> by (by destruct cs).
        rewrite !andb_true_r in Hrun.
        case_bool_decide as Hhtml; cbn [andb negb] in Hrun.
        + case_bool_decide as Hvoid.
          * left. split_and!; [done | done |]. by injection Hrun as <-.
          * right. split; [right; by split |].
            apply bind_Normal_inv in Hrun as ([] & s6 & Hote & Hrun).
            injection Hote as <-.
            apply bind_Normal_inv in Hrun as ([] & s7 & Hloop & Hrun).
            exists s7. split; [|by injection Hrun as <-].
            case_bool_decide as Htemplate; [left | by right; split; [right |]].
            split_and!; [done | done |]. by injection Hloop as <-.
        + left. split_and!; [done | done |]. by injection Hrun as <-.
      - rewrite !andb_false_r in Hrun. cbn [andb] in Hrun.
        right. split; [left; by destruct cs |].
        apply bind_Normal_inv in Hrun as ([] & s6 & Hote & Hrun).
        injection Hote as <-.
        apply bind_Normal_inv in Hrun as ([] & s7 & Hloop & Hrun).
        exists s7. split; [|by injection Hrun as <-].
        case_bool_decide as Hhtml; cbn [andb] in Hloop;
          [|by right; split; [left |]].
        case_bool_decide as Htemplate; [left | by right; split; [right |]].
        split_and!; [done | done |]. by injection Hloop as <-. }
  - cbn [level with_event]. by rewrite Hl4, Hl3, Hl2.
  - cbn [events with_event].
    rewrite He4, He3, He2. unfold openTag. cbn [events with_prefixMaps].
    by rewrite <- !app_assoc.
Qed.

(** The same for the fast path, whose [attributes] call has one tuple for
    every attribute. *)
Lemma _serializeElement_Normal rec ln attrs cs rwf nde s s' :
  _serializeElement rec ln attrs cs rwf nde s = (Normal tt, s') ->
  exists s5,
    level s5 = level s
    /\ events s5
       = events s ++ [E_beginElement ln; E_openTagBegin ln;
                      E_attributes (List.map (plainTuple nde) attrs)]
    /\ ((cs = []
         /\ s' = with_event (E_endElement ln)
                   (with_event (E_openTagEnd ln true false) s5))
        \/ (cs <> []
            /\ exists s6,
                 forEach
                   (fun c =>
                      modify (with_level Z.succ) ;;
                      rec c rwf nde ;;
                      modify (with_level Z.pred))
                   cs (with_event (E_openTagEnd ln false false) s5)
                 = (Normal tt, s6)
                 /\ s' = with_event (E_endElement ln)
                           (with_event (E_closeTag ln) s6))).
Proof.
  unfold _serializeElement. cbv zeta. intros Hrun.
  apply bind_Normal_inv in Hrun as ([] & s0 & Hchk & Hrun).
  apply throw_if_Normal_inv in Hchk as [_ ->].
  apply bind_Normal_inv in Hrun as ([] & s1 & Hbegin & Hrun).
  injection Hbegin as <-.
  apply bind_Normal_inv in Hrun as ([] & s2 & Hotb & Hrun).
  injection Hotb as <-.
  apply bind_Normal_inv in Hrun as (a & s3 & Hpass & Hrun).
  apply _serializeAttributes_Normal in Hpass as [-> ->].
  apply bind_Normal_inv in Hrun as ([] & s4 & Hattr & Hrun).
  injection Hattr as <-.
  eexists. split_and!.
  3:{ unfold openTagEnd, endElement, closeTag, emit in Hrun.
      destruct (Nat.eqb_spec (length cs) 0) as [Hlen|Hlen].
      - left. split; [by destruct cs |]. by injection Hrun as <-.
      - right. split; [by destruct cs |].
        apply bind_Normal_inv in Hrun as ([] & s6 & Hote & Hrun).
        injection Hote as <-.
        apply bind_Normal_inv in Hrun as ([] & s7 & Hloop & Hrun).
        exists s7. split; [exact Hloop | by injection Hrun as <-]. }
  - reflexivity.
  - cbn [events with_event]. by rewrite <- !app_assoc.
Qed.

(** The shape of the calls for an element whose content is balanced. *)
Lemma element_walked (q : jsstring) (a : list AttrTuple) (s s5 s6 : State) :
  level s5 = level s ->
  events s5 = events s ++ [E_beginElement q; E_openTagBegin q; E_attributes a] ->
  walked (with_event (E_openTagEnd q false false) s5) s6 ->
  walked s (with_event (E_endElement q) (with_event (E_closeTag q) s6)).
Proof.
  intros Hl He [Hl6 (t & He6 & Hbal)]. split.
  - cbn [level with_event] in *. congruence.
  - exists ([E_beginElement q; E_openTagBegin q; E_attributes a;
             E_openTagEnd q false false]
            ++ t ++ [E_closeTag q; E_endElement q] ++ []).
    split; [|apply balanced_element; [done | constructor]].
    cbn [events with_event] in *. rewrite He6, He.
    rewrite app_nil_r, <- !app_assoc. reflexivity.
Qed.

Lemma selfClosing_walked (q : jsstring) (a : list AttrTuple) (v : bool)
  (s s5 : State) :
  level s5 = level s ->
  events s5 = events s ++ [E_beginElement q; E_openTagBegin q; E_attributes a] ->
  walked s (with_event (E_endElement q)
              (with_event (E_openTagEnd q true v) s5)).
Proof.
  intros Hl He. split; [done |].
  exists ([E_beginElement q; E_openTagBegin q; E_attributes a;
           E_openTagEnd q true v; E_endElement q] ++ []).
  split; [|apply balanced_selfClosing; constructor].
  cbn [events with_event]. rewrite He, app_nil_r, <- !app_assoc. reflexivity.
Qed.

Lemma currentNode_walked (node : Node) (s s' : State) :
  with_currentNode node s = s' -> walked s s'.
Proof. intros <-. apply (walked_refl s). Qed.

Lemma leaf_nodes_walked data rwf nde name publicId systemId target s s' :
  _serializeComment data rwf nde s = (Normal tt, s')
  \/ _serializeText data rwf nde s = (Normal tt, s')
  \/ _serializeCData data rwf nde s = (Normal tt, s')
  \/ _serializeDocumentType name publicId systemId rwf nde s = (Normal tt, s')
  \/ _serializeProcessingInstruction target data rwf nde s = (Normal tt, s') ->
  walked s s'.
Proof.
  unfold _serializeComment, _serializeText, _serializeCData,
    _serializeDocumentType, _serializeProcessingInstruction, comment, text,
    cdata, docType, instruction, emit.
  cbv zeta. intros [Hrun|[Hrun|[Hrun|[Hrun|Hrun]]]];
    repeat (apply bind_Normal_inv in Hrun as ([] & ? & Hchk & Hrun);
            apply throw_if_Normal_inv in Hchk as [_ ->]);
    injection Hrun as <-; by apply leaf_walked.
Qed.

Lemma _serializeNodeNS_walked (node : Node) :
  forall namespace pm pi rwf nde s s',
    _serializeNodeNS node namespace pm pi rwf nde s = (Normal tt, s') ->
    walked s s'.
Proof.
  induction node as [ln p ns attrs cs IH|cs IH|cs IH| | | | | |]
    using Node_ind_children;
    intros namespace pm pi rwf nde s s' Hrun; cbn [_serializeNodeNS] in Hrun;
    apply bind_Normal_inv in Hrun as ([] & s0 & Hcur & Hrun);
    injection Hcur as Hcur;
    (eapply walked_trans; [apply (currentNode_walked _ s s0 Hcur) |]);
    clear Hcur.
  - apply _serializeElementNS_Normal in Hrun
      as (q & a & inh & map & s5 & Hl & He
          & [(-> & _ & ->)|(_ & s6 & Hloop & ->)]).
    + by eapply selfClosing_walked.
    + eapply (element_walked q a _ s5); [eassumption | eassumption |].
      destruct Hloop as [(_ & _ & ->)|[_ Hloop]]; [apply walked_refl |].
      eapply forEach_walked; [|exact Hloop].
      eapply Forall_impl; [exact IH |]. intros c Hc s1 s2 Hbody. cbn beta in *.
      eapply descend_walked; [|exact Hbody]. intros ? ?. apply Hc.
  - unfold _serializeDocumentNS in Hrun.
    apply bind_Normal_inv in Hrun as ([] & ? & Hchk & Hrun).
    apply throw_if_Normal_inv in Hchk as [_ ->].
    eapply forEach_walked; [|exact Hrun].
    eapply Forall_impl; [exact IH |]. intros c Hc s1 s2. apply Hc.
  - unfold _serializeDocumentFragmentNS in Hrun.
    eapply forEach_walked; [|exact Hrun].
    eapply Forall_impl; [exact IH |]. intros c Hc s1 s2. apply Hc.
  - apply (leaf_nodes_walked [] rwf nde name publicId systemId [] s0 s').
    by do 3 right; left.
  - apply (leaf_nodes_walked data rwf nde [] [] [] [] s0 s'). by right; left.
  - apply (leaf_nodes_walked data rwf nde [] [] [] [] s0 s'). by left.
  - apply (leaf_nodes_walked data rwf nde [] [] [] [] s0 s').
    by do 2 right; left.
  - apply (leaf_nodes_walked data rwf nde [] [] [] target s0 s').
    by do 4 right.
  - discriminate.
Qed.

Lemma _serializeNode_walked (node : Node) :
  forall rwf nde s s',
    _serializeNode node rwf nde s = (Normal tt, s') -> walked s s'.
Proof.
  induction node as [ln p ns attrs cs IH|cs IH|cs IH| | | | | |]
    using Node_ind_children;
    intros rwf nde s s' Hrun; cbn [_serializeNode] in Hrun;
    apply bind_Normal_inv in Hrun as ([] & s0 & Hcur & Hrun);
    injection Hcur as Hcur;
    (eapply walked_trans; [apply (currentNode_walked _ s s0 Hcur) |]);
    clear Hcur.
  - apply _serializeElement_Normal in Hrun
      as (s5 & Hl & He & [[-> ->]|(_ & s6 & Hloop & ->)]).
    + by eapply selfClosing_walked.
    + eapply (element_walked ln _ _ s5); [eassumption | eassumption |].
      eapply forEach_walked; [|exact Hloop].
      eapply Forall_impl; [exact IH |]. intros c Hc s1 s2 Hbody. cbn beta in *.
      eapply descend_walked; [|exact Hbody]. intros ? ?. apply Hc.
  - unfold _serializeDocument in Hrun.
    apply bind_Normal_inv in Hrun as ([] & ? & Hchk & Hrun).
    apply throw_if_Normal_inv in Hchk as [_ ->].
    eapply forEach_walked; [|exact Hrun].
    eapply Forall_impl; [exact IH |]. intros c Hc s1 s2. apply Hc.
  - unfold _serializeDocumentFragment in Hrun.
    eapply forEach_walked; [|exact Hrun].
    eapply Forall_impl; [exact IH |]. intros c Hc s1 s2. apply Hc.
  - apply (leaf_nodes_walked [] rwf nde name publicId systemId [] s0 s').
    by do 3 right; left.
  - apply (leaf_nodes_walked data rwf nde [] [] [] [] s0 s'). by right; left.
  - apply (leaf_nodes_walked data rwf nde [] [] [] [] s0 s'). by left.
  - apply (leaf_nodes_walked data rwf nde [] [] [] [] s0 s').
    by do 2 right; left.
  - apply (leaf_nodes_walked data rwf nde [] [] [] target s0 s').
    by do 4 right.
  - discriminate.
Qed.

(** The state in which [serializeNode] starts its walker. *)
Lemma serializeNode_Normal hasNamespaces node rwf nde s s' :
  serializeNode hasNamespaces node rwf nde s = (Normal tt, s') ->
  exists s0,
    level s0 = 0 /\ events s0 = events s
    /\ ((hasNamespaces = true
         /\ exists pm pi,
              _serializeNodeNS node None pm pi rwf nde s0 = (Normal tt, s'))
        \/ (hasNamespaces = false
            /\ _serializeNode node rwf nde s0 = (Normal tt, s'))).
Proof.
  unfold serializeNode. intros Hrun.
  apply bind_Normal_inv in Hrun as ([] & s1 & Hlevel & Hrun).
  injection Hlevel as <-.
  apply bind_Normal_inv in Hrun as ([] & s2 & Hcur & Hrun).
  injection Hcur as <-.
  destruct hasNamespaces.
  - apply bind_Normal_inv in Hrun as (pm & s3 & Hnew & Hrun).
    injection Hnew as <- <-.
    apply bind_Normal_inv in Hrun as ([] & s4 & Hset & Hrun).
    injection Hset as <-.
    apply bind_Normal_inv in Hrun as (pi & s5 & Hidx & Hrun).
    injection Hidx as <- <-.
    unfold try_catch in Hrun.
    eexists. split_and!; [| |left; split; [done |]; eexists _, _].
    3:{ destruct (_serializeNodeNS _ _ _ _ _ _ _) as [[[]|e] s6] eqn:Hwalk;
          [|discriminate].
        injection Hrun as <-. exact Hwalk. }
    all: reflexivity.
  - unfold try_catch in Hrun.
    eexists. split_and!; [| |right; split; [done |]].
    3:{ destruct (_serializeNode _ _ _ _) as [[[]|e] s6] eqn:Hwalk;
          [|discriminate].
        injection Hrun as <-. exact Hwalk. }
    all: reflexivity.
Qed.


(** [level] is the depth of the node being serialized: it is 0 again when
    [serializeNode] returns, and both walkers leave it as they found it. *)
Theorem level_is_restored
  (hasNamespaces : bool) (node : Node) (namespace : option jsstring)
  (prefixMap prefixIndex : ref) (requireWellFormed noDoubleEncoding : bool)
  (s s' : State) :
  (serializeNode hasNamespaces node requireWellFormed noDoubleEncoding s
   = (Normal tt, s') -> level s' = 0)
  /\ (_serializeNodeNS node namespace prefixMap prefixIndex requireWellFormed
        noDoubleEncoding s = (Normal tt, s') -> level s' = level s)
  /\ (_serializeNode node requireWellFormed noDoubleEncoding s
      = (Normal tt, s') -> level s' = level s).
Proof.
  split_and!.
  - intros Hrun.
    apply serializeNode_Normal in Hrun
      as (s0 & Hl & _ & [[_ (pm & pi & Hrun)]|[_ Hrun]]).
    + apply _serializeNodeNS_walked in Hrun as [Hlevel _]. congruence.
    + apply _serializeNode_walked in Hrun as [Hlevel _]. congruence.
  - intros Hrun. by apply _serializeNodeNS_walked in Hrun as [Hlevel _].
  - intros Hrun. by apply _serializeNode_walked in Hrun as [Hlevel _].
Qed.

End Walk.


Lemma level_is_restored_witness :
  let node :=
    Element (lit "a") None None [] [Element (lit "b") None None [] []] in
  let r := serializeNode (H := XML10.grammar) false node true false
             initialState in
  let w := _serializeNode (H := XML10.grammar) node true false initialState in
  r = (Normal tt, r.2) /\ level r.2 = 0
  /\ w = (Normal tt, w.2) /\ level w.2 = level initialState.
Proof.
  intros node r w.
  assert (r = (Normal tt, r.2)) as Hr by (vm_compute; reflexivity).
  assert (w = (Normal tt, w.2)) as Hw by (vm_compute; reflexivity).
  split_and!; [exact Hr | | exact Hw |].
  - apply (level_is_restored (H := XML10.grammar) false node None 0%nat 0%nat
             true false initialState r.2). exact Hr.
  - apply (level_is_restored (H := XML10.grammar) false node None 0%nat 0%nat
             true false initialState w.2). exact Hw.
Defined.

(** ** Elements of the HTML namespace *)

Section HtmlElements.
Context `{XmlGrammar}.

(** In the HTML namespace only the void elements are self-closing: when the
    namespace-aware walker returns from an HTML element without children,
    the sink has received a self-closing open tag marked as void element if
    the local name is one of the void element names, and otherwise an open
    tag directly followed by [closeTag].  The children of an HTML
    [template] element are not serialized: its calls are those of an element
    without content. *)
Theorem html_elements_close_by_name
  (localName : jsstring) (prefix : option jsstring) (attrs : list Attr)
  (childNodes : list Node) (namespace : option jsstring)
  (prefixMap prefixIndex : ref) (requireWellFormed noDoubleEncoding : bool)
  (s s' : State) :
  _serializeNodeNS
    (Element localName prefix (Some infraNamespace.HTML) attrs childNodes)
    namespace prefixMap prefixIndex requireWellFormed noDoubleEncoding s
  = (Normal tt, s') ->
  exists q a,
    (childNodes = [] -> localName ∈ _VoidElementNames ->
     events s'
     = events s ++ [E_beginElement q; E_openTagBegin q; E_attributes a;
                    E_openTagEnd q true true; E_endElement q])
    /\ ((childNodes = [] /\ localName ∉ _VoidElementNames)
        \/ localName = lit "template" ->
        events s'
        = events s ++ [E_beginElement q; E_openTagBegin q; E_attributes a;
                       E_openTagEnd q false false; E_closeTag q;
                       E_endElement q]).
Proof.
  assert (lit "template" ∉ _VoidElementNames) as Htemplate.
  { intros Hin. apply (bool_decide_eq_true_2 _) in Hin.
    vm_compute in Hin. discriminate. }
  cbn [_serializeNodeNS]. intros Hrun.
  apply bind_Normal_inv in Hrun as ([] & s0 & Hcur & Hrun).
  injection Hcur as <-.
  apply _serializeElementNS_Normal in Hrun
    as (q & a & inh & map & s5 & _ & He & Htail).
  cbn [events with_currentNode] in He.
  exists q, a. split.
  - intros -> Hvoid.
    destruct Htail as [(_ & _ & ->)|([?|[_ ?]] & _)]; [|done | done].
    rewrite bool_decide_eq_true_2 by done. cbn [events with_event].
    rewrite He, <- !app_assoc. reflexivity.
  - intros Hcase.
    destruct Htail as [(-> & Hvoid & _)|(_ & s6 & Hloop & ->)].
    + specialize (Hvoid eq_refl).
      destruct Hcase as [[_ ?]| ->]; [done | by apply Htemplate in Hvoid].
    + assert (s6 = with_event (E_openTagEnd q false false) s5) as ->.
      { destruct Hloop as [(_ & _ & ->)|[Hnot Hloop]]; [done |].
        destruct Hcase as [[-> _]| ->].
        - by injection Hloop as <-.
        - by destruct Hnot. }
      cbn [events with_event]. rewrite He, <- !app_assoc. reflexivity.
Qed.

End HtmlElements.

Lemma html_elements_close_by_name_witness :
  let w := _serializeNodeNS (H := XML10.grammar)
             (Element (lit "br") None (Some infraNamespace.HTML) [] []) None
             0%nat 0%nat true false initialState in
  w = (Normal tt, w.2)
  /\ exists q a,
       events w.2
       = events initialState
         ++ [E_beginElement q; E_openTagBegin q; E_attributes a;
             E_openTagEnd q true true; E_endElement q].
Proof.
  intros w.
  assert (w = (Normal tt, w.2)) as Hw by (vm_compute; reflexivity).
  split; [exact Hw |].
  destruct (html_elements_close_by_name (H := XML10.grammar) (lit "br") None
              [] [] None 0%nat 0%nat true false initialState w.2 Hw)
    as (q & a & Hvoid & _).
  exists q, a. apply Hvoid; [reflexivity |].
  unfold _VoidElementNames. cbn [List.map].
  do 4 apply list_elem_of_further. apply list_elem_of_here.
Defined.

(** ** The fast path against the namespace-aware path, on trees without
    namespaces *)

(** An attribute in no namespace; under [requireWellFormed] its name is
    neither [xmlns] nor the name of a property that every plain object
    inherits. *)
Definition plainAttribute (rwf : bool) (a : Attr) : bool :=
  bool_decide (attr_namespaceURI a = None)
  && (negb rwf
      || (negb (bool_decide (attr_localName a = lit "xmlns"))
          && negb (bool_decide (attr_localName a ∈ Object_prototype_keys)))).

(** A tree whose elements and attributes are all in no namespace. *)
Fixpoint namespaceFree (rwf : bool) (node : Node) : bool :=
  match node with
  | Element _ _ namespaceURI attrs childNodes =>
      bool_decide (namespaceURI = None)
      && forallb (plainAttribute rwf) attrs
      && forallb (namespaceFree rwf) childNodes
  | Document childNodes => forallb (namespaceFree rwf) childNodes
  | DocumentFragment childNodes => forallb (namespaceFree rwf) childNodes
  | _ => true
  end.

(** What the two paths have in common: the writer's fields and the calls
    received by the sink.  The store of prefix maps is used by one path
    only. *)
Definition sameWriter (s1 s2 : State) : Prop :=
  level s1 = level s2 /\ currentNode s1 = currentNode s2
  /\ events s1 = events s2.

(** Two computations that, started in states with the same writer, end
    with the same outcome in states with the same writer. *)
Definition agree {A} (m1 m2 : M A) : Prop :=
  forall s1 s2, sameWriter s1 s2 ->
    (m1 s1).1 = (m2 s2).1 /\ sameWriter (m1 s1).2 (m2 s2).2.

Lemma agree_ret {A} (a : A) : agree (ret a) (ret a).
Proof. by intros s1 s2 Hs. Qed.

Lemma agree_throw_if (c : bool) (msg : string) :
  agree (throw_if c msg) (throw_if c msg).
Proof. intros s1 s2 Hs. by destruct c. Qed.

Lemma agree_throw {A} (e : Exn) : agree (@throw A e) (throw e).
Proof. by intros s1 s2 Hs. Qed.

Lemma agree_emit (e : Event) : agree (emit e) (emit e).
Proof.
  intros s1 s2 (Hl & Hc & He). split; [done |]. split_and!; [done | done |].
  cbn. by rewrite He.
Qed.

Lemma agree_level (f : Z -> Z) :
  agree (modify (with_level f)) (modify (with_level f)).
Proof.
  intros s1 s2 (Hl & Hc & He). split; [done |]. split_and!; [|done | done].
  cbn. by rewrite Hl.
Qed.

Lemma agree_currentNode (node : Node) :
  agree (modify (with_currentNode node)) (modify (with_currentNode node)).
Proof. intros s1 s2 (Hl & Hc & He). by split. Qed.

Lemma agree_bind {A B} (m1 m2 : M A) (k1 k2 : A -> M B) :
  agree m1 m2 -> (forall a, agree (k1 a) (k2 a)) ->
  agree (bind m1 k1) (bind m2 k2).
Proof.
  intros Hm Hk s1 s2 Hs. destruct (Hm s1 s2 Hs) as [Ho Hs']. unfold bind.
  destruct (m1 s1) as [[a1|e1] s1'], (m2 s2) as [[a2|e2] s2'];
    cbn [fst snd] in *; try discriminate.
  - injection Ho as <-. by apply Hk.
  - injection Ho as <-. by split.
Qed.

Lemma agree_try_catch {A} (m1 m2 : M A) (h : Exn -> M A) :
  agree m1 m2 -> (forall e, agree (h e) (h e)) ->
  agree (try_catch m1 h) (try_catch m2 h).
Proof.
  intros Hm Hh s1 s2 Hs. destruct (Hm s1 s2 Hs) as [Ho Hs']. unfold try_catch.
  destruct (m1 s1) as [[a1|e1] s1'], (m2 s2) as [[a2|e2] s2'];
    cbn [fst snd] in *; try discriminate.
  - by split.
  - injection Ho as <-. by apply Hh.
Qed.

Lemma agree_forEach {A} (f1 f2 : A -> M unit) (l : list A) :
  Forall (fun x => agree (f1 x) (f2 x)) l ->
  agree (forEach f1 l) (forEach f2 l).
Proof.
  induction 1 as [|x l Hx Hl IH]; cbn [forEach]; [apply agree_ret |].
  apply agree_bind; [exact Hx | intros _; exact IH].
Qed.

(** A step of the first computation that returns and leaves the writer as
    it is has no counterpart in the second. *)
Lemma agree_skip {A B} (m : M A) (k : A -> M B) (m2 : M B) (Q : A -> Prop) :
  (forall s, exists a s',
      m s = (Normal a, s') /\ sameWriter s' s /\ Q a) ->
  (forall a, Q a -> agree (k a) m2) ->
  agree (bind m k) m2.
Proof.
  intros Hm Hk s1 s2 Hs. destruct (Hm s1) as (a & s1' & Hrun & Hw & Ha).
  unfold bind. rewrite Hrun. apply Hk; [done |].
  destruct Hw as (? & ? & ?), Hs as (? & ? & ?). split_and!; congruence.
Qed.

(** The first computation may be replaced by one that runs the same. *)
Lemma agree_ext {A} (m1 m1' m2 : M A) :
  (forall s, m1 s = m1' s) -> agree m1' m2 -> agree m1 m2.
Proof. intros Hext Hm s1 s2 Hs. rewrite Hext. by apply Hm. Qed.

Section SamePath.
Context `{XmlGrammar}.

(** Attributes in no namespace declare nothing. *)
Lemma _recordNamespaceInformation_plain rwf attrs map acc s :
  forallb (plainAttribute rwf) attrs = true ->
  forEachAcc (_recordNamespaceInformation_attr map) attrs acc s
  = (Normal acc, s).
Proof.
  induction attrs as [|a attrs IH]; [done |]. cbn [forallb forEachAcc].
  intros [Ha Hattrs]%andb_true_iff. rewrite bind_run.
  unfold _recordNamespaceInformation_attr at 1. cbv zeta.
  apply andb_true_iff in Ha as [Hns%bool_decide_eq_true _]. rewrite Hns.
  rewrite decide_False by done. cbn [ret]. by apply IH.
Qed.

(** The local name set of the namespace-aware pass and the object of the
    fast pass hold the same names. *)
Definition sameNames (lns : option LocalNameSet.t)
  (o : option (gmap jsstring bool)) : Prop :=
  match lns, o with
  | Some lns, Some o => forall k, (None, k) ∈ lns <-> is_Some (o !! k)
  | None, None => True
  | _, _ => False
  end.

(** The outcome of a pass, without the names it has seen. *)
Definition passResult {B} (r : Outcome (list AttrTuple * B))
  : Outcome (list AttrTuple) :=
  match r with
  | Normal acc => Normal acc.1
  | Throw e => Throw e
  end.

Lemma attribute_passes_agree rwf nde map pi attrs :
  forallb (plainAttribute rwf) attrs = true ->
  forall result lns o s1 s2,
    sameNames lns o ->
    exists r1 r2,
      forEachAcc (_serializeAttributesNS_attr map pi ∅ false rwf nde)
        attrs (result, lns) s1 = (r1, s1)
      /\ forEachAcc (_serializeAttributes_attr rwf nde) attrs (result, o) s2
         = (r2, s2)
      /\ passResult r1 = passResult r2.
Proof.
  induction attrs as [|a attrs IH].
  { intros _ result lns o s1 s2 _. eexists _, _. split_and!; reflexivity. }
  cbn [forallb].
  intros [Ha Hattrs]%andb_true_iff result lns o s1 s2 Hnames.
  cbn [forEachAcc]. rewrite !bind_run.
  apply andb_true_iff in Ha as [Hns%bool_decide_eq_true Hname].
  unfold _serializeAttributesNS_attr at 1, _serializeAttributes_attr at 1.
  cbv zeta. cbn [fst snd negb andb]. rewrite Hns.
  rewrite bool_decide_eq_true_2 by done. rewrite andb_true_r.
  unfold _serializeAttributeValue, throw_if, bind, ret, throw.
  destruct rwf; cbn [negb andb orb] in *.
  2:{ apply (IH Hattrs). exact Hnames. }
  apply andb_true_iff in Hname
    as [Hxmlns%negb_true_iff Hproto%negb_true_iff].
  rewrite Hxmlns. cbn [andb]. rewrite orb_false_r.
  destruct lns as [lns|], o as [o|]; try done; cbn [fmap option_fmap option_map].
  - unfold LocalNameSet.has, obj_in. rewrite Hproto, orb_false_r.
    cbn [sameNames] in Hnames.
    rewrite (bool_decide_ext _ _ (Hnames (attr_localName a))).
    destruct (bool_decide (is_Some _)); [eexists _, _; split_and!; reflexivity |].
    destruct (includes _ _ || negb _); [eexists _, _; split_and!; reflexivity |].
    destruct (negb (xml_isLegalChar _)); [eexists _, _; split_and!; reflexivity |].
    apply (IH Hattrs). cbn [sameNames]. intros k.
    unfold LocalNameSet.set, obj_set.
    apply bool_decide_eq_false in Hproto.
    rewrite decide_False.
    2:{ intros Hk. apply Hproto. rewrite Hk. unfold Object_prototype_keys.
        cbn [List.map]. rewrite !elem_of_cons. tauto. }
    rewrite elem_of_union, elem_of_singleton.
    destruct (decide (k = attr_localName a)) as [->|Hne].
    + rewrite lookup_insert_eq. split; [by eexists | by left].
    + rewrite lookup_insert_ne by done. rewrite <- Hnames.
      split; [intros [[=]|?]; done | by right].
  - destruct (includes _ _ || negb _); [eexists _, _; split_and!; reflexivity |].
    destruct (negb (xml_isLegalChar _)); [eexists _, _; split_and!; reflexivity |].
    by apply (IH Hattrs).
Qed.

Lemma _serializeAttributes_agree rwf nde map pi attrs :
  forallb (plainAttribute rwf) attrs = true ->
  agree (_serializeAttributesNS attrs map pi ∅ false rwf nde)
    (_serializeAttributes attrs rwf nde).
Proof.
  intros Hattrs s1 s2 Hs.
  unfold _serializeAttributesNS, _serializeAttributes. cbv zeta.
  rewrite !bind_run.
  destruct (attribute_passes_agree rwf nde map pi attrs Hattrs []
              (if rwf then Some LocalNameSet.empty else None)
              (if rwf then Some ∅ else None) s1 s2)
    as (r1 & r2 & -> & -> & Hres).
  { destruct rwf; [|done]. cbn [sameNames]. intros k.
    unfold LocalNameSet.empty. rewrite lookup_empty.
    split; [by intros ?%not_elem_of_empty | by intros [? ?]]. }
  destruct r1 as [acc1|e1], r2 as [acc2|e2]; cbn [passResult] in Hres;
    try discriminate; cbn [fst snd ret].
  - injection Hres as ->. by split.
  - injection Hres as ->. by split.
Qed.

End SamePath.

Section SamePathWalk.
Context `{XmlGrammar}.

Lemma leaf_nodes_agree data rwf nde name publicId systemId target :
  agree (_serializeComment data rwf nde) (_serializeComment data rwf nde)
  /\ agree (_serializeText data rwf nde) (_serializeText data rwf nde)
  /\ agree (_serializeCData data rwf nde) (_serializeCData data rwf nde)
  /\ agree (_serializeDocumentType name publicId systemId rwf nde)
       (_serializeDocumentType name publicId systemId rwf nde)
  /\ agree (_serializeProcessingInstruction target data rwf nde)
       (_serializeProcessingInstruction target data rwf nde).
Proof.
  unfold _serializeComment, _serializeText, _serializeCData,
    _serializeDocumentType, _serializeProcessingInstruction, comment, text,
    cdata, docType, instruction.
  cbv zeta.
  split_and!;
    repeat first [ apply agree_emit | apply agree_throw_if
                 | (apply agree_bind; [|intros _]) ].
Qed.

Lemma _serializeNodeNS_agree (rwf nde : bool) (node : Node) :
  namespaceFree rwf node = true ->
  forall pm pi,
    agree (_serializeNodeNS node None pm pi rwf nde)
      (_serializeNode node rwf nde).
Proof.
  induction node as [ln p ns attrs cs IH|cs IH|cs IH| | | | | |]
    using Node_ind_children;
    intros Hfree pm pi; cbn [_serializeNodeNS _serializeNode];
    (apply agree_bind; [apply agree_currentNode | intros _]);
    cbn [namespaceFree] in Hfree.
  - apply andb_true_iff in Hfree as [[Hns Hattrs]%andb_true_iff Hcs].
    apply bool_decide_eq_true in Hns as ->.
    unfold _serializeElementNS, _serializeElement. cbv zeta.
    apply agree_bind; [apply agree_throw_if | intros _].
    apply (agree_skip _ _ _ (fun _ => True)).
    { intros s. by eexists _, _. }
    intros map _.
    apply (agree_skip _ _ _ (fun r => r = (None, ∅))).
    { intros s. exists (None, ∅), s. split; [|done].
      by apply (_recordNamespaceInformation_plain rwf). }
    intros recorded ->. cbn [fst snd].
    match goal with
    | |- agree (bind _ ?K) _ =>
        apply (agree_ext _
                 (beginElement ln ;; openTagBegin ln ;;
                  K (mkResolved ln None false [])))
    end.
    { intros s. rewrite bind_run, _serializeElementNS_name_same.
      cbv zeta. rewrite decide_False by done.
      rewrite bool_decide_eq_false_2 by (intros Hn; by apply Hn).
      reflexivity. }
    cbv beta.
    cbn [r_qualifiedName r_inheritedNS r_attributes
         r_ignoreNamespaceDefinitionAttribute].
    rewrite (bool_decide_eq_false_2 (None = Some infraNamespace.HTML))
      by done.
    cbn [andb negb app].
    unfold beginElement, openTagBegin, attributes, openTagEnd, endElement,
      closeTag.
    apply agree_bind; [apply agree_emit | intros _].
    apply agree_bind; [apply agree_emit | intros _].
    apply agree_bind; [by apply _serializeAttributes_agree | intros a].
    apply agree_bind; [apply agree_emit | intros _].
    destruct (length cs =? 0)%nat.
    + apply agree_bind; [apply agree_emit | intros _]. apply agree_emit.
    + apply agree_bind; [apply agree_emit | intros _].
      apply agree_bind; [|intros _; apply agree_bind;
                                    [apply agree_emit | intros _; apply agree_emit]].
      apply agree_forEach. rewrite Forall_forall in IH |- *.
      rewrite forallb_forall in Hcs. intros c Hc.
      apply agree_bind; [apply agree_level | intros _].
      apply agree_bind; [|intros _; apply agree_level].
      apply IH; [done |]. apply Hcs. by apply list_elem_of_In.
  - unfold _serializeDocumentNS, _serializeDocument.
    apply agree_bind; [apply agree_throw_if | intros _].
    apply agree_forEach. rewrite Forall_forall in IH |- *.
    rewrite forallb_forall in Hfree. intros c Hc.
    apply IH; [done |]. apply Hfree. by apply list_elem_of_In.
  - unfold _serializeDocumentFragmentNS, _serializeDocumentFragment.
    apply agree_forEach. rewrite Forall_forall in IH |- *.
    rewrite forallb_forall in Hfree. intros c Hc.
    apply IH; [done |]. apply Hfree. by apply list_elem_of_In.
  - apply (leaf_nodes_agree [] rwf nde name publicId systemId []).
  - apply (leaf_nodes_agree data rwf nde [] [] [] []).
  - apply (leaf_nodes_agree data rwf nde [] [] [] []).
  - apply (leaf_nodes_agree data rwf nde [] [] [] []).
  - apply (leaf_nodes_agree data rwf nde [] [] [] target).
  - apply agree_throw.
Qed.

(** On a tree whose elements and attributes are all in no namespace, the
    namespace-aware path and the fast path of [serializeNode] end alike:
    the same result or the same exception, the same calls to the sink in
    the same order, the same [level] and [currentNode].  Under
    [requireWellFormed] this needs that no attribute is named [xmlns] or
    like a property inherited from [Object.prototype], the two cases in
    which the paths differ. *)
Theorem paths_agree_on_namespace_free_trees
  (node : Node) (requireWellFormed noDoubleEncoding : bool) (s : State) :
  namespaceFree requireWellFormed node = true ->
  let aware := serializeNode true node requireWellFormed noDoubleEncoding s in
  let fast := serializeNode false node requireWellFormed noDoubleEncoding s in
  aware.1 = fast.1
  /\ events aware.2 = events fast.2
  /\ level aware.2 = level fast.2
  /\ currentNode aware.2 = currentNode fast.2.
Proof.
  intros Hfree. cbv zeta.
  assert (agree
            (serializeNode true node requireWellFormed noDoubleEncoding)
            (serializeNode false node requireWellFormed noDoubleEncoding))
    as Hagree.
  { unfold serializeNode.
    apply agree_bind; [apply agree_level | intros _].
    apply agree_bind; [apply agree_currentNode | intros _].
    apply (agree_skip _ _ _ (fun _ => True)).
    { intros s0. by eexists _, _. }
    intros pm _.
    apply (agree_skip _ _ _ (fun _ => True)).
    { intros s0. by eexists _, _. }
    intros _ _.
    apply (agree_skip _ _ _ (fun _ => True)).
    { intros s0. by eexists _, _. }
    intros pi _.
    apply agree_try_catch; [by apply _serializeNodeNS_agree |].
    intros e. apply agree_throw. }
  destruct (Hagree s s) as (Ho & Hl & Hc & He); [done |].
  by split_and!.
Qed.

End SamePathWalk.

Lemma paths_agree_on_namespace_free_trees_witness :
  let node :=
    Element (lit "a") None None [mkAttr None None (lit "x") (lit "1")]
      [Text (lit "t")] in
  namespaceFree true node = true
  /\ (serializeNode (H := XML10.grammar) true node true false initialState).1
     = (serializeNode (H := XML10.grammar) false node true false
          initialState).1.
Proof.
  intros node.
  assert (namespaceFree true node = true) as Hfree by (by vm_compute).
  split; [exact Hfree |].
  apply (paths_agree_on_namespace_free_trees (H := XML10.grammar) node true
           false initialState Hfree).
Defined.

(** ** The attributes of the fast path *)

Section FastAttributes.
Context `{XmlGrammar}.

(** The pass rejects an attribute whose name is a property that the object
    [localNameSet] inherits. *)
Lemma _serializeAttributes_inherited_name attrs a nde s :
  a ∈ attrs -> attr_localName a ∈ Object_prototype_keys ->
  throws (_serializeAttributes attrs true nde s).
Proof.
  intros (pre & post & ->)%list_elem_of_split Hproto.
  unfold _serializeAttributes. cbv zeta.
  apply throws_bind_first. rewrite forEachAcc_app.
  apply throws_bind. intros acc s1 Hpre.
  assert (seenFast [] ([], Some ∅)) as Hinit.
  { exists ∅. split; [done |]. intros x Hx. by apply elem_of_nil in Hx. }
  destruct (forEachAcc_invariant _ seenFast pre (seenFast_step nde)
              [] _ _ _ _ Hinit Hpre) as (o & Hacc & _).
  destruct acc as [res o']. cbn [snd] in Hacc. subst o'.
  cbn [forEachAcc]. apply throws_bind_first.
  rewrite _serializeAttributes_attr_seen; [by eexists |].
  unfold obj_in. rewrite (bool_decide_eq_true_2 _ Hproto). apply orb_true_r.
Qed.

(** With [requireWellFormed], the fast path rejects every element that has
    an attribute named like a property of [Object.prototype]
    ([constructor], [toString], ...): the name is found by the [in]
    operator in the empty object that holds the names seen so far.  When the
    attribute is the first one of an element with a valid name, the error is
    the one of duplicate attributes and the sink has received the start of
    the open tag. *)
Theorem fast_path_rejects_inherited_property_names
  (localName : jsstring) (prefix namespaceURI : option jsstring)
  (attrs : list Attr) (childNodes : list Node) (a : Attr)
  (noDoubleEncoding : bool) (s : State) :
  a ∈ attrs -> attr_localName a ∈ Object_prototype_keys ->
  let r := serializeNode false
             (Element localName prefix namespaceURI attrs childNodes)
             true noDoubleEncoding s in
  (exists msg, r.1 = Throw (InvalidStateError msg))
  /\ (head attrs = Some a ->
      includes localName (lit ":") = false -> xml_isName localName = true ->
      r.1 = Throw (InvalidStateError duplicateMessage)
      /\ events r.2
         = events s ++ [E_beginElement localName; E_openTagBegin localName]).
Proof.
  intros Ha Hproto. cbv zeta. split.
  - unfold serializeNode.
    cbv beta iota zeta delta [bind modify]. apply try_catch_throws.
    cbn [_serializeNode]. apply throws_bind. intros _ s1 _.
    unfold _serializeElement. cbv zeta.
    apply throws_bind; intros _ s2 _.
    apply throws_bind; intros _ s3 _.
    apply throws_bind; intros _ s4 _.
    apply throws_bind_first.
    by apply (_serializeAttributes_inherited_name attrs a).
  - intros Hhead Hcolon Hname. destruct attrs as [|a' attrs]; [done |].
    injection Hhead as ->.
    unfold serializeNode. cbn [_serializeNode]. unfold _serializeElement.
    cbv zeta. unfold includes in Hcolon. apply negb_false_iff in Hcolon.
    rewrite Hcolon, Hname. cbn [negb orb andb].
    unfold _serializeAttributes. cbv zeta. cbn [forEachAcc].
    cbv beta iota zeta delta [bind modify try_catch throw_if ret throw
      beginElement openTagBegin emit].
    rewrite _serializeAttributes_attr_seen.
    2:{ unfold obj_in. rewrite (bool_decide_eq_true_2 _ Hproto).
        apply orb_true_r. }
    cbn [message fst snd events with_event with_currentNode with_level].
    split; [done |]. by rewrite <- app_assoc.
Qed.

End FastAttributes.

Lemma fast_path_rejects_inherited_property_names_witness :
  let a := mkAttr None None (lit "constructor") (lit "v") in
  a ∈ [a] /\ attr_localName a ∈ Object_prototype_keys
  /\ exists msg,
       (serializeNode (H := XML10.grammar) false
          (Element (lit "e") None None [a] []) true false initialState).1
       = Throw (InvalidStateError msg).
Proof.
  intros a.
  assert (a ∈ [a]) as Hin by apply list_elem_of_here.
  assert (attr_localName a ∈ Object_prototype_keys) as Hproto
    by apply list_elem_of_here.
  split_and!; [exact Hin | exact Hproto |].
  apply (fast_path_rejects_inherited_property_names (H := XML10.grammar)
           (lit "e") None None [a] [] a false initialState Hin Hproto).
Defined.

(** ** The declarations recorded for an element *)

(** An attribute [xmlns="..."]: in the XMLNS namespace, without prefix. *)
Definition isDefaultDeclaration (a : Attr) : Prop :=
  attr_namespaceURI a = Some infraNamespace.XMLNS /\ attr_prefix a = None.

(** An attribute [xmlns:c="..."] that binds [c] to [ns]. *)
Definition declaresPrefix (c : jsstring) (ns : option jsstring) (a : Attr)
  : Prop :=
  attr_namespaceURI a = Some infraNamespace.XMLNS /\ attr_prefix a <> None
  /\ attr_localName a = c /\ orNull (attr_value a) = ns.

Section Recorded.
Context `{XmlGrammar}.

Lemma _recordNamespaceInformation_attr_run map a acc s :
  exists lpm' s',
    _recordNamespaceInformation_attr map a acc s
    = (Normal (if decide (isDefaultDeclaration a) then Some (attr_value a)
               else acc.1, lpm'), s')
    /\ events s' = events s
    /\ forall c v,
         prefixMapAt map s' !! c = Some v ->
         prefixMapAt map s !! c = Some v \/ declaresPrefix c v a.
Proof.
  unfold _recordNamespaceInformation_attr, isDefaultDeclaration,
    declaresPrefix, orNull.
  cbv zeta.
  destruct (decide (attr_namespaceURI a = _)) as [Hns|Hns].
  2:{ rewrite decide_False by tauto. exists acc.2, s. destruct acc.
      split_and!; [done | done | by left]. }
  destruct (attr_prefix a) as [pre|] eqn:Hpre.
  2:{ rewrite decide_True by done. exists acc.2, s.
      split_and!; [done | done | by left]. }
  rewrite (decide_False (P := _ /\ Some pre = None))
    by (intros [_ ?]; done).
  destruct (decide (attr_value a = infraNamespace.XML)).
  { exists acc.2, s. destruct acc. split_and!; [done | done | by left]. }
  unfold bind, NamespacePrefixMap_has, gets.
  destruct (PrefixMap.has _ _ _).
  { exists acc.2, s. destruct acc. split_and!; [done | done | by left]. }
  eexists _, (NamespacePrefixMap_set map (attr_localName a) _ s).2.
  split_and!; [reflexivity | done |].
  intros c v. rewrite (prefixMapAt_set map). case_decide; [|by left].
  unfold PrefixMap.set. destruct (decide (attr_localName a = c)) as [<-|Hne].
  - rewrite lookup_insert_eq. intros [= <-]. right. by split_and!.
  - rewrite lookup_insert_ne by done. by left.
Qed.

Lemma _recordNamespaceInformation_loop map attrs acc s :
  exists lpm' s',
    forEachAcc (_recordNamespaceInformation_attr map) attrs acc s
    = (Normal (match last (filter isDefaultDeclaration attrs) with
               | Some a => Some (attr_value a)
               | None => acc.1
               end, lpm'), s')
    /\ events s' = events s
    /\ forall c v,
         prefixMapAt map s' !! c = Some v ->
         prefixMapAt map s !! c = Some v
         \/ exists a, a ∈ attrs /\ declaresPrefix c v a.
Proof.
  revert acc s. induction attrs as [|a attrs IH]; intros acc s.
  - exists acc.2, s. destruct acc. split_and!; [done | done | by left].
  - cbn [forEachAcc]. rewrite bind_run.
    destruct (_recordNamespaceInformation_attr_run map a acc s)
      as (lpm1 & s1 & -> & He1 & Hb1).
    destruct (IH (if decide (isDefaultDeclaration a) then Some (attr_value a)
                  else acc.1, lpm1) s1) as (lpm2 & s2 & -> & He2 & Hb2).
    exists lpm2, s2. split_and!.
    + do 2 f_equal. rewrite filter_cons. cbn [fst].
      destruct (decide (isDefaultDeclaration a)) as [Ha|Ha].
      * rewrite last_cons. by destruct (last (filter _ attrs)).
      * done.
    + congruence.
    + intros c v [Hold|(a' & Ha' & Hd)]%Hb2.
      * apply Hb1 in Hold as [?|?]; [by left |].
        right. exists a. split; [apply list_elem_of_here | done].
      * right. exists a'. split; [by apply list_elem_of_further | done].
Qed.

(** [_recordNamespaceInformation] never throws and calls nothing of the
    sink.  The default namespace that it returns is the value of the last
    attribute of the list that is in the XMLNS namespace and has no prefix,
    and null when there is none; every prefix bound in the map afterwards
    was bound to the same namespace before or is bound so by a prefixed
    declaration among the attributes. *)
Theorem recorded_default_namespace_is_the_last_declaration
  (attrs : list Attr) (map : ref) (localPrefixesMap : gmap jsstring jsstring)
  (s : State) :
  exists localPrefixesMap' s',
    _recordNamespaceInformation attrs map localPrefixesMap s
    = (Normal (attr_value <$> last (filter isDefaultDeclaration attrs),
               localPrefixesMap'), s')
    /\ events s' = events s
    /\ forall c ns,
         prefixMapAt map s' !! c = Some ns ->
         prefixMapAt map s !! c = Some ns
         \/ exists a, a ∈ attrs /\ declaresPrefix c ns a.
Proof.
  unfold _recordNamespaceInformation.
  destruct (_recordNamespaceInformation_loop map attrs
              (None, localPrefixesMap) s)
    as (lpm' & s' & Hrun & He & Hb).
  exists lpm', s'. split; [|by split].
  rewrite Hrun. cbn [fst]. by destruct (last (filter _ attrs)).
Qed.

End Recorded.

(** ** The name of an element is declared where it is used *)

Section DeclaredInScope.
Context `{XmlGrammar}.

(** An element with the prefix [xmlns] outside the context namespace is
    rejected under [requireWellFormed]. *)
Lemma _serializeElementNS_name_xmlns ln ns inh ldn lpm map pi nde s :
  inh <> ns ->
  throws (_serializeElementNS_name ln (Some (lit "xmlns")) ns inh ldn lpm map
            pi true nde s).
Proof.
  intros Hne. unfold _serializeElementNS_name.
  rewrite decide_False by done.
  apply throws_bind. intros c s1 _. rewrite decide_True by done.
  apply throws_bind_first. apply throws_bind_first. by eexists.
Qed.


End DeclaredInScope.


(** ** The attributes of the namespace-aware path *)

(** What the namespace-aware pass appends for one attribute: nothing, for a
    namespace declaration that is dropped; or the tuple of the attribute,
    without prefix when the attribute is in no namespace; or the declaration
    of a new prefix for the namespace of the attribute followed by the tuple
    of the attribute under that prefix. *)
Definition attributeOutput (nde : bool) (a : Attr) (out : list AttrTuple)
  : Prop :=
  (out = [] /\ attr_namespaceURI a = Some infraNamespace.XMLNS)
  \/ (exists cp,
        out = [qualifiedTuple nde cp a]
        /\ (attr_namespaceURI a = None -> cp = None))
  \/ (exists n cp,
        attr_namespaceURI a = Some n /\ n <> infraNamespace.XMLNS
        /\ out = [(None, Some (lit "xmlns"), cp, attributeValueMarkup n nde);
                  qualifiedTuple nde (Some cp) a]).

Section AwareAttributes.
Context `{XmlGrammar}.

Lemma _serializeAttributesNS_attr_Normal map pi lpm ign rwf nde x acc s acc' s' :
  _serializeAttributesNS_attr map pi lpm ign rwf nde x acc s
  = (Normal acc', s') ->
  exists out, acc'.1 = acc.1 ++ out /\ attributeOutput nde x out.
Proof.
  destruct acc as [res o]. destruct x as [[ans|] ap aln av].
  all: unfold _serializeAttributesNS_attr, _serializeAttributesNS_namespaced,
    _generatePrefix, _serializeAttributeValue, NamespacePrefixMap_get,
    NamespacePrefixMap_has, NamespacePrefixMap_hasPrefix,
    NamespacePrefixMap_set, throw_if, bind, ret, gets, modify, throw,
    attributeOutput, qualifiedTuple.
  all: cbv zeta; cbn [negb andb fst snd attr_namespaceURI attr_prefix
                      attr_localName attr_value].
  all: intros Hrun.
  all: repeat (case_inner_in Hrun; cbn [negb andb fst snd] in Hrun);
    try discriminate; injection Hrun as <- <-; cbn [fst].
  all: try match goal with
       | Hb : _ && bool_decide (Some _ = None) = true |- _ =>
           rewrite bool_decide_eq_false_2, andb_false_r in Hb by done;
           discriminate
       end.
  all: try (exists []; rewrite app_nil_r; split; [reflexivity |]; left;
            split; [reflexivity | congruence]).
  all: try (eexists; split; [reflexivity |]; right; left; eexists;
            split; [reflexivity | done]).
  all: try (rewrite <- app_assoc; cbn [app]; eexists;
            split; [reflexivity |]; right; right; eexists _, _;
            split_and!; [reflexivity | done | reflexivity]).
Qed.

Lemma _serializeAttributesNS_loop_Normal map pi lpm ign rwf nde attrs acc s
  acc' s' :
  forEachAcc (_serializeAttributesNS_attr map pi lpm ign rwf nde) attrs acc s
  = (Normal acc', s') ->
  exists outs,
    acc'.1 = acc.1 ++ concat outs /\ Forall2 (attributeOutput nde) attrs outs.
Proof.
  revert acc s. induction attrs as [|a attrs IH]; intros acc s Hrun;
    cbn [forEachAcc] in Hrun.
  - injection Hrun as <- <-. exists []. by rewrite app_nil_r.
  - apply bind_Normal_inv in Hrun as (acc1 & s1 & Ha & Hrun).
    apply _serializeAttributesNS_attr_Normal in Ha as (out & Hacc1 & Hout).
    apply IH in Hrun as (outs & -> & Houts).
    exists (out :: outs). split; [|by constructor].
    rewrite Hacc1. cbn [concat]. by rewrite <- app_assoc.
Qed.

(** When the namespace-aware pass returns, its result follows the
    attribute list: every attribute yields, in order, its own tuple, at
    most once and preceded by at most one declaration of a prefix for its
    namespace; only attributes in the XMLNS namespace yield nothing, and an
    attribute in no namespace has no prefix. *)
Theorem namespace_aware_pass_keeps_the_attribute_order
  (attrs : list Attr) (map prefixIndex : ref)
  (localPrefixesMap : gmap jsstring jsstring)
  (ignoreNamespaceDefinitionAttribute requireWellFormed noDoubleEncoding : bool)
  (s s' : State) (result : list AttrTuple) :
  _serializeAttributesNS attrs map prefixIndex localPrefixesMap
    ignoreNamespaceDefinitionAttribute requireWellFormed noDoubleEncoding s
  = (Normal result, s') ->
  exists outs,
    result = concat outs
    /\ Forall2 (attributeOutput noDoubleEncoding) attrs outs.
Proof.
  unfold _serializeAttributesNS. cbv zeta. intros Hrun.
  apply bind_Normal_inv in Hrun as (acc & s1 & Hloop & Hrun).
  apply _serializeAttributesNS_loop_Normal in Hloop as (outs & Hacc & Houts).
  injection Hrun as <- _. by exists outs.
Qed.

End AwareAttributes.

Lemma namespace_aware_pass_keeps_the_attribute_order_witness :
  let attrs := [mkAttr None None (lit "x") (lit "1");
                mkAttr (Some (lit "urn:y")) (Some (lit "p")) (lit "y")
                  (lit "2")] in
  let r := _serializeAttributesNS (H := XML10.grammar) attrs 0%nat 0%nat ∅
             false true false initialState in
  r = (Normal [(None, None, lit "x", lit "1");
               (None, Some (lit "xmlns"), lit "p", lit "urn:y");
               (Some (lit "urn:y"), Some (lit "p"), lit "y", lit "2")], r.2)
  /\ exists outs,
       [(None, None, lit "x", lit "1");
        (None, Some (lit "xmlns"), lit "p", lit "urn:y");
        (Some (lit "urn:y"), Some (lit "p"), lit "y", lit "2")]
       = concat outs
       /\ Forall2 (attributeOutput false) attrs outs.
Proof.
  intros attrs r.
  assert (r = (Normal [(None, None, lit "x", lit "1");
                       (None, Some (lit "xmlns"), lit "p", lit "urn:y");
                       (Some (lit "urn:y"), Some (lit "p"), lit "y",
                        lit "2")], r.2)) as Hr
    by (vm_compute; reflexivity).
  split; [exact Hr |].
  exact (namespace_aware_pass_keeps_the_attribute_order (H := XML10.grammar)
           attrs 0%nat 0%nat ∅ false true false initialState r.2 _ Hr).
Defined.

(** ** The well-formedness checks only reject *)

(** Every normal run of the first computation is a run of the second, from
    the same state to the same state, with related results. *)
Definition refines {A B} (R : A -> B -> Prop) (m1 : M A) (m2 : M B) : Prop :=
  forall s a s', m1 s = (Normal a, s') ->
                 exists b, m2 s = (Normal b, s') /\ R a b.

Lemma refines_same {A} (m : M A) : refines eq m m.
Proof. intros s a s' Hrun. by exists a. Qed.

Lemma refines_ret {A B} (R : A -> B -> Prop) (a : A) (b : B) :
  R a b -> refines R (ret a) (ret b).
Proof. intros HR s a' s' [= <- <-]. by exists b. Qed.

Lemma refines_throw_if (c : bool) (msg : string) :
  refines eq (throw_if c msg) (throw_if false msg).
Proof.
  intros s [] s' Hrun. apply throw_if_Normal_inv in Hrun as [_ ->].
  by exists tt.
Qed.

Lemma refines_bind {A1 A2 B1 B2} (R1 : A1 -> A2 -> Prop)
  (R2 : B1 -> B2 -> Prop) (m1 : M A1) (m2 : M A2) (k1 : A1 -> M B1)
  (k2 : A2 -> M B2) :
  refines R1 m1 m2 ->
  (forall a1 a2, R1 a1 a2 -> refines R2 (k1 a1) (k2 a2)) ->
  refines R2 (bind m1 k1) (bind m2 k2).
Proof.
  intros Hm Hk s b s' Hrun.
  apply bind_Normal_inv in Hrun as (a1 & s1 & Hrun1 & Hrun2).
  apply Hm in Hrun1 as (a2 & Hrun1 & Ha). unfold bind. rewrite Hrun1.
  by eapply Hk.
Qed.

Lemma refines_bind_eq {A B1 B2} (R : B1 -> B2 -> Prop) (m1 m2 : M A)
  (k1 : A -> M B1) (k2 : A -> M B2) :
  refines eq m1 m2 -> (forall a, refines R (k1 a) (k2 a)) ->
  refines R (bind m1 k1) (bind m2 k2).
Proof.
  intros Hm Hk. eapply refines_bind; [exact Hm |]. intros a ? <-. apply Hk.
Qed.

Lemma refines_forEach {A} (f1 f2 : A -> M unit) (l : list A) :
  Forall (fun x => refines eq (f1 x) (f2 x)) l ->
  refines eq (forEach f1 l) (forEach f2 l).
Proof.
  induction 1 as [|x l Hx Hl IH]; cbn [forEach]; [apply refines_same |].
  apply refines_bind_eq; [exact Hx | intros _; exact IH].
Qed.

Lemma refines_forEachAcc {A B1 B2} (R : B1 -> B2 -> Prop)
  (f1 : A -> B1 -> M B1) (f2 : A -> B2 -> M B2) (l : list A) :
  (forall x b1 b2, R b1 b2 -> refines R (f1 x b1) (f2 x b2)) ->
  forall b1 b2, R b1 b2 -> refines R (forEachAcc f1 l b1) (forEachAcc f2 l b2).
Proof.
  intros Hf. induction l as [|x l IH]; intros b1 b2 Hb; cbn [forEachAcc].
  - by apply refines_ret.
  - eapply refines_bind; [by apply Hf | intros ? ? ?; by apply IH].
Qed.

(** One step of a proof that a computation with the checks refines the
    same computation without them. *)
Ltac refines_step :=
  cbn [andb];
  first
    [ apply refines_same
    | apply refines_throw_if
    | lazymatch goal with
      | |- refines _ (if ?c then _ else _) (if ?c then _ else _) =>
          destruct c
      | |- refines _ (match ?x with _ => _ end) (match ?x with _ => _ end) =>
          destruct x
      | |- refines _ (bind _ _) (bind _ _) =>
          apply refines_bind_eq; [|intros ?]
      end ].

Section ChecksOnlyReject.
Context `{XmlGrammar}.

Lemma _serializeAttributeValue_refines v nde :
  refines eq (_serializeAttributeValue v true nde)
    (_serializeAttributeValue v false nde).
Proof. unfold _serializeAttributeValue. repeat refines_step. Qed.

Lemma _serializeElementNS_name_refines ln p ns inh ldn lpm map pi nde :
  refines eq (_serializeElementNS_name ln p ns inh ldn lpm map pi true nde)
    (_serializeElementNS_name ln p ns inh ldn lpm map pi false nde).
Proof.
  unfold _serializeElementNS_name. cbv zeta.
  repeat first [ apply _serializeAttributeValue_refines | refines_step ].
Qed.

(** The results of the attribute passes, whatever names they have seen. *)
Definition sameResult {B1 B2} (acc1 : list AttrTuple * B1)
  (acc2 : list AttrTuple * B2) : Prop :=
  acc1.1 = acc2.1.

Lemma _serializeAttributesNS_attr_refines map pi lpm ign nde x acc1 acc2 :
  sameResult acc1 acc2 ->
  refines sameResult
    (_serializeAttributesNS_attr map pi lpm ign true nde x acc1)
    (_serializeAttributesNS_attr map pi lpm ign false nde x acc2).
Proof.
  destruct acc1 as [res o1], acc2 as [res' o2]. unfold sameResult.
  cbn [fst]. intros <- s acc' s'.
  destruct x as [[ans|] ap aln av].
  all: unfold _serializeAttributesNS_attr, _serializeAttributesNS_namespaced,
    _generatePrefix, _serializeAttributeValue, NamespacePrefixMap_get,
    NamespacePrefixMap_has, NamespacePrefixMap_hasPrefix,
    NamespacePrefixMap_set, throw_if, bind, ret, gets, modify, throw.
  all: cbv zeta; cbn [negb andb orb fst snd attr_namespaceURI attr_prefix
                      attr_localName attr_value].
  all: intros Hrun.
  all: repeat (case_inner_in Hrun; cbn [negb andb orb fst snd] in Hrun |- *);
    try discriminate; injection Hrun as <- <-.
  all: try rewrite (bool_decide_eq_false_2 (Some _ = None)) by done;
    rewrite ?andb_false_r.
  all: repeat (case_inner; cbn [negb andb orb fst snd]).
  all: try congruence.
  all: try (eexists; split; reflexivity).
  all: simplify_eq; eexists; split; reflexivity.
Qed.

Lemma _serializeAttributesNS_refines attrs map pi lpm ign nde :
  refines eq (_serializeAttributesNS attrs map pi lpm ign true nde)
    (_serializeAttributesNS attrs map pi lpm ign false nde).
Proof.
  unfold _serializeAttributesNS. cbv zeta.
  eapply refines_bind.
  - apply (refines_forEachAcc sameResult); [|reflexivity].
    intros x b1 b2. apply _serializeAttributesNS_attr_refines.
  - intros a1 a2 Ha. by apply refines_ret.
Qed.

Lemma _serializeAttributes_attr_refines nde x acc1 acc2 :
  sameResult acc1 acc2 ->
  refines sameResult (_serializeAttributes_attr true nde x acc1)
    (_serializeAttributes_attr false nde x acc2).
Proof.
  destruct acc1 as [res o1], acc2 as [res' o2]. unfold sameResult.
  cbn [fst]. intros <- s acc' s' Hrun.
  apply _serializeAttributes_attr_Normal in Hrun as [Hacc ->].
  eexists. split; [reflexivity |]. by rewrite Hacc.
Qed.

Lemma _serializeAttributes_refines attrs nde :
  refines eq (_serializeAttributes attrs true nde)
    (_serializeAttributes attrs false nde).
Proof.
  unfold _serializeAttributes. cbv zeta.
  eapply refines_bind.
  - apply (refines_forEachAcc sameResult); [|reflexivity].
    intros x b1 b2. apply _serializeAttributes_attr_refines.
  - intros a1 a2 Ha. by apply refines_ret.
Qed.

Lemma _serializeNodeNS_refines (node : Node) :
  forall namespace pm pi nde,
    refines eq (_serializeNodeNS node namespace pm pi true nde)
      (_serializeNodeNS node namespace pm pi false nde).
Proof.
  induction node as [ln p ns attrs cs IH|cs IH|cs IH| | | | | |]
    using Node_ind_children;
    intros namespace pm pi nde; cbn [_serializeNodeNS];
    (apply refines_bind_eq; [apply refines_same | intros _]).
  - unfold _serializeElementNS. cbv zeta.
    repeat first [ apply _serializeElementNS_name_refines
                 | apply _serializeAttributesNS_refines
                 | refines_step ].
    apply refines_forEach. eapply Forall_impl; [exact IH |].
    intros c Hc. cbn beta. repeat first [ apply Hc | refines_step ].
  - unfold _serializeDocumentNS. refines_step; [refines_step |].
    apply refines_forEach. eapply Forall_impl; [exact IH |].
    intros c Hc. apply Hc.
  - unfold _serializeDocumentFragmentNS.
    apply refines_forEach. eapply Forall_impl; [exact IH |].
    intros c Hc. apply Hc.
  - unfold _serializeDocumentType. repeat refines_step.
  - unfold _serializeText. repeat refines_step.
  - unfold _serializeComment. repeat refines_step.
  - unfold _serializeCData. repeat refines_step.
  - unfold _serializeProcessingInstruction. repeat refines_step.
  - apply refines_same.
Qed.

Lemma _serializeNode_refines (node : Node) :
  forall nde,
    refines eq (_serializeNode node true nde) (_serializeNode node false nde).
Proof.
  induction node as [ln p ns attrs cs IH|cs IH|cs IH| | | | | |]
    using Node_ind_children;
    intros nde; cbn [_serializeNode];
    (apply refines_bind_eq; [apply refines_same | intros _]).
  - unfold _serializeElement. cbv zeta.
    repeat first [ apply _serializeAttributes_refines | refines_step ].
    apply refines_forEach. eapply Forall_impl; [exact IH |].
    intros c Hc. cbn beta. repeat first [ apply Hc | refines_step ].
  - unfold _serializeDocument. refines_step; [refines_step |].
    apply refines_forEach. eapply Forall_impl; [exact IH |].
    intros c Hc. apply Hc.
  - unfold _serializeDocumentFragment.
    apply refines_forEach. eapply Forall_impl; [exact IH |].
    intros c Hc. apply Hc.
  - unfold _serializeDocumentType. repeat refines_step.
  - unfold _serializeText. repeat refines_step.
  - unfold _serializeComment. repeat refines_step.
  - unfold _serializeCData. repeat refines_step.
  - unfold _serializeProcessingInstruction. repeat refines_step.
  - apply refines_same.
Qed.

(** The flag [requireWellFormed] only makes [serializeNode] reject trees: a
    tree that it serializes with the flag is serialized without it to the
    same calls of the sink, in the same order, and to the same final
    state. *)
Theorem well_formedness_checks_only_reject
  (hasNamespaces : bool) (node : Node) (noDoubleEncoding : bool)
  (s s' : State) :
  serializeNode hasNamespaces node true noDoubleEncoding s = (Normal tt, s') ->
  serializeNode hasNamespaces node false noDoubleEncoding s = (Normal tt, s').
Proof.
  assert (refines eq (serializeNode hasNamespaces node true noDoubleEncoding)
            (serializeNode hasNamespaces node false noDoubleEncoding))
    as Href.
  { unfold serializeNode.
    assert (forall m1 m2 : M unit, refines eq m1 m2 ->
              refines eq
                (try_catch m1 (fun e => throw (InvalidStateError (message e))))
                (try_catch m2 (fun e => throw (InvalidStateError (message e)))))
      as Htry.
    { intros m1 m2 Hm s0 [] s0' Hrun. unfold try_catch in Hrun |- *.
      destruct (m1 s0) as [[[]|e] s1] eqn:Hm1; [|discriminate].
      injection Hrun as <-. apply Hm in Hm1 as ([] & -> & _). by exists tt. }
    apply refines_bind_eq; [apply refines_same | intros _].
    apply refines_bind_eq; [apply refines_same | intros _].
    destruct hasNamespaces.
    - apply refines_bind_eq; [apply refines_same | intros pm].
      apply refines_bind_eq; [apply refines_same | intros _].
      apply refines_bind_eq; [apply refines_same | intros pi].
      apply Htry. apply _serializeNodeNS_refines.
    - apply Htry. apply _serializeNode_refines. }
  intros Hrun. by apply Href in Hrun as ([] & Hrun & _).
Qed.

End ChecksOnlyReject.

Lemma well_formedness_checks_only_reject_witness :
  let node :=
    Element (lit "a") (Some (lit "p")) (Some (lit "urn:x"))
      [mkAttr None None (lit "x") (lit "1")] [Text (lit "t")] in
  let r := serializeNode (H := XML10.grammar) true node true false
             initialState in
  r = (Normal tt, r.2)
  /\ serializeNode (H := XML10.grammar) true node false false initialState
     = (Normal tt, r.2).
Proof.
  intros node r.
  assert (r = (Normal tt, r.2)) as Hrun by (vm_compute; reflexivity).
  split; [exact Hrun |].
  exact (well_formedness_checks_only_reject (H := XML10.grammar) true node
           false initialState r.2 Hrun).
Defined.

(** ** The calls of the fast path *)

(** The calls that the serialization of a tree by the fast path consists
    of: for an element, the open tag with one tuple for every attribute,
    then either the self-closing end of the tag or the end of the tag, the
    calls of the children in order, [closeTag] and [endElement]; for a
    document or a fragment, the calls of the children in order; one call,
    with the strings of the node, for every other node, the data of a text
    node being escaped. *)
Fixpoint fastCalls (nde : bool) (node : Node) : list Event :=
  match node with
  | Element localName _ _ attrs childNodes =>
      [E_beginElement localName; E_openTagBegin localName;
       E_attributes (List.map (plainTuple nde) attrs)]
      ++ match childNodes with
         | [] => [E_openTagEnd localName true false; E_endElement localName]
         | _ :: _ =>
             [E_openTagEnd localName false false]
             ++ flat_map (fastCalls nde) childNodes
             ++ [E_closeTag localName; E_endElement localName]
         end
  | Document childNodes => flat_map (fastCalls nde) childNodes
  | DocumentFragment childNodes => flat_map (fastCalls nde) childNodes
  | DocumentType name publicId systemId => [E_docType name publicId systemId]
  | Text data => [E_text (textMarkup data nde)]
  | Comment data => [E_comment data]
  | CDATASection data => [E_cdata data]
  | ProcessingInstruction target data => [E_instruction target data]
  | OtherNode _ => []
  end.

Section FastCalls.
Context `{XmlGrammar}.

Lemma forEach_calls (f : Node -> M unit) (calls : Node -> list Event)
  (l : list Node) :
  Forall (fun x => forall s s', f x s = (Normal tt, s') ->
                                events s' = events s ++ calls x) l ->
  forall s s', forEach f l s = (Normal tt, s') ->
               events s' = events s ++ flat_map calls l.
Proof.
  induction 1 as [|x l Hx Hl IH]; intros s s' Hrun; cbn [forEach] in Hrun.
  - injection Hrun as <-. cbn [flat_map]. by rewrite app_nil_r.
  - apply bind_Normal_inv in Hrun as ([] & s1 & Hrun1 & Hrun).
    apply Hx in Hrun1. apply IH in Hrun. cbn [flat_map].
    by rewrite Hrun, Hrun1, app_assoc.
Qed.

Lemma _serializeNode_calls (node : Node) :
  forall rwf nde s s',
    _serializeNode node rwf nde s = (Normal tt, s') ->
    events s' = events s ++ fastCalls nde node.
Proof.
  induction node as [ln p ns attrs cs IH|cs IH|cs IH| | | | | |]
    using Node_ind_children;
    intros rwf nde s s' Hrun; cbn [_serializeNode] in Hrun;
    apply bind_Normal_inv in Hrun as ([] & s0 & Hcur & Hrun);
    injection Hcur as <-.
  - apply _serializeElement_Normal in Hrun
      as (s5 & _ & He & [[-> ->]|(Hcs & s6 & Hloop & ->)]);
      cbn [events with_event with_currentNode] in *.
    + rewrite He. cbn [fastCalls]. by rewrite <- !app_assoc.
    + apply (forEach_calls _ (fastCalls nde)) in Hloop.
      * rewrite Hloop. cbn [events with_event]. rewrite He.
        cbn [fastCalls]. destruct cs as [|c cs]; [done |].
        by rewrite <- !app_assoc.
      * eapply Forall_impl; [exact IH |]. intros c Hc s1 s2 Hbody.
        cbn beta in Hbody.
        apply bind_Normal_inv in Hbody as ([] & s3 & Hup & Hbody).
        apply bind_Normal_inv in Hbody as ([] & s4 & Hin & Hdown).
        injection Hup as <-. injection Hdown as <-.
        by apply Hc in Hin.
  - unfold _serializeDocument in Hrun.
    apply bind_Normal_inv in Hrun as ([] & ? & Hchk & Hrun).
    apply throw_if_Normal_inv in Hchk as [_ ->].
    apply (forEach_calls _ (fastCalls nde)) in Hrun; [done |].
    eapply Forall_impl; [exact IH |]. intros c Hc s1 s2. apply Hc.
  - unfold _serializeDocumentFragment in Hrun.
    apply (forEach_calls _ (fastCalls nde)) in Hrun; [done |].
    eapply Forall_impl; [exact IH |]. intros c Hc s1 s2. apply Hc.
  - unfold _serializeDocumentType in Hrun.
    repeat (apply bind_Normal_inv in Hrun as ([] & ? & Hchk & Hrun);
            apply throw_if_Normal_inv in Hchk as [_ ->]).
    by injection Hrun as <-.
  - unfold _serializeText in Hrun. cbv zeta in Hrun.
    apply bind_Normal_inv in Hrun as ([] & ? & Hchk & Hrun).
    apply throw_if_Normal_inv in Hchk as [_ ->].
    by injection Hrun as <-.
  - unfold _serializeComment in Hrun.
    apply bind_Normal_inv in Hrun as ([] & ? & Hchk & Hrun).
    apply throw_if_Normal_inv in Hchk as [_ ->].
    by injection Hrun as <-.
  - unfold _serializeCData in Hrun.
    apply bind_Normal_inv in Hrun as ([] & ? & Hchk & Hrun).
    apply throw_if_Normal_inv in Hchk as [_ ->].
    by injection Hrun as <-.
  - unfold _serializeProcessingInstruction in Hrun.
    repeat (apply bind_Normal_inv in Hrun as ([] & ? & Hchk & Hrun);
            apply throw_if_Normal_inv in Hchk as [_ ->]).
    by injection Hrun as <-.
  - discriminate.
Qed.

(** The calls that the fast path makes for a tree that it serializes are
    those of the tree in document order, nothing else and nothing less: one
    open tag for every element, carrying one tuple for every attribute in
    the order of the attribute list, without namespace and prefix; the
    content between the end of the open tag and [closeTag]; elements without
    children self-closed; text escaped; every other node handed over as it
    is. *)
Theorem fast_path_calls_follow_the_document
  (node : Node) (requireWellFormed noDoubleEncoding : bool) (s s' : State) :
  serializeNode false node requireWellFormed noDoubleEncoding s
  = (Normal tt, s') ->
  events s' = events s ++ fastCalls noDoubleEncoding node.
Proof.
  intros Hrun.
  apply serializeNode_Normal in Hrun
    as (s0 & _ & He & [[? _]|[_ Hrun]]); [discriminate |].
  apply _serializeNode_calls in Hrun. by rewrite Hrun, He.
Qed.

End FastCalls.

Lemma fast_path_calls_follow_the_document_witness :
  let node :=
    Element (lit "a") None None [mkAttr None None (lit "x") (lit "<")]
      [Text (lit "&"); Element (lit "b") None None [] []] in
  let r := serializeNode (H := XML10.grammar) false node true false
             initialState in
  r = (Normal tt, r.2)
  /\ events r.2
     = [E_beginElement (lit "a"); E_openTagBegin (lit "a");
        E_attributes [(None, None, lit "x", lit "&lt;")];
        E_openTagEnd (lit "a") false false;
        E_text (lit "&amp;");
        E_beginElement (lit "b"); E_openTagBegin (lit "b"); E_attributes [];
        E_openTagEnd (lit "b") true false; E_endElement (lit "b");
        E_closeTag (lit "a"); E_endElement (lit "a")].
Proof.
  intros node r.
  assert (r = (Normal tt, r.2)) as Hrun by (vm_compute; reflexivity).
  split; [exact Hrun |].
  rewrite (fast_path_calls_follow_the_document (H := XML10.grammar) node true
             false initialState r.2 Hrun).
  vm_compute. reflexivity.
Defined.


(** ** Attributes that share an undeclared prefix *)

Section SharedPrefix.
Context `{XmlGrammar}.

(** The two tuples of an attribute whose own prefix [p] the pass declares
    for the namespace [n]. *)
Definition declaredWithOwnPrefix (p n : jsstring) (noDoubleEncoding : bool)
  (a : Attr) : list AttrTuple :=
  [(None, Some (lit "xmlns"), p, attributeValueMarkup n noDoubleEncoding);
   (Some n, Some p, attr_localName a,
    attributeValueMarkup (attr_value a) noDoubleEncoding)].

(** A check that passed leaves the state and goes on. *)
Local Ltac passed H :=
  let Hc := fresh "Hcheck" in
  let u := fresh "u" in
  let s := fresh "s" in
  apply bind_Normal_inv in H as (u & s & Hc & H);
  apply throw_if_Normal_inv in Hc as [_ ->].

Lemma _serializeAttributesNS_attr_own_prefix (p n : jsstring)
  (map prefixIndex : ref) (localPrefixesMap : gmap jsstring jsstring)
  (ign rwf nde : bool) (a : Attr)
  (acc acc' : list AttrTuple * option LocalNameSet.t) (s s' : State) :
  n <> infraNamespace.XMLNS ->
  unbound (Some n) (prefixMapAt map s) ->
  prefixMapAt map s !! p = None ->
  attr_namespaceURI a = Some n ->
  attr_prefix a = Some p ->
  _serializeAttributesNS_attr map prefixIndex localPrefixesMap ign rwf nde
    a acc s = (Normal acc', s') ->
  s' = s /\ acc'.1 = acc.1 ++ declaredWithOwnPrefix p n nde a.
Proof.
  intros Hn Hun Hp Hns Hpre. unfold _serializeAttributesNS_attr. cbv zeta.
  rewrite Hns.
  replace (bool_decide (Some n = None)) with false
    by (symmetry; by apply bool_decide_eq_false).
  rewrite andb_false_r.
  intros Hrun.
  passed Hrun.
  apply bind_Normal_inv in Hrun as (step & s1 & Hstep & Hrun).
  unfold _serializeAttributesNS_namespaced in Hstep.
  rewrite Hpre in Hstep.
  apply bind_Normal_inv in Hstep as (cp & s0 & Hget & Hstep).
  unfold NamespacePrefixMap_get, gets in Hget. cbv beta in Hget.
  rewrite get_unbound in Hget by done. injection Hget as <- <-.
  rewrite (decide_False (P := n = infraNamespace.XMLNS)) in Hstep by done.
  apply bind_Normal_inv in Hstep as (c & s2 & Hc & Hstep).
  apply bind_Normal_inv in Hc as (mapped & s3 & Hm & Hc).
  unfold NamespacePrefixMap_hasPrefix, gets in Hm. injection Hm as <- <-.
  apply bind_Normal_inv in Hc as (bound & s4 & Hb & Hc).
  unfold NamespacePrefixMap_has, gets in Hb. injection Hb as <- <-.
  unfold PrefixMap.hasPrefix in Hc. rewrite Hp in Hc.
  rewrite bool_decide_eq_false_2 in Hc by (by intros [? ?]).
  cbn [negb orb] in Hc. injection Hc as <- <-.
  apply bind_Normal_inv in Hstep as (v & s5 & Hv & Hstep).
  unfold _serializeAttributeValue in Hv.
  passed Hv. injection Hv as <- <-.
  injection Hstep as <- <-.
  passed Hrun.
  apply bind_Normal_inv in Hrun as (v & s6 & Hv & Hrun).
  unfold _serializeAttributeValue in Hv.
  passed Hv. injection Hv as <- <-.
  injection Hrun as <- <-. split; [done |].
  cbn [fst]. unfold declaredWithOwnPrefix. by rewrite <- app_assoc.
Qed.

(** The namespace-aware pass does not enter an attribute's own prefix in
    the prefix map when it declares it.  So when the attributes of an
    element share a prefix that the map does not know, for a namespace that
    no prefix of the map is bound to, and the pass returns, every one of
    them is preceded by its own declaration of that prefix: the result
    holds the same declaration once for each attribute, and the store is
    left as it was. *)
Theorem shared_prefix_is_declared_for_every_attribute (p n : jsstring)
  (attrs : list Attr) (map prefixIndex : ref)
  (localPrefixesMap : gmap jsstring jsstring)
  (ignoreNamespaceDefinitionAttribute requireWellFormed noDoubleEncoding : bool)
  (s s' : State) (result : list AttrTuple) :
  n <> infraNamespace.XMLNS ->
  unbound (Some n) (prefixMapAt map s) ->
  prefixMapAt map s !! p = None ->
  Forall (fun a => attr_namespaceURI a = Some n /\ attr_prefix a = Some p)
    attrs ->
  _serializeAttributesNS attrs map prefixIndex localPrefixesMap
    ignoreNamespaceDefinitionAttribute requireWellFormed noDoubleEncoding s
  = (Normal result, s') ->
  s' = s
  /\ result = flat_map (declaredWithOwnPrefix p n noDoubleEncoding) attrs.
Proof.
  intros Hn Hun Hp Hall. unfold _serializeAttributesNS. cbv zeta.
  intros Hrun.
  apply bind_Normal_inv in Hrun as (acc & s1 & Hloop & Hrun).
  injection Hrun as <- <-.
  enough (forall acc0,
    forEachAcc
      (_serializeAttributesNS_attr map prefixIndex localPrefixesMap
         ignoreNamespaceDefinitionAttribute requireWellFormed
         noDoubleEncoding) attrs acc0 s = (Normal acc, s1) ->
    s1 = s
    /\ acc.1 = acc0.1
               ++ flat_map (declaredWithOwnPrefix p n noDoubleEncoding) attrs)
    as Hgen by (apply Hgen in Hloop as [-> ->]; done).
  clear Hloop. induction Hall as [|a attrs [Hns Hpre] _ IH]; intros acc0 Hloop;
    cbn [forEachAcc] in Hloop.
  - injection Hloop as <- <-. by rewrite app_nil_r.
  - apply bind_Normal_inv in Hloop as (acc1 & s2 & Ha & Hloop).
    apply (_serializeAttributesNS_attr_own_prefix p n) in Ha as [-> Hacc1];
      [| done ..].
    apply IH in Hloop as [-> ->]. split; [done |].
    rewrite Hacc1. cbn [flat_map]. by rewrite <- app_assoc.
Qed.

End SharedPrefix.

Lemma shared_prefix_is_declared_for_every_attribute_witness :
  let attrs := [mkAttr (Some (lit "urn:y")) (Some (lit "p")) (lit "a")
                  (lit "1");
                mkAttr (Some (lit "urn:y")) (Some (lit "p")) (lit "b")
                  (lit "2")] in
  let r := _serializeAttributesNS (H := XML10.grammar) attrs 0%nat 0%nat ∅
             false true false initialState in
  r = (Normal [(None, Some (lit "xmlns"), lit "p", lit "urn:y");
               (Some (lit "urn:y"), Some (lit "p"), lit "a", lit "1");
               (None, Some (lit "xmlns"), lit "p", lit "urn:y");
               (Some (lit "urn:y"), Some (lit "p"), lit "b", lit "2")], r.2)
  /\ r.2 = initialState.
Proof.
  intros attrs r.
  assert (r = (Normal [(None, Some (lit "xmlns"), lit "p", lit "urn:y");
                       (Some (lit "urn:y"), Some (lit "p"), lit "a",
                        lit "1");
                       (None, Some (lit "xmlns"), lit "p", lit "urn:y");
                       (Some (lit "urn:y"), Some (lit "p"), lit "b",
                        lit "2")], r.2)) as Hr
    by (vm_compute; reflexivity).
  split; [exact Hr |].
  refine (proj1 (shared_prefix_is_declared_for_every_attribute
                   (H := XML10.grammar) (lit "p") (lit "urn:y") attrs
                   0%nat 0%nat ∅ false true false initialState r.2 _
                   _ _ _ _ Hr)).
  - by vm_compute.
  - intros k. by vm_compute.
  - by vm_compute.
  - repeat constructor.
Defined.

(** ** Attributes in the XML namespace *)

Section XmlPrefix.
Context `{XmlGrammar}.

(** The binding that [serializeNode] enters in the prefix map is in place:
    [xml] is bound to the XML namespace, and no other prefix is. *)
Definition xmlPrefixKept (m : PrefixMap.t) : Prop :=
  m !! lit "xml" = Some (Some infraNamespace.XML)
  /\ forall k, m !! k = Some (Some infraNamespace.XML) -> k = lit "xml".

(** An entry of [result] that respects the binding: in the XML namespace it
    has the prefix [xml], and it is no declaration of the prefix [xml]. *)
Definition keepsXmlPrefix (t : AttrTuple) : Prop :=
  let '(ns, prefix, localName, _) := t in
  (ns = Some infraNamespace.XML -> prefix = Some (lit "xml"))
  /\ (ns = None -> prefix = Some (lit "xmlns") -> localName <> lit "xml").

Lemma get_XML (p : option jsstring) (m : PrefixMap.t) :
  xmlPrefixKept m ->
  PrefixMap.get p (Some infraNamespace.XML) m = Some (lit "xml").
Proof.
  intros [Hxml Honly].
  destruct (PrefixMap.get p (Some infraNamespace.XML) m) as [c|] eqn:Hg.
  - apply get_Some, Honly in Hg. by subst c.
  - exfalso.
    assert (PrefixMap.firstFor (Some infraNamespace.XML) m = None) as Hf.
    { unfold PrefixMap.get in Hg. destruct p as [p|]; [|done].
      by destruct (PrefixMap.has p _ m). }
    unfold PrefixMap.firstFor in Hf.
    destruct (List.find _ _) as [e|] eqn:Hfind; [discriminate |].
    pose proof (find_none _ _ Hfind (lit "xml", Some infraNamespace.XML))
      as Hnone.
    cbn [snd] in Hnone. rewrite bool_decide_eq_true_2 in Hnone by done.
    by discriminate Hnone; apply list_elem_of_In, elem_of_map_to_list.
Qed.

Lemma xmlPrefixKept_set (p : jsstring) (n : jsstring) (m : PrefixMap.t) :
  p <> lit "xml" -> n <> infraNamespace.XML ->
  xmlPrefixKept m -> xmlPrefixKept (PrefixMap.set p (Some n) m).
Proof.
  intros Hp Hn [Hxml Honly]. unfold PrefixMap.set. split.
  - by rewrite lookup_insert_ne.
  - intros k. destruct (decide (p = k)) as [<-|Hne].
    + rewrite lookup_insert_eq. congruence.
    + rewrite lookup_insert_ne by done. apply Honly.
Qed.

Lemma generated_prefix_is_not_xml (k : N) :
  lit "ns" ++ number_toString k <> lit "xml".
Proof. intros Heq. vm_compute in Heq. discriminate. Qed.

Lemma XMLNS_is_not_XML : infraNamespace.XMLNS <> infraNamespace.XML.
Proof. intros Heq. vm_compute in Heq. discriminate. Qed.

Lemma _generatePrefix_keeps_xml (n : jsstring) (map prefixIndex : ref)
  (s : State) :
  n <> infraNamespace.XML ->
  xmlPrefixKept (prefixMapAt map s) ->
  exists g s',
    _generatePrefix (Some n) map prefixIndex s = (Normal g, s')
    /\ g <> lit "xml" /\ xmlPrefixKept (prefixMapAt map s').
Proof.
  intros Hn Hkept. unfold _generatePrefix, bind, gets, modify, ret. cbn.
  eexists _, _. split; [reflexivity |].
  split; [apply generated_prefix_is_not_xml |].
  unfold prefixMapAt in *. cbn.
  destruct (decide (map < length (prefixMaps s))%nat) as [Hlt|Hge].
  - rewrite list_lookup_insert_eq by done. cbn.
    by apply xmlPrefixKept_set; [apply generated_prefix_is_not_xml | |].
  - by rewrite list_insert_ge by lia.
Qed.

(** A check that passed leaves the state and goes on. *)
Local Ltac checked H :=
  let Hc := fresh "Hcheck" in
  let u := fresh "u" in
  let s := fresh "s" in
  apply bind_Normal_inv in H as (u & s & Hc & H);
  apply throw_if_Normal_inv in Hc as [_ ->].

(** The value of an attribute leaves the state. *)
Local Ltac valued H v :=
  let Hv := fresh "Hv" in
  let s := fresh "s" in
  apply bind_Normal_inv in H as (v & s & Hv & H);
  unfold _serializeAttributeValue in Hv; checked Hv;
  injection Hv as _ <-.

Lemma _serializeAttributesNS_attr_keeps_xml (map prefixIndex : ref)
  (localPrefixesMap : gmap jsstring jsstring) (ign rwf nde : bool) (a : Attr)
  (acc acc' : list AttrTuple * option LocalNameSet.t) (s s' : State) :
  xmlPrefixKept (prefixMapAt map s) ->
  _serializeAttributesNS_attr map prefixIndex localPrefixesMap ign rwf nde
    a acc s = (Normal acc', s') ->
  xmlPrefixKept (prefixMapAt map s')
  /\ exists out, acc'.1 = acc.1 ++ out /\ Forall keepsXmlPrefix out.
Proof.
  intros Hkept. unfold _serializeAttributesNS_attr. cbv zeta.
  destruct (negb rwf && negb ign && bool_decide (attr_namespaceURI a = None)).
  { intros Hrun. valued Hrun v. injection Hrun as <- <-.
    split; [done |]. eexists. split; [reflexivity |].
    constructor; [|constructor]. split; [discriminate | discriminate]. }
  intros Hrun. checked Hrun.
  apply bind_Normal_inv in Hrun as (step & s1 & Hstep & Hrun).
  destruct (attr_namespaceURI a) as [n|] eqn:Hns.
  2: { injection Hstep as <- <-. checked Hrun. valued Hrun v.
       injection Hrun as <- <-. split; [done |].
       eexists. split; [reflexivity |].
       constructor; [|constructor]. split; [discriminate | discriminate]. }
  unfold _serializeAttributesNS_namespaced in Hstep.
  apply bind_Normal_inv in Hstep as (cp & s0 & Hget & Hstep).
  unfold NamespacePrefixMap_get, gets in Hget. cbv beta in Hget.
  injection Hget as Hcp <-.
  destruct (decide (n = infraNamespace.XMLNS)) as [->|Hxmlns].
  - (* a namespace declaration: skipped, or passed on as it is *)
    apply bind_Normal_inv in Hstep as (declared & s2 & Hd & Hstep).
    unfold NamespacePrefixMap_has, gets in Hd. injection Hd as _ <-.
    match type of Hstep with
    | (if ?c then _ else _) _ = _ => destruct c
    end.
    + injection Hstep as <- <-. injection Hrun as <- <-.
      split; [done |]. exists []. by rewrite app_nil_r.
    + checked Hstep. checked Hstep. injection Hstep as <- <-.
      checked Hrun. valued Hrun v. injection Hrun as <- <-.
      split; [done |]. eexists. split; [reflexivity |].
      constructor; [|constructor]. split; [|discriminate].
      intros Heq. destruct XMLNS_is_not_XML. congruence.
  - destruct cp as [c|].
    + (* a prefix of the map is bound to the namespace *)
      injection Hstep as <- <-. checked Hrun. valued Hrun v.
      injection Hrun as <- <-. split; [done |].
      eexists. split; [reflexivity |].
      constructor; [|constructor]. split; [|discriminate].
      intros [= ->]. rewrite get_XML in Hcp by done. congruence.
    + (* no prefix is: the namespace is not the XML namespace *)
      assert (n <> infraNamespace.XML) as Hn.
      { intros ->. rewrite get_XML in Hcp by done. discriminate. }
      apply bind_Normal_inv in Hstep as (c & s2 & Hc & Hstep).
      assert (c <> lit "xml" /\ xmlPrefixKept (prefixMapAt map s2))
        as [Hcxml Hkept2].
      { destruct (attr_prefix a) as [p|].
        - apply bind_Normal_inv in Hc as (mapped & s3 & Hm & Hc).
          unfold NamespacePrefixMap_hasPrefix, gets in Hm.
          injection Hm as <- <-.
          apply bind_Normal_inv in Hc as (bound & s4 & Hb & Hc).
          unfold NamespacePrefixMap_has, gets in Hb. injection Hb as <- <-.
          destruct (negb _ || _) eqn:Hown.
          + injection Hc as <- <-. split; [|done]. intros ->.
            destruct Hkept as [Hxml _].
            unfold PrefixMap.hasPrefix, PrefixMap.has in Hown.
            rewrite Hxml in Hown.
            rewrite bool_decide_eq_true_2 in Hown by eauto.
            cbn [negb orb] in Hown.
            apply bool_decide_eq_true in Hown. congruence.
          + destruct (_generatePrefix_keeps_xml n map prefixIndex s Hn Hkept)
              as (g & sg & Hgen & Hg & Hk).
            rewrite Hgen in Hc. by injection Hc as <- <-.
        - destruct (_generatePrefix_keeps_xml n map prefixIndex s Hn Hkept)
            as (g & sg & Hgen & Hg & Hk).
          rewrite Hgen in Hc. by injection Hc as <- <-. }
      valued Hstep v. injection Hstep as <- <-.
      checked Hrun. valued Hrun v'. injection Hrun as <- <-.
      split; [done |]. cbn [fst]. rewrite <- app_assoc.
      eexists. split; [reflexivity |].
      constructor; [|constructor; [|constructor]].
      * split; [discriminate | done].
      * split; [congruence | discriminate].
Qed.


End XmlPrefix.


(** ** Creating elements *)

(** The parts of a split string are never none, contain no colon, and joined
    by colons give the string back. *)
Lemma split_join (s : jsstring) :
  exists part parts,
    DomDocument.split s = part :: parts
    /\ s = part ++ flat_map (fun p => DomDocument.COLON :: p) parts
    /\ Forall (fun p => DomDocument.COLON ∉ p) (part :: parts).
Proof.
  induction s as [|c s (part & parts & Hsplit & Hjoin & Hparts)];
    cbn [DomDocument.split].
  - exists [], []. split_and!; [done | done |].
    apply Forall_cons_2; [apply not_elem_of_nil | done].
  - destruct (N.eqb_spec c DomDocument.COLON) as [->|Hne].
    + exists [], (part :: parts). rewrite Hsplit. split_and!; [done | |].
      * cbn [flat_map app]. by rewrite <- Hjoin.
      * apply Forall_cons_2; [apply not_elem_of_nil | done].
    + rewrite Hsplit. exists (c :: part), parts. split_and!; [done | |].
      * cbn [app]. by rewrite <- Hjoin.
      * apply Forall_cons_1 in Hparts as [Hpart Hparts].
        apply Forall_cons_2; [|done]. rewrite not_elem_of_cons. by split.
Qed.

Section CreateElementNS.
Context `{XmlGrammar} `{DomDocument.DomLayer}.

(** [createElementNS] never creates an element in the XMLNS namespace: the
    test that guards it asks for a prefix [xmlns] and a qualified name
    [xmlns] at once, and a qualified name without colon has no prefix. *)
Theorem createElementNS_rejects_the_XMLNS_namespace (qualifiedName : jsstring) :
  exists e,
    DomDocument.createElementNS (Some DomDocument.Namespace_XMLNS)
      qualifiedName
    = inl e.
Proof.
  unfold DomDocument.createElementNS.
  destruct (negb (XMLSpec10_Name_matches _)); [by eexists |].
  destruct (negb (DomDocument.XMLSpec10_QName_matches _)); [by eexists |].
  cbv zeta.
  destruct (DomDocument.truthy _ && _); [by eexists |].
  destruct (bool_decide _ && _); [by eexists |].
  rewrite bool_decide_eq_true_2 by done. cbn [andb].
  destruct (decide (qualifiedName = lit "xmlns")) as [->|Hne].
  - replace (DomDocument.split (lit "xmlns")) with [lit "xmlns"]
      by (by vm_compute).
    cbn [length Nat.eqb]. rewrite (bool_decide_eq_false_2 (None = _)) by done.
    by eexists.
  - rewrite (bool_decide_eq_false_2 (qualifiedName = _)) by done.
    rewrite orb_true_r. by eexists.
Qed.

(** What an element created by [createElementNS] holds: the namespace as
    given; for a qualified name with exactly one colon and something before
    it, the two parts as prefix and local name; otherwise an empty prefix,
    with the whole qualified name as local name unless the name begins with
    its only colon.  A prefix requires a namespace, and the prefix [xml] the
    XML namespace. *)
Theorem createElementNS_splits_the_qualified_name
  (namespace : option jsstring) (qualifiedName : jsstring)
  (element : DomDocument.ElementNode) :
  DomDocument.createElementNS namespace qualifiedName = inr element ->
  DomDocument.e_namespace element = namespace
  /\ XMLSpec10_Name_matches qualifiedName = true
  /\ DomDocument.XMLSpec10_QName_matches qualifiedName = true
  /\ ((qualifiedName
       = DomDocument.e_prefix element ++ lit ":"
         ++ DomDocument.e_localName element
       /\ (DomDocument.COLON ∉ DomDocument.e_prefix element)
       /\ (DomDocument.COLON ∉ DomDocument.e_localName element)
       /\ (DomDocument.e_prefix element <> []
           -> DomDocument.truthy namespace = true))
      \/ (DomDocument.e_prefix element = []
          /\ DomDocument.e_localName element = qualifiedName))
  /\ (DomDocument.e_prefix element = lit "xml"
      -> namespace = Some DomDocument.Namespace_XML).
Proof.
  unfold DomDocument.createElementNS.
  destruct (XMLSpec10_Name_matches _); [|discriminate].
  destruct (DomDocument.XMLSpec10_QName_matches _); [|discriminate].
  cbn [negb]. cbv zeta.
  destruct (split_join qualifiedName) as (part & parts & Hsplit & Hjoin & Hno).
  rewrite Hsplit.
  set (prefix := if (length (part :: parts) =? 2)%nat
                 then (part :: parts) !! 0%nat else None).
  destruct (DomDocument.truthy prefix && _) eqn:Hns; [discriminate |].
  destruct (bool_decide (prefix = Some (lit "xml")) && _) eqn:Hxml;
    [discriminate |].
  destruct (bool_decide (namespace = Some DomDocument.Namespace_XMLNS) && _)
    eqn:Hxmlns; [discriminate |].
  intros Heq. injection Heq as Heq. subst element. subst prefix.
  cbn [DomDocument.e_namespace DomDocument.e_prefix DomDocument.e_localName].
  split_and!; [done | done | done | |].
  - destruct parts as [|part2 [|part3 parts]]; cbn [length Nat.eqb] in *.
    + right. by destruct (DomDocument.truthy None).
    + left. cbn [lookup list_lookup default flat_map app] in *.
      rewrite app_nil_r in Hjoin.
      apply Forall_cons_1 in Hno as [Hno1 Hno2].
      apply Forall_cons_1 in Hno2 as [Hno2 _].
      replace (lit ":") with [DomDocument.COLON] by (by vm_compute).
      destruct part as [|c part]; cbn [DomDocument.truthy andb] in *.
      * split_and!; [done | apply not_elem_of_nil | done | done].
      * split_and!; [done | done | done |]. intros _.
        by apply negb_false_iff in Hns.
    + right. by destruct (DomDocument.truthy None).
  - intros Hprefix.
    assert (lit "xml" <> []) as Hxml_ne by (by vm_compute).
    destruct parts as [|part2 [|part3 parts]];
      cbn [length Nat.eqb lookup list_lookup default DomDocument.truthy]
        in *; try congruence.
    destruct part as [|c part]; [congruence |].
    change (c :: part = lit "xml") in Hprefix. rewrite Hprefix in Hxml.
    rewrite bool_decide_eq_true_2 in Hxml by done. cbn [andb] in Hxml.
    apply negb_false_iff in Hxml. by apply bool_decide_eq_true in Hxml.
Qed.

End CreateElementNS.

Lemma createElementNS_splits_the_qualified_name_witness :
  let element :=
    DomDocument.mkElement (Some (lit "urn:x")) (lit "p") (lit "a") in
  DomDocument.createElementNS (H := XML10.grammar)
    (H0 := DomDocument.reference) (Some (lit "urn:x")) (lit "p:a")
  = inr element
  /\ lit "p:a"
     = DomDocument.e_prefix element ++ lit ":"
       ++ DomDocument.e_localName element.
Proof.
  intros element.
  assert (DomDocument.createElementNS (H := XML10.grammar)
            (H0 := DomDocument.reference) (Some (lit "urn:x")) (lit "p:a")
          = inr element) as Hrun by (vm_compute; reflexivity).
  split; [exact Hrun |].
  destruct (createElementNS_splits_the_qualified_name (H := XML10.grammar)
              (H0 := DomDocument.reference) (Some (lit "urn:x")) (lit "p:a")
              element Hrun) as (_ & _ & _ & [(Hq & _)|[Hp _]] & _).
  - exact Hq.
  - exfalso. vm_compute in Hp. discriminate.
Defined.
